(** * Batch collators of [accmt.collate_fns]

    A shallow embedding of the three collators of
    [src/accmt/collate_fns.py]:

    - [DataCollatorForSeq2Seq]          (padding, three fields),
    - [DataCollatorForLongestSequence]  (padding, two fields, optional targets),
    - [DataCollatorForLanguageModeling] (masked language modelling).

    Python exceptions are results of type [result]; the two padding
    collators mutate nothing and are pure functions; the language
    modelling collator mutates the examples it is given and draws random
    numbers, so it runs in a state monad over an object store and a random
    source.

    The file has three parts: the embedding of the code, with the
    vocabulary in which the properties are stated; lemmas on the
    primitives and on the three collators; and the properties of the
    specification, each named after the claim it settles. *)

From Stdlib Require Import ZArith QArith.
From stdpp Require Import gmap strings list fin_maps.

(** ** Exceptions and the error monad *)

Inductive exn : Set :=
| KeyError
| ValueError
| TypeError
| RuntimeError
| UnboundLocalError.

Inductive result (A : Type) : Type :=
| Ok (a : A)
| Raise (e : exn).
Arguments Ok {A} a.
Arguments Raise {A} e.

#[global] Instance result_ret : MRet result := @Ok.
#[global] Instance result_bind : MBind result :=
  λ A B f m, match m with Ok a => f a | Raise e => Raise e end.
#[global] Instance result_fmap : FMap result :=
  λ A B f m, match m with Ok a => Ok (f a) | Raise e => Raise e end.

Definition is_ok {A} (r : result A) : bool :=
  match r with Ok _ => true | Raise _ => false end.

(** [d[k]] on a Python dict: [KeyError] when the key is absent. *)
Definition getitem {V} (d : gmap string V) (k : string) : result V :=
  match d !! k with
  | Some v => Ok v
  | None => Raise KeyError
  end.

(** [max(len(l) for l in xs)]: [ValueError] on an empty sequence. *)
Definition py_max (lens : list nat) : result nat :=
  match lens with
  | [] => Raise ValueError
  | n :: ns => Ok (foldl Nat.max n ns)
  end.

(** ** Sequences held by an example

    A field of an example is a Python list of integers or a numpy array of
    integers; [isinstance(x, list)] tells them apart. *)

Inductive pyseq : Set :=
| PyList (xs : list Z)
| NdArray (xs : list Z).

Definition seq_items (s : pyseq) : list Z :=
  match s with PyList xs | NdArray xs => xs end.

Definition py_len (s : pyseq) : nat := length (seq_items s).

Definition isinstance_list (s : pyseq) : bool :=
  match s with PyList _ => true | NdArray _ => false end.

(** A cell of a padded row: an integer, or Python's [None] (the fill
    value of a tokenizer that has no pad token). *)
Definition cell : Set := option Z.

Definition has_none (cs : list cell) : bool :=
  existsb (λ c, match c with None => true | Some _ => false end) cs.

(** A row as numpy sees it: its cells, and whether its dtype is [object]. *)
Record row : Set := Row { cells : list cell; dtype_object : bool }.

(** [np.asanyarray] of a Python list: dtype [object] when it holds [None]. *)
Definition asarray (cs : list cell) : row := Row cs (has_none cs).

(** [int + cell]: adding [None] to an integer is a [TypeError]. *)
Definition cell_add (x : Z) (c : cell) : result Z :=
  match c with
  | Some y => Ok (x + y)%Z
  | None => Raise TypeError
  end.

(** [ndarray + list] with numpy broadcasting of one-dimensional shapes:
    equal lengths add pointwise, a length-one operand is stretched,
    anything else is a [ValueError]. *)
Definition np_add (xs : list Z) (r : list cell) : result row :=
  sums ←
    (if decide (length xs = length r) then
       mapM (λ p : Z * cell, cell_add p.1 p.2) (zip xs r)
     else match r, xs with
          | [c], _ => mapM (λ x, cell_add x c) xs
          | _, [x] => mapM (cell_add x) r
          | _, _ => Raise ValueError
          end);
  Ok (Row (Some <$> sums) (has_none r)).

(** [x + remainder] where [remainder] is a Python list: list
    concatenation on a list, broadcasting addition on an array. *)
Definition py_add (x : pyseq) (remainder : list cell) : result row :=
  match x with
  | PyList xs => Ok (asarray ((Some <$> xs) ++ remainder))
  | NdArray xs => np_add xs remainder
  end.

(** ** Integers as numpy stores them

    The token ids, masks and fill values of the data model are integers
    that an array of dtype [int64] holds.  [np.concatenate] keeps that
    dtype when both operands have it; an empty Python list is an array of
    doubles, and next to it the integers are converted to doubles and
    back, which is exact up to [2^53] in magnitude only. *)

Definition is_int64 (z : Z) : bool := ((- 2 ^ 63 <=? z) && (z <? 2 ^ 63))%Z.

(** The integers a double holds exactly whatever their neighbours:
    magnitude at most [2^53]. *)
Definition exact_int (z : Z) : bool := (Z.abs z <=? 2 ^ 53)%Z.

(** The double nearest to an integer, ties to the even significand, as
    the integer it is: beyond 53 bits the low bits are rounded off. *)
Definition float64_of_int (z : Z) : Z :=
  let a := Z.abs z in
  if (a <? 2 ^ 53)%Z then z
  else
    let e := (Z.log2 a - 52)%Z in
    let q := Z.shiftr a e in
    let r := (a - Z.shiftl q e)%Z in
    let half := (2 ^ (e - 1))%Z in
    let q' :=
      if (r <? half)%Z then q
      else if (half <? r)%Z then (q + 1)%Z
      else if Z.even q then q else (q + 1)%Z in
    (Z.sgn z * Z.shiftl q' e)%Z.

(** [.astype(np.int64)] of a double that holds an integer: the integer
    when it is in range, and the least [int64] otherwise (what the
    conversion yields on x86-64). *)
Definition int64_of_float64 (v : Z) : Z :=
  if is_int64 v then v else (- 2 ^ 63)%Z.

(** The dtypes that [np.concatenate] meets here. *)
Inductive dtype : Set := Int64 | Float64 | ObjectDtype.

(** An operand of [np.concatenate]: an array of integers, or a Python
    list (a field held as a list, or the fill). *)
Inductive operand : Set :=
| Arr (xs : list Z)
| Lst (cs : list cell).

Definition operand_of (s : pyseq) : operand :=
  match s with
  | PyList xs => Lst (Some <$> xs)
  | NdArray xs => Arr xs
  end.

Definition operand_cells (o : operand) : list cell :=
  match o with
  | Arr xs => Some <$> xs
  | Lst cs => cs
  end.

(** The dtype of an operand as an array: [object] for a list that holds
    [None], doubles for the empty list, [int64] for a list of [int64]
    values.  A list with an integer beyond [int64] is outside the data
    model; numpy leaves the [int64] dtype for it, which is modelled as
    the promotion to doubles that an [uint64] array next to an [int64]
    one undergoes. *)
Definition dtype_of (o : operand) : dtype :=
  match o with
  | Arr _ => Int64
  | Lst cs =>
      if has_none cs then ObjectDtype
      else match cs with
           | [] => Float64
           | _ => if forallb (from_option is_int64 true) cs then Int64 else Float64
           end
  end.

(** The dtype of a concatenation. *)
Definition promote (d1 d2 : dtype) : dtype :=
  match d1, d2 with
  | ObjectDtype, _ | _, ObjectDtype => ObjectDtype
  | Float64, _ | _, Float64 => Float64
  | Int64, Int64 => Int64
  end.

(** What [.astype(np.int64)] makes of an integer that went through an
    array of dtype [d]. *)
Definition stored (d : dtype) (z : Z) : Z :=
  match d with
  | Float64 => int64_of_float64 (float64_of_int z)
  | Int64 | ObjectDtype => z
  end.

(** [.astype(np.int64)] on the cells: [TypeError] on a [None] cell. *)
Definition astype_int64 (cs : list cell) : result (list Z) :=
  mapM (λ c : cell, match c with Some z => Ok z | None => Raise TypeError end) cs.

(** [np.concatenate([a, b]).astype(np.int64)]. *)
Definition np_concatenate_int64 (a b : operand) : result row :=
  zs ← astype_int64 (operand_cells a ++ operand_cells b);
  Ok (Row (Some <$> (stored (promote (dtype_of a) (dtype_of b)) <$> zs)) false).

Definition same_length {A} (n : nat) (xs : list (list A)) : bool :=
  forallb (λ x, bool_decide (length x = n)) xs.

(** [np.stack(rows)]: the rows must be one or more and of one shape. *)
Definition np_stack (rows : list row) : result (list row) :=
  match rows with
  | [] => Raise ValueError
  | r :: _ =>
      if same_length (length (cells r)) (cells <$> rows) then Ok rows
      else Raise ValueError
  end.

(** [torch.from_numpy]: refuses an array of dtype [object]. *)
Definition from_numpy (rows : list row) : result (list (list Z)) :=
  if existsb dtype_object rows then Raise TypeError
  else mapM (λ r, astype_int64 (cells r)) rows.

(** ** The tokenizer

    The tokenizer is an object of another library; the collators use the
    attributes and methods below. *)

Record tokenizer : Type := Tokenizer {
  pad_token_id : option Z;
  padding_side : string;
  (* [convert_tokens_to_ids(mask_token)] *)
  mask_token_id : Z;
  (* [len(tokenizer)] *)
  vocab_size : Z;
  (* [get_special_tokens_mask(ids, already_has_special_tokens=True)] *)
  get_special_tokens_mask : list Z → result (list Z)
}.

(** ** DataCollatorForSeq2Seq *)

Record DataCollatorForSeq2Seq : Type := Seq2Seq {
  s2s_pad_token_id : option Z;
  s2s_label_pad_token_id : Z;
  s2s_padding_side : string
}.

(** [__init__(self, tokenizer, label_pad_token_id=-100)] *)
Definition seq2seq_init (tok : tokenizer) (label_pad_token_id : Z)
  : DataCollatorForSeq2Seq :=
  Seq2Seq (pad_token_id tok) label_pad_token_id (padding_side tok).

Record seq2seq_batch : Set := Seq2SeqBatch {
  sb_input_ids : list (list Z);
  sb_attention_mask : list (list Z);
  sb_labels : list (list Z)
}.

Abbreviation example := (gmap string pyseq).

(** First loop: collect [input_ids] and [labels] of every feature. *)
Definition seq2seq_collect (batch : list example)
  : result (list (pyseq * pyseq)) :=
  mapM (λ feature : example,
          i ← getitem feature "input_ids";
          l ← getitem feature "labels";
          Ok (i, l)) batch.

(** Body of the second loop: the padded rows of one feature. *)
Definition seq2seq_pad (c : DataCollatorForSeq2Seq)
    (max_input_length max_label_length : nat) (feature : example)
  : result (row * row * row) :=
  ids ← getitem feature "input_ids";
  let inputs_remainder : list cell :=
    replicate (max_input_length - py_len ids) (s2s_pad_token_id c) in
  let attention_masks_remainder : list cell :=
    replicate (max_input_length - py_len ids) (Some 0%Z) in
  labs ← getitem feature "labels";
  let labels_remainder : list cell :=
    replicate (max_label_length - py_len labs) (Some (s2s_label_pad_token_id c)) in
  if isinstance_list labs then
    i ← py_add ids inputs_remainder;
    am ← getitem feature "attention_mask";
    a ← py_add am attention_masks_remainder;
    l ← py_add labs labels_remainder;
    Ok (i, a, l)
  else if String.eqb (s2s_padding_side c) "right" then
    i ← np_concatenate_int64 (operand_of ids) (Lst inputs_remainder);
    am ← getitem feature "attention_mask";
    a ← np_concatenate_int64 (operand_of am) (Lst attention_masks_remainder);
    l ← np_concatenate_int64 (operand_of labs) (Lst labels_remainder);
    Ok (i, a, l)
  else
    i ← np_concatenate_int64 (Lst inputs_remainder) (operand_of ids);
    am ← getitem feature "attention_mask";
    a ← np_concatenate_int64 (Lst attention_masks_remainder) (operand_of am);
    l ← np_concatenate_int64 (Lst labels_remainder) (operand_of labs);
    Ok (i, a, l).

(** [__call__(self, batch)] *)
Definition seq2seq_call (c : DataCollatorForSeq2Seq) (batch : list example)
  : result seq2seq_batch :=
  collected ← seq2seq_collect batch;
  max_label_length ← py_max (py_len <$> collected.*2);
  max_input_length ← py_max (py_len <$> collected.*1);
  rows ← mapM (seq2seq_pad c max_input_length max_label_length) batch;
  inputs ← np_stack ((λ r : row * row * row, r.1.1) <$> rows) ≫= from_numpy;
  attention_masks ← np_stack ((λ r : row * row * row, r.1.2) <$> rows) ≫= from_numpy;
  labels ← np_stack ((λ r : row * row * row, r.2) <$> rows) ≫= from_numpy;
  Ok (Seq2SeqBatch inputs attention_masks labels).

(** The two examples of the documented scenario, as Python lists and as
    numpy arrays. *)
Definition mk_example (mk : list Z → pyseq) (ids am labs : list Z) : example :=
  <["input_ids" := mk ids]> (<["attention_mask" := mk am]> (<["labels" := mk labs]> ∅)).

Definition scenario_batch (mk : list Z → pyseq) : list example :=
  [ mk_example mk [5; 6; 7]%Z [1; 1; 1]%Z [1; 2]%Z;
    mk_example mk [5; 6]%Z [1; 1]%Z [1; 2; 3; 4]%Z ].

(** A tokenizer with pad token 0, mask token 103 and a vocabulary of 1000
    ids, whose only special token is 101. *)
Definition scenario_tokenizer (side : string) : tokenizer :=
  Tokenizer (Some 0%Z) side 103%Z 1000%Z
    (λ ids, Ok ((λ z, if (z =? 101)%Z then 1 else 0)%Z <$> ids)).

Definition scenario_collator (side : string) : DataCollatorForSeq2Seq :=
  seq2seq_init (scenario_tokenizer side) (-100)%Z.

(** ** Targets paired with an example

    A feature is a mapping of fields, or a tuple [(fields, target)]. *)

Record tensor : Set := Tensor { t_shape : list nat; t_data : list Z }.

Inductive pyobj : Set :=
| ObjTensor (t : tensor)
| ObjInt (z : Z).

Inductive target : Set :=
| TgtObj (o : pyobj)
| TgtDict (kvs : list (string * pyobj)).

Inductive feature (F : Type) : Type :=
| Plain (f : F)
| Paired (f : F) (t : target).
Arguments Plain {F} f.
Arguments Paired {F} f t.

(** [feature[0]] of a tuple, the feature itself otherwise. *)
Definition fields_of {F} (x : feature F) : F :=
  match x with Plain f | Paired f _ => f end.

(** [feature[1]] of a tuple. *)
Definition target_of {F} (x : feature F) : option target :=
  match x with Plain _ => None | Paired _ t => Some t end.

Definition as_tensor (t : target) : result tensor :=
  match t with
  | TgtObj (ObjTensor x) => Ok x
  | _ => Raise TypeError
  end.

(** [torch.stack(ts)]: every element must be a tensor, there must be at
    least one, and all must have one shape. *)
Definition torch_stack (ts : list target) : result tensor :=
  xs ← mapM as_tensor ts;
  match xs with
  | [] => Raise RuntimeError
  | x :: _ =>
      if forallb (λ y, bool_decide (t_shape y = t_shape x)) xs
      then Ok (Tensor (length xs :: t_shape x) (concat (t_data <$> xs)))
      else Raise RuntimeError
  end.

(** ** DataCollatorForLongestSequence *)

Record DataCollatorForLongestSequence : Type := LongestSequence {
  ls_pad_token_id : option Z;
  ls_padding_side : string
}.

(** [__init__(self, tokenizer)] *)
Definition longest_init (tok : tokenizer) : DataCollatorForLongestSequence :=
  LongestSequence (pad_token_id tok) (padding_side tok).

Record longest_batch : Set := LongestBatch {
  lb_input_ids : list (list Z);
  lb_attention_mask : list (list Z)
}.

(** What [__call__] returns: the mapping alone, or a pair. *)
Inductive longest_return : Set :=
| ReturnBatch (output : longest_batch)
| ReturnPair (output : longest_batch) (labels : tensor).

(** Body of the second loop, after a tuple has been taken apart. *)
Definition longest_pad (c : DataCollatorForLongestSequence)
    (max_input_length : nat) (f : example) : result (row * row) :=
  ids ← getitem f "input_ids";
  let inputs_remainder : list cell :=
    replicate (max_input_length - py_len ids) (ls_pad_token_id c) in
  let attention_masks_remainder : list cell :=
    replicate (max_input_length - py_len ids) (Some 0%Z) in
  if String.eqb (ls_padding_side c) "right" then
    i ← np_concatenate_int64 (operand_of ids) (Lst inputs_remainder);
    am ← getitem f "attention_mask";
    a ← np_concatenate_int64 (operand_of am) (Lst attention_masks_remainder);
    Ok (i, a)
  else
    i ← np_concatenate_int64 (Lst inputs_remainder) (operand_of ids);
    am ← getitem f "attention_mask";
    a ← np_concatenate_int64 (Lst attention_masks_remainder) (operand_of am);
    Ok (i, a).

(** [__call__(self, batch)] *)
Definition longest_call (c : DataCollatorForLongestSequence)
    (batch : list (feature example)) : result longest_return :=
  inputs ← mapM (λ x, getitem (fields_of x) "input_ids") batch;
  max_input_length ← py_max (py_len <$> inputs);
  rows ← mapM (λ x, longest_pad c max_input_length (fields_of x)) batch;
  let labels := omap target_of batch in
  input_ids ← np_stack (rows.*1) ≫= from_numpy;
  attention_mask ← np_stack (rows.*2) ≫= from_numpy;
  let output := LongestBatch input_ids attention_mask in
  if bool_decide (0 < length labels) then
    stacked ← torch_stack labels;
    Ok (ReturnPair output stacked)
  else Ok (ReturnBatch output).

(** ** Well-formed examples

    The fields the padding collators read are present, the attention mask
    is as long as the input ids, and an example whose labels are a Python
    list holds its other fields as Python lists too. *)

Definition wf_example (f : example) : bool :=
  match f !! "input_ids", f !! "attention_mask", f !! "labels" with
  | Some ids, Some am, Some labs =>
      bool_decide (py_len am = py_len ids)
      && implb (isinstance_list labs) (isinstance_list ids && isinstance_list am)
  | _, _, _ => false
  end.

(** What [DataCollatorForLongestSequence] needs of the fields of an
    example: input ids, and an attention mask of the same length. *)
Definition wf_fields (f : example) : bool :=
  match f !! "input_ids", f !! "attention_mask" with
  | Some ids, Some am => bool_decide (py_len am = py_len ids)
  | _, _ => false
  end.

(** The data of a target that is a tensor. *)
Definition target_data (t : target) : list Z :=
  match t with
  | TgtObj (ObjTensor x) => t_data x
  | _ => []
  end.

(** A target that is a tensor of shape [sh]. *)
Definition tensor_of_shape (sh : list nat) (t : target) : Prop :=
  ∃ data, t = TgtObj (ObjTensor (Tensor sh data)).

(** The raw length of field [k] of an example (0 when absent), and its
    maximum over a batch. *)
Definition raw_length (k : string) (f : example) : nat :=
  from_option py_len 0 (f !! k).

Definition max_raw_length (k : string) (batch : list example) : nat :=
  max_list (raw_length k <$> batch).

(** A row of [n] integers, of an integer dtype. *)
Definition int_row (n : nat) (r : row) : Prop :=
  dtype_object r = false ∧ ∃ zs, cells r = Some <$> zs ∧ length zs = n.

(** The integers of a row. *)
Definition row_ints (r : row) : list Z := omap id (cells r).

(** The padder of the specification: [xs] extended to length [n] with
    [fill], on the right or on the left. *)
Definition pad_to (right : bool) (n : nat) (fill : Z) (xs : list Z) : list Z :=
  if right then xs ++ replicate (n - length xs) fill
  else replicate (n - length xs) fill ++ xs.

(** The items of field [k] of an example. *)
Definition field (k : string) (f : example) : list Z :=
  from_option seq_items [] (f !! k).

(** Field [k] of an example as the sequence it is held in. *)
Definition field_seq (k : string) (f : example) : pyseq :=
  default (PyList []) (f !! k).

(** What [np.concatenate(...).astype(np.int64)] makes of the integers of
    the sequence [x] and of [r] copies of [fill]: they go through the
    dtype of the concatenation. *)
Definition np_stored (x : pyseq) (r : nat) (fill : Z) : Z → Z :=
  stored (promote (dtype_of (operand_of x))
            (dtype_of (Lst (Some <$> replicate r fill)))).

(** Every item of field [k] of an example is held exactly by a double. *)
Definition exact_field (k : string) (f : example) : bool :=
  forallb exact_int (field k f).

(** The same of the fields [DataCollatorForLongestSequence] and
    [DataCollatorForSeq2Seq] read. *)
Definition exact_fields (f : example) : bool :=
  exact_field "input_ids" f && exact_field "attention_mask" f.

Definition exact_example (f : example) : bool :=
  exact_fields f && exact_field "labels" f.

(** The items of the two fields [DataCollatorForLongestSequence] reads
    are integers that [int64] holds. *)
Definition int64_fields (f : example) : bool :=
  forallb is_int64 (field "input_ids" f)
  && forallb is_int64 (field "attention_mask" f).

(** The side on which [DataCollatorForSeq2Seq] pads an example: the
    branch taken for list labels concatenates on the right whatever the
    configured side. *)
Definition seq2seq_side (c : DataCollatorForSeq2Seq) (f : example) : bool :=
  from_option isinstance_list false (f !! "labels")
  || String.eqb (s2s_padding_side c) "right".


(** What [DataCollatorForSeq2Seq] makes of the integers of field [k] of an
    example padded with [r] copies of [fill]: nothing in the branch taken
    for list labels, the conversion of [np.concatenate] otherwise. *)
Definition seq2seq_stored (f : example) (k : string) (r : nat) (fill : Z) : Z → Z :=
  if from_option isinstance_list false (f !! "labels") then id
  else np_stored (field_seq k f) r fill.

(** The row [DataCollatorForSeq2Seq] returns for field [k] of an example,
    padded to [n] with [fill]; [plan] is the field whose length decides
    the number of fill items ([input_ids] for the attention mask). *)
Definition seq2seq_row (c : DataCollatorForSeq2Seq) (f : example)
    (k plan : string) (n : nat) (fill : Z) : list Z :=
  seq2seq_stored f k (n - raw_length plan f) fill
    <$> pad_to (seq2seq_side c f) n fill (field k f).

(** The row [DataCollatorForLongestSequence] returns for field [k]. *)
Definition longest_row (c : DataCollatorForLongestSequence) (f : example)
    (k : string) (n : nat) (fill : Z) : list Z :=
  np_stored (field_seq k f) (n - raw_length "input_ids" f) fill
    <$> pad_to (String.eqb (ls_padding_side c) "right") n fill (field k f).

(** ** The random source

    [torch.bernoulli] and [torch.randint] draw from a generator.  The
    generator is a stream of raw draws and a position in it; every draw
    advances the position.  A raw draw [k] gives the uniform sample
    [(k mod 2^53) / 2^53] of the interval [[0, 1)]. *)

Record generator : Type := Generator { gen_seed : nat → N; gen_pos : nat }.

Definition uniform (k : N) : Q :=
  Z.of_N (k mod 2 ^ 53) # 2 ^ 53.

(** The next [n] raw draws. *)
Definition draws (g : generator) (n : nat) : list N :=
  (λ i, gen_seed g (gen_pos g + i)) <$> seq 0 n.

Definition advance (g : generator) (n : nat) : generator :=
  Generator (gen_seed g) (gen_pos g + n).

(** One Bernoulli trial at probability [p] on the raw draw [k]. *)
Definition trial (p : Q) (k : N) : bool := negb (Qle_bool p (uniform k)).

Definition is_probability (p : Q) : bool := Qle_bool 0 p && Qle_bool p 1.

(** [torch.bernoulli(probs)]: every probability must lie in [[0, 1]].
    A probability is the rational that the configuration gives.  The
    tensor that [torch.full] builds stores it in single precision; that
    rounding is left out, so the range check is that of the code only for
    values in [[0, 1]] or clearly outside, and the properties that rest on
    it keep to those. *)
Definition bernoulli (probs : list Q) (g : generator)
  : result (list bool * generator) :=
  if forallb is_probability probs
  then Ok (zip_with trial probs (draws g (length probs)), advance g (length probs))
  else Raise RuntimeError.

(** [torch.randint(high, shape)]: [high] must be positive. *)
Definition randint (high : Z) (n : nat) (g : generator)
  : result (list Z * generator) :=
  if (0 <? high)%Z
  then Ok ((λ k, Z.of_N k mod high)%Z <$> draws g n, advance g n)
  else Raise RuntimeError.

(** ** The object store

    The language modelling collator changes the dicts and the tensors it
    is given, so examples are references into a store: a heap of
    one-dimensional integer tensors and a heap of dicts from field names
    to tensors.  A location is an index into its heap. *)

Abbreviation loc := nat.

Record store : Type := Store {
  tensors : list (list Z);
  dicts : list (gmap string loc)
}.

(** ** Tensor operations *)

(** [t.bool()] *)
Definition to_bool (t : list Z) : list bool := (λ z, negb (z =? 0)%Z) <$> t.

(** [t[mask] = v] for a mask of the shape of [t]. *)
Definition assign_where {A} (mask : list bool) (v : A) (t : list A) : list A :=
  zip_with (λ (b : bool) x, if b then v else x) mask t.

(** [t[mask] = vs[mask]] *)
Definition assign_from {A} (mask : list bool) (vs t : list A) : list A :=
  zip_with (λ (bv : bool * A) x, if bv.1 then bv.2 else x) (zip mask vs) t.

(** A mask of shape [n], or of a shape that broadcasts to it. *)
Definition broadcast_mask (n : nat) (mask : list bool) : result (list bool) :=
  if decide (length mask = n) then Ok mask
  else match mask with
       | [b] => Ok (replicate n b)
       | _ => Raise RuntimeError
       end.

(** [t.masked_fill_(mask, value)] *)
Definition masked_fill {A} (t : list A) (mask : list bool) (value : A)
  : result (list A) :=
  m ← broadcast_mask (length t) mask;
  Ok (assign_where m value t).

(** [torch.stack] of one-dimensional tensors. *)
Definition stack_rows (rows : list (list Z)) : result (list (list Z)) :=
  match rows with
  | [] => Raise RuntimeError
  | r :: _ =>
      if same_length (length r) rows then Ok rows else Raise RuntimeError
  end.

(** ** DataCollatorForLanguageModeling *)

(** The value given for [masked_to_mask]: a float, or anything else. *)
Inductive pynumber : Set :=
| PyFloat (q : Q)
| NotFloat.

Record DataCollatorForLanguageModeling : Type := LanguageModeling {
  lm_tokenizer : tokenizer;
  mlm : bool;
  (* a Python float *)
  mlm_probability : Q;
  (* written into the labels tensor: an integer that [int64] holds *)
  ignore_index : Z;
  masked_to_mask : pynumber;
  apply_random_words : bool;
  keep_original_input : bool
}.

(** [__init__] with its defaults. *)
Definition lm_init_default (tok : tokenizer) : DataCollatorForLanguageModeling :=
  LanguageModeling tok true (15 # 100) (-100) (PyFloat (8 # 10)) true false.

(** The state of one call: the store, the generator and the local
    variables that live across iterations of the loop. *)
Record lm_state : Type := LmState {
  st_store : store;
  st_gen : generator;
  (* the local [_feature]; unbound before its first assignment *)
  cur_feature : option loc;
  original_input_list : list loc;
  input_list : list loc;
  attention_mask_list : list loc;
  label_list : list loc;
  (* a [defaultdict(list)], in insertion order *)
  extra_targets : list (string * list pyobj)
}.

(** The monad of the call: state passing, ended by an exception. *)
Definition M (A : Type) : Type := lm_state → result (A * lm_state).

#[global] Instance M_ret : MRet M := λ A a s, Ok (a, s).
#[global] Instance M_bind : MBind M :=
  λ A B f m s, match m s with Ok (a, s') => f a s' | Raise e => Raise e end.

#[global] Instance M_fmap : FMap M :=
  λ A B f m s, match m s with Ok (a, s') => Ok (f a, s') | Raise e => Raise e end.

Definition raise {A} (e : exn) : M A := λ _, Raise e.
Definition lift {A} (r : result A) : M A :=
  λ s, match r with Ok a => Ok (a, s) | Raise e => Raise e end.
Definition get_state : M lm_state := λ s, Ok (s, s).
Definition modify (f : lm_state → lm_state) : M unit := λ s, Ok (tt, f s).

Definition with_store (f : store → store) (s : lm_state) : lm_state :=
  LmState (f (st_store s)) (st_gen s) (cur_feature s) (original_input_list s)
    (input_list s) (attention_mask_list s) (label_list s) (extra_targets s).

(** Reading a dict, a key of it, and a tensor.  A location that holds no
    dict (no tensor) stands for an object of another type, which cannot be
    subscripted (cloned, stacked): a [TypeError]. *)
Definition get_dict (d : loc) : M (gmap string loc) :=
  λ s, match dicts (st_store s) !! d with
       | Some fd => Ok (fd, s)
       | None => Raise TypeError
       end.

Definition dict_getitem (d : loc) (k : string) : M loc :=
  fd ← get_dict d; lift (getitem fd k).

Definition read (l : loc) : M (list Z) :=
  λ s, match tensors (st_store s) !! l with
       | Some t => Ok (t, s)
       | None => Raise TypeError
       end.

(** Writing a tensor in place, allocating a new one, updating a dict. *)
Definition write (l : loc) (t : list Z) : M unit :=
  modify (with_store (λ σ, Store (<[l := t]> (tensors σ)) (dicts σ))).

Definition alloc (t : list Z) : M loc :=
  λ s, Ok (length (tensors (st_store s)),
           with_store (λ σ, Store (tensors σ ++ [t]) (dicts σ)) s).

Definition update_dict (d : loc) (f : gmap string loc → gmap string loc) : M unit :=
  modify (with_store (λ σ, Store (tensors σ) (alter f d (dicts σ)))).

(** [t.clone()] *)
Definition clone (l : loc) : M loc := t ← read l; alloc t.

(** Drawing from the generator of the state. *)
Definition with_gen {A} (f : generator → result (A * generator)) : M A :=
  λ s, match f (st_gen s) with
       | Ok (a, g) =>
           Ok (a, LmState (st_store s) g (cur_feature s) (original_input_list s)
                    (input_list s) (attention_mask_list s) (label_list s)
                    (extra_targets s))
       | Raise e => Raise e
       end.

(** [extra_targets[k].append(v)] on a [defaultdict(list)]. *)
Fixpoint defaultdict_append (k : string) (v : pyobj)
    (d : list (string * list pyobj)) : list (string * list pyobj) :=
  match d with
  | [] => [(k, [v])]
  | (k', vs) :: d' =>
      if String.eqb k k' then (k', vs ++ [v]) :: d'
      else (k', vs) :: defaultdict_append k v d'
  end.

Definition set_cur_feature (d : loc) : M unit :=
  modify (λ s, LmState (st_store s) (st_gen s) (Some d) (original_input_list s)
                 (input_list s) (attention_mask_list s) (label_list s)
                 (extra_targets s)).

Definition append_original (l : loc) : M unit :=
  modify (λ s, LmState (st_store s) (st_gen s) (cur_feature s)
                 (original_input_list s ++ [l])
                 (input_list s) (attention_mask_list s) (label_list s)
                 (extra_targets s)).

Definition append_extra (kvs : list (string * pyobj)) : M unit :=
  modify (λ s, LmState (st_store s) (st_gen s) (cur_feature s)
                 (original_input_list s)
                 (input_list s) (attention_mask_list s) (label_list s)
                 (foldl (λ d kv, defaultdict_append kv.1 kv.2 d)
                    (extra_targets s) kvs)).

Definition append_row (inputs am labels : loc) : M unit :=
  modify (λ s, LmState (st_store s) (st_gen s) (cur_feature s)
                 (original_input_list s)
                 (input_list s ++ [inputs]) (attention_mask_list s ++ [am])
                 (label_list s ++ [labels]) (extra_targets s)).

(** The name [_feature]: [UnboundLocalError] before its first assignment. *)
Definition get_cur_feature : M loc :=
  s ← get_state;
  match cur_feature s with
  | Some d => mret d
  | None => raise UnboundLocalError
  end.

(** The special tokens mask of the masking branch: the one popped from
    the feature if there was one, the tokenizer's otherwise. *)
Definition special_mask (c : DataCollatorForLanguageModeling)
    (popped : option loc) (labels : loc) : M (list bool) :=
  match popped with
  | None =>
      ids ← read labels;
      m ← lift (get_special_tokens_mask (lm_tokenizer c) ids);
      mret (to_bool m)
  | Some l =>
      m ← read l;
      mret (to_bool m)
  end.

(** The branch [if self.mlm:] of the loop body; returns [labels]. *)
Definition lm_mask_tokens (c : DataCollatorForLanguageModeling)
    (_feature inputs : loc) (special_tokens_mask : option loc) : M loc :=
  i ← dict_getitem _feature "input_ids";
  labels ← clone i;
  shape ← length <$> read labels;
  let probability_matrix := replicate shape (mlm_probability c) in
  special_tokens_mask ← special_mask c special_tokens_mask labels;
  probability_matrix ← lift (masked_fill probability_matrix special_tokens_mask 0%Q);
  masked_indices ← with_gen (bernoulli probability_matrix);
  t ← read labels;
  write labels (assign_where (negb <$> masked_indices) (ignore_index c) t);;
  match masked_to_mask c with
  | PyFloat q =>
      if negb (Qeq_bool q 0) then
        r ← with_gen (bernoulli (replicate shape q));
        let indices_replaced := zip_with andb r masked_indices in
        t ← read inputs;
        write inputs
          (assign_where indices_replaced (mask_token_id (lm_tokenizer c)) t);;
        if apply_random_words c then
          r ← with_gen (bernoulli (replicate shape (1 # 2)));
          let indices_random :=
            zip_with andb (zip_with andb r masked_indices)
              (negb <$> indices_replaced) in
          random_words ← with_gen (randint (vocab_size (lm_tokenizer c)) shape);
          t ← read inputs;
          write inputs (assign_from indices_random random_words t)
        else mret tt
      else mret tt
  | NotFloat => mret tt
  end;;
  update_dict _feature (<["labels" := labels]>);;
  mret labels.

(** The branch [else:] of the loop body; returns [labels]. *)
Definition lm_copy_tokens (c : DataCollatorForLanguageModeling)
    (_feature : loc) : M loc :=
  i ← dict_getitem _feature "input_ids";
  labels ← clone i;
  match pad_token_id (lm_tokenizer c) with
  | Some pad =>
      t ← read labels;
      write labels (assign_where ((λ z, z =? pad)%Z <$> t) (-100)%Z t)
  | None => mret tt
  end;;
  update_dict _feature (<["labels" := labels]>);;
  mret labels.

(** The body of the loop [for feature in batch:]. *)
Definition lm_feature (c : DataCollatorForLanguageModeling)
    (x : feature loc) : M unit :=
  (if keep_original_input c then
     _feature ← get_cur_feature;
     i ← dict_getitem _feature "input_ids";
     o ← clone i;
     append_original o
   else mret tt);;
  match x with
  | Paired d t =>
      set_cur_feature d;;
      match t with
      | TgtDict kvs => append_extra kvs
      | TgtObj _ => mret tt
      end
  | Plain d => set_cur_feature d
  end;;
  _feature ← get_cur_feature;
  inputs ← dict_getitem _feature "input_ids";
  fd ← get_dict _feature;
  let special_tokens_mask := fd !! "special_tokens_mask" in
  update_dict _feature (delete "special_tokens_mask");;
  labels ←
    (if mlm c then lm_mask_tokens c _feature inputs special_tokens_mask
     else lm_copy_tokens c _feature);
  am ← dict_getitem _feature "attention_mask";
  append_row inputs am labels.

Fixpoint lm_loop (c : DataCollatorForLanguageModeling)
    (batch : list (feature loc)) : M unit :=
  match batch with
  | [] => mret tt
  | x :: batch' => lm_feature c x;; lm_loop c batch'
  end.

Record lm_batch : Set := LmBatch {
  out_input_ids : list (list Z);
  out_attention_mask : list (list Z);
  out_labels : list (list Z);
  out_unmasked_input_ids : option (list (list Z))
}.

(** What [__call__] returns: the mapping alone, or a pair. *)
Inductive lm_return : Set :=
| LmReturnBatch (output : lm_batch)
| LmReturnPair (output : lm_batch) (extra : list (string * tensor)).

(** [torch.stack] of the tensors at the given locations. *)
Definition stack_locs (ls : list loc) : M (list (list Z)) :=
  rows ← mapM read ls;
  lift (stack_rows rows).

(** The auxiliary targets of a batch, stacked per key. *)
Definition stack_extra (d : list (string * list pyobj))
  : result (list (string * tensor)) :=
  mapM (λ kv : string * list pyobj,
          t ← torch_stack (TgtObj <$> kv.2); Ok (kv.1, t)) d.

(** What follows the loop. *)
Definition lm_finish (c : DataCollatorForLanguageModeling) : M lm_return :=
  s ← get_state;
  input_ids ← stack_locs (input_list s);
  attention_mask ← stack_locs (attention_mask_list s);
  labels ← stack_locs (label_list s);
  unmasked ←
    (if keep_original_input c
     then Some <$> stack_locs (original_input_list s)
     else mret None);
  let output := LmBatch input_ids attention_mask labels unmasked in
  if bool_decide (0 < length (extra_targets s)) then
    extra ← lift (stack_extra (extra_targets s));
    mret (LmReturnPair output extra)
  else mret (LmReturnBatch output).

Definition lm_initial (σ : store) (g : generator) : lm_state :=
  LmState σ g None [] [] [] [] [].

(** [__call__(self, batch)]: the value returned, with the store and the
    generator as the call leaves them. *)
Definition lm_call (c : DataCollatorForLanguageModeling)
    (batch : list (feature loc)) (σ : store) (g : generator)
  : result (lm_return * store * generator) :=
  match (lm_loop c batch;; lm_finish c) (lm_initial σ g) with
  | Ok (r, s) => Ok (r, st_store s, st_gen s)
  | Raise e => Raise e
  end.

(** ** The loop body on values

    What one iteration computes from the input ids of an example and the
    special tokens mask popped from it, as a function of values: the input
    ids the iteration leaves in the tensor, the labels, and the generator
    after its draws.  [lm_feature_eq] relates the loop body to it. *)

Definition special_flags (c : DataCollatorForLanguageModeling)
    (popped : option (list Z)) (ids : list Z) : result (list bool) :=
  match popped with
  | None => to_bool <$> get_special_tokens_mask (lm_tokenizer c) ids
  | Some m => Ok (to_bool m)
  end.

(** The branch [if self.mlm:]. *)
Definition mask_values (c : DataCollatorForLanguageModeling)
    (popped : option (list Z)) (ids : list Z) (g : generator)
  : result (list Z * list Z * generator) :=
  let n := length ids in
  special ← special_flags c popped ids;
  probs ← masked_fill (replicate n (mlm_probability c)) special 0%Q;
  m ← bernoulli probs g;
  let masked := m.1 in
  let labels := assign_where (negb <$> masked) (ignore_index c) ids in
  match masked_to_mask c with
  | PyFloat q =>
      if negb (Qeq_bool q 0) then
        r ← bernoulli (replicate n q) m.2;
        let replaced := zip_with andb r.1 masked in
        let ids1 := assign_where replaced (mask_token_id (lm_tokenizer c)) ids in
        if apply_random_words c then
          r' ← bernoulli (replicate n (1 # 2)) r.2;
          let random :=
            zip_with andb (zip_with andb r'.1 masked) (negb <$> replaced) in
          w ← randint (vocab_size (lm_tokenizer c)) n r'.2;
          Ok (assign_from random w.1 ids1, labels, w.2)
        else Ok (ids1, labels, r.2)
      else Ok (ids, labels, m.2)
  | NotFloat => Ok (ids, labels, m.2)
  end.

(** The labels of the branch [else:]. *)
Definition copy_labels (c : DataCollatorForLanguageModeling) (ids : list Z)
  : list Z :=
  match pad_token_id (lm_tokenizer c) with
  | Some pad => assign_where ((λ z, z =? pad)%Z <$> ids) (-100)%Z ids
  | None => ids
  end.

Definition lm_example (c : DataCollatorForLanguageModeling)
    (popped : option (list Z)) (ids : list Z) (g : generator)
  : result (list Z * list Z * generator) :=
  if mlm c then mask_values c popped ids g
  else Ok (ids, copy_labels c ids, g).

(** The auxiliary targets after a feature. *)
Definition extra_after (x : feature loc) (d : list (string * list pyobj))
  : list (string * list pyobj) :=
  match target_of x with
  | Some (TgtDict kvs) => foldl (λ d kv, defaultdict_append kv.1 kv.2 d) d kvs
  | _ => d
  end.

(** The auxiliary targets after the features of a batch. *)
Definition extras_of (batch : list (feature loc))
    (et : list (string * list pyobj)) : list (string * list pyobj) :=
  foldl (λ d x, extra_after x d) et batch.

(** The special tokens mask a dict holds, as a value: [Some None] when the
    key is absent, [None] when the key refers to no tensor. *)
Definition special_content (ts : list (list Z)) (fd : gmap string loc)
  : option (option (list Z)) :=
  match fd !! "special_tokens_mask" with
  | None => Some None
  | Some l => Some <$> ts !! l
  end.

(** ** Examples as the store holds them

    The view of a feature in a store: its dict, where its input ids, its
    attention mask and its special tokens mask (if any) live, and what
    they hold. *)

Record view : Type := View {
  v_dict : loc;
  v_fields : gmap string loc;
  v_input : loc;
  v_ids : list Z;
  v_mask : loc;
  v_am : list Z;
  v_special : option (list Z)
}.

Definition view_of (σ : store) (x : feature loc) : option view :=
  fd ← dicts σ !! fields_of x;
  i ← fd !! "input_ids";
  ids ← tensors σ !! i;
  a ← fd !! "attention_mask";
  am ← tensors σ !! a;
  sp ← special_content (tensors σ) fd;
  Some (View (fields_of x) fd i ids a am sp).

(** No tensor that the loop writes (the input ids of an example) is the
    input ids, the attention mask or the special tokens mask of another
    example, nor the attention mask or special tokens mask of its own. *)
Definition separated (vs : list view) : Prop :=
  NoDup (v_input <$> vs)
  ∧ Forall (λ v, (v_mask v ∉ (v_input <$> vs))
                 ∧ ∀ l, v_fields v !! "special_tokens_mask" = Some l →
                        l ∉ (v_input <$> vs)) vs.

(** The loop on values: input ids and labels of every example, and the
    generator after the last. *)
Fixpoint lm_examples (c : DataCollatorForLanguageModeling) (vs : list view)
    (g : generator) : result (list (list Z * list Z) * generator) :=
  match vs with
  | [] => Ok ([], g)
  | v :: vs' =>
      r ← lm_example c (v_special v) (v_ids v) g;
      rs ← lm_examples c vs' r.2;
      Ok ((r.1.1, r.1.2) :: rs.1, rs.2)
  end.

Definition lm_result (output : lm_batch) (extra : list (string * tensor))
  : lm_return :=
  match extra with
  | [] => LmReturnBatch output
  | _ => LmReturnPair output extra
  end.

(** The raw draw at offset [i] from the position of the generator. *)
Definition draw_at (g : generator) (i : nat) : N := gen_seed g (gen_pos g + i).

(** The vocabulary id that [torch.randint] makes of a raw draw. *)
Definition vocab_sample (c : DataCollatorForLanguageModeling) (k : N) : Z :=
  (Z.of_N k mod vocab_size (lm_tokenizer c))%Z.

(** How many raw draws one example of [n] tokens takes in the masking
    branch. *)
Definition draws_used (c : DataCollatorForLanguageModeling) (n : nat) : nat :=
  match masked_to_mask c with
  | PyFloat q =>
      if negb (Qeq_bool q 0)
      then if apply_random_words c then 4 * n else 2 * n
      else n
  | NotFloat => n
  end.

(** What the masking branch leaves at each position of an example when
    the replacement fraction is the non-zero float [q]: [g] is the
    generator before the example, [sp] its special tokens flags, [ids'] the
    input ids and [labels] the labels after it.  The first [n] draws decide
    the masked positions, the next [n] the positions replaced by the mask
    token, the next [n] the positions given a random word and the last [n]
    are the random words. *)
Definition masked_row (c : DataCollatorForLanguageModeling) (q : Q)
    (g : generator) (ids : list Z) (sp : list bool) (ids' labels : list Z) : Prop :=
  let n := length ids in
  ∀ (j : nat) (tok : Z) (b : bool), ids !! j = Some tok → sp !! j = Some b →
    let masked := negb b && trial (mlm_probability c) (draw_at g j) in
    let replaced := trial q (draw_at g (n + j)) && masked in
    let random :=
      apply_random_words c
      && (trial (1 # 2) (draw_at g (2 * n + j)) && masked && negb replaced) in
    labels !! j = Some (if masked then tok else ignore_index c)
    ∧ ids' !! j
      = Some (if random then vocab_sample c (draw_at g (3 * n + j))
              else if replaced then mask_token_id (lm_tokenizer c)
              else tok).

(** The mapping of what a call returned. *)
Definition returned_batch (r : lm_return) : lm_batch :=
  match r with LmReturnBatch output | LmReturnPair output _ => output end.

(** The batch is laid out in the store as the views [vs], nothing the
    loop writes is shared, and the tensors stack: all input ids have
    length [n] and all attention masks length [m]. *)
Definition placed (σ : store) (batch : list (feature loc)) (vs : list view)
    (n m : nat) : Prop :=
  mapM (view_of σ) batch = Some vs
  ∧ separated vs
  ∧ Forall (λ v, length (v_ids v) = n ∧ length (v_am v) = m) vs.

(** The special tokens flags of every example are available and of the
    length of its input ids. *)
Definition flagged (c : DataCollatorForLanguageModeling) (vs : list view) : Prop :=
  Forall (λ v, ∃ sp, special_flags c (v_special v) (v_ids v) = Ok sp
                     ∧ length sp = length (v_ids v)) vs.

(** ** The sets of the masking branch

    Whether position [j] of an example is in the masked set, and in the
    set replaced by the mask token, for the generator [g] before the
    example and the special tokens flags [sp]. *)








(** ** A small scenario

    The tokenizer of the padding scenario; a store with one example of
    input ids [101, 5, 0]; and a generator whose raw draws are all 0. *)

Definition bert_like : tokenizer := scenario_tokenizer "right".

Definition one_example : store :=
  Store [[101; 5; 0]%Z; [1; 1; 0]%Z]
        [ <["input_ids" := 0]> (<["attention_mask" := 1]> ∅) ].

Definition zero_draws : generator := Generator (λ _, 0%N) 0.


Definition with_special_mask : store :=
  Store [[101; 5; 0]%Z; [1; 1; 0]%Z; [1; 0; 0]%Z]
        [ <["input_ids" := 0]>
            (<["attention_mask" := 1]> (<["special_tokens_mask" := 2]> ∅)) ].

(** A generator whose first six uniform samples are 1/2 and whose later
    raw draws are 7. *)
Definition half_then_seven : generator :=
  Generator (λ i : nat, if (i <? 6)%nat then (2 ^ 52)%N else 7%N) 0.

(** The store after the call with full masking on [with_special_mask]. *)
Definition fully_masked_store : store :=
  Store [[101; 103; 103]%Z; [1; 1; 0]%Z; [1; 0; 0]%Z; [-100; 5; 0]%Z]
        [ <["labels" := 3]>
            (delete "special_tokens_mask"
               (<["input_ids" := 0]>
                  (<["attention_mask" := 1]> (<["special_tokens_mask" := 2]> ∅)))) ].

(** ** Vocabulary of the further properties *)

(** The mapping of what [DataCollatorForLongestSequence] returned. *)
Definition longest_output (r : longest_return) : longest_batch :=
  match r with ReturnBatch output | ReturnPair output _ => output end.

(** A target that [torch.stack] accepts: a tensor. *)
Definition is_tensor (t : target) : bool :=
  match t with TgtObj (ObjTensor _) => true | _ => false end.


(** What the masking branch leaves at each position of an example under
    any configuration: [g] is the generator before the example, [sp] its
    special tokens flags, [ids'] the input ids and [labels] the labels
    after it.  A position is masked when it is not special and its trial
    at the masking probability succeeds; its label is then the original
    token, and the ignore index otherwise; the id left at the position is
    the original token, or, at a masked position only, the mask token or
    an id sampled from the vocabulary. *)
Definition masking_row (c : DataCollatorForLanguageModeling)
    (g : generator) (ids : list Z) (sp : list bool) (ids' labels : list Z) : Prop :=
  ∀ (j : nat) (tok : Z) (b : bool), ids !! j = Some tok → sp !! j = Some b →
    let masked := negb b && trial (mlm_probability c) (draw_at g j) in
    labels !! j = Some (if masked then tok else ignore_index c)
    ∧ ∃ y, ids' !! j = Some y
        ∧ (y = tok
           ∨ (masked = true
              ∧ (y = mask_token_id (lm_tokenizer c)
                 ∨ ((0 < vocab_size (lm_tokenizer c))%Z
                    ∧ ∃ k, y = vocab_sample c k)))).

(** ** A scenario of full masking

    The collator that masks every ordinary token, the view of the example
    of [with_special_mask], and what the call on it returns. *)
Definition full_masking : DataCollatorForLanguageModeling :=
  LanguageModeling bert_like true 1 (-100) (PyFloat 1) false false.

Definition special_mask_view : view :=
  View 0 (<["input_ids" := 0]>
            (<["attention_mask" := 1]> (<["special_tokens_mask" := 2]> ∅)))
    0 [101; 5; 0]%Z 1 [1; 1; 0]%Z (Some [1; 0; 0]%Z).

Definition fully_masked_return : lm_return :=
  LmReturnBatch (LmBatch [[101; 103; 103]%Z] [[1; 1; 0]%Z] [[-100; 5; 0]%Z] None).

(** A computation that leaves the state as it found it. *)
Definition state_preserving {A} (m : M A) : Prop :=
  ∀ s a s', m s = Ok (a, s') → s' = s.

(** A feature without the target the language modelling collator has no
    use for: an object that is not a mapping, or an empty mapping. *)
Definition strip_target (x : feature loc) : feature loc :=
  match x with
  | Paired d (TgtObj _) | Paired d (TgtDict []) => Plain d
  | _ => x
  end.

(** ** Auxiliary targets

    The entries of the mapping a feature is paired with (none when it is
    paired with something else, or with nothing), the entries of a batch
    in the order of the loop, and the values given for a key. *)
Definition target_items (x : feature loc) : list (string * pyobj) :=
  match target_of x with
  | Some (TgtDict kvs) => kvs
  | _ => []
  end.

Definition batch_items (batch : list (feature loc)) : list (string * pyobj) :=
  concat (target_items <$> batch).

Definition values_for (key : string) (items : list (string * pyobj)) : list pyobj :=
  snd <$> filter (λ kv, kv.1 = key) items.

(** The values a [defaultdict(list)] holds for a key. *)
Definition values_in (key : string) (d : list (string * list pyobj)) : list pyobj :=
  concat (snd <$> filter (λ kv, kv.1 = key) d).

(** * Lemmas: the padding collators *)

(** ** The primitives *)

Section result_lemmas.
Context {A B : Type}.
Implicit Types (f : A → result B) (l : list A) (k : list B).

Lemma mapM_result_Ok f l k :
  mapM f l = Ok k ↔ Forall2 (λ x y, f x = Ok y) l k.
Proof.
  revert k. induction l as [|x l IH]; intros k; simpl.
  - split; [intros [= <-]; constructor | by inversion 1].
  - split.
    + destruct (f x) as [y|] eqn:Hy; simpl; [|done].
      destruct (mapM f l) as [k'|] eqn:Hk; simpl; [|done].
      intros [= <-]. constructor; [done|]. by apply IH.
    + inversion 1 as [|? y ? k' Hy Hk]; subst.
      rewrite Hy; simpl. apply IH in Hk. rewrite Hk. done.
Qed.

Lemma mapM_result_fmap f (g : A → B) l :
  (∀ x, x ∈ l → f x = Ok (g x)) → mapM f l = Ok (g <$> l).
Proof.
  intros H. apply mapM_result_Ok. apply Forall2_fmap_r, Forall_Forall2_diag.
  apply Forall_forall. done.
Qed.
End result_lemmas.

Lemma mapM_result_cons {A B} (f : A → result B) x l :
  mapM f (x :: l) = y ← f x; k ← mapM f l; Ok (y :: k).
Proof. reflexivity. Qed.

Lemma getitem_Some {V} (d : gmap string V) k v : d !! k = Some v → getitem d k = Ok v.
Proof. unfold getitem. by intros ->. Qed.

Lemma py_max_cons n ns : py_max (n :: ns) = Ok (max_list (n :: ns)).
Proof.
  simpl. f_equal. revert n. induction ns as [|m ns IH]; intros n; simpl; [lia|].
  rewrite IH. simpl. lia.
Qed.

Lemma py_max_nonempty ns : ns ≠ [] → py_max ns = Ok (max_list ns).
Proof. destruct ns; [done|]. intros _. apply py_max_cons. Qed.

Lemma max_list_ge (ns : list nat) n : n ∈ ns → n ≤ max_list ns.
Proof.
  induction 1 as [n ns|n m ns _ IH]; simpl; lia.
Qed.

Lemma has_none_Some (zs : list Z) : has_none (Some <$> zs) = false.
Proof. induction zs; simpl; auto. Qed.

Lemma astype_int64_Some (zs : list Z) : astype_int64 (Some <$> zs) = Ok zs.
Proof.
  unfold astype_int64. apply mapM_result_Ok.
  apply Forall2_fmap_l, Forall_Forall2_diag, Forall_forall. done.
Qed.

Lemma replicate_Some {A} n (x : A) : replicate n (Some x) = Some <$> replicate n x.
Proof. by rewrite fmap_replicate. Qed.

Lemma row_ints_Some (zs : list Z) b : row_ints (Row (Some <$> zs) b) = zs.
Proof.
  unfold row_ints; simpl. induction zs as [|z zs IH]; simpl; [done|].
  f_equal. exact IH.
Qed.

Lemma int_row_ints n r : int_row n r → cells r = Some <$> row_ints r ∧ length (row_ints r) = n.
Proof.
  intros [_ (zs & Hc & Hl)]. destruct r as [cs b]; simpl in *; subst cs.
  by rewrite row_ints_Some.
Qed.

(** Concatenation of a field with a fill of integers, cast to [int64]. *)
Lemma operand_cells_of (x : pyseq) : operand_cells (operand_of x) = Some <$> seq_items x.
Proof. by destruct x. Qed.

Lemma promote_comm d1 d2 : promote d1 d2 = promote d2 d1.
Proof. by destruct d1, d2. Qed.

Lemma np_concatenate_int64_right (x : pyseq) (r : nat) (fill : Z) :
  np_concatenate_int64 (operand_of x) (Lst (replicate r (Some fill)))
  = Ok (Row (Some <$> (np_stored x r fill <$> (seq_items x ++ replicate r fill))) false).
Proof.
  unfold np_concatenate_int64, np_stored.
  rewrite operand_cells_of, replicate_Some. cbn [operand_cells].
  by rewrite <-fmap_app, astype_int64_Some.
Qed.

Lemma np_concatenate_int64_left (x : pyseq) (r : nat) (fill : Z) :
  np_concatenate_int64 (Lst (replicate r (Some fill))) (operand_of x)
  = Ok (Row (Some <$> (np_stored x r fill <$> (replicate r fill ++ seq_items x))) false).
Proof.
  unfold np_concatenate_int64, np_stored.
  rewrite operand_cells_of, replicate_Some, promote_comm. cbn [operand_cells].
  by rewrite <-fmap_app, astype_int64_Some.
Qed.

(** Integers of magnitude at most [2^53] come back as they are. *)
Lemma float64_of_int_exact z : exact_int z = true → float64_of_int z = z.
Proof.
  unfold exact_int, float64_of_int. intros Hz%Z.leb_le.
  destruct (Z.ltb_spec (Z.abs z) (2 ^ 53)) as [Hlt|Hge]; [done|].
  assert (Ha : z = (2 ^ 53)%Z ∨ z = (- 2 ^ 53)%Z) by lia.
  destruct Ha as [->| ->]; vm_compute; reflexivity.
Qed.

Lemma stored_exact d z : exact_int z = true → stored d z = z.
Proof.
  intros Hz. destruct d; [done| |done]. cbn [stored].
  rewrite (float64_of_int_exact z Hz). unfold int64_of_float64, is_int64.
  unfold exact_int in Hz. apply Z.leb_le in Hz.
  assert (H : ((- 2 ^ 63 <=? z) && (z <? 2 ^ 63))%Z = true); [|by rewrite H].
  apply andb_true_intro. split; [apply Z.leb_le|apply Z.ltb_lt];
    (assert (2 ^ 53 < 2 ^ 63)%Z by (by apply Z.pow_lt_mono_r)); lia.
Qed.

Lemma stored_exact_list d (zs : list Z) :
  forallb exact_int zs = true → stored d <$> zs = zs.
Proof.
  intros Hall. rewrite forallb_forall in Hall.
  induction zs as [|z zs IH]; [done|]. rewrite fmap_cons, IH.
  - rewrite stored_exact; [done|]. apply Hall. by left.
  - intros x Hx. apply Hall. by right.
Qed.

Lemma exact_replicate k fill :
  exact_int fill = true → forallb exact_int (replicate k fill) = true.
Proof. intros Hf. induction k; simpl; [done|]. by rewrite Hf. Qed.

Lemma exact_pad_to right n fill xs :
  exact_int fill = true → forallb exact_int xs = true →
  forallb exact_int (pad_to right n fill xs) = true.
Proof.
  intros Hf Hxs. unfold pad_to.
  destruct right; rewrite forallb_app, Hxs, exact_replicate; done.
Qed.

(** Stacking rows of one width and converting them to a tensor gives the
    integers of each row. *)
Lemma stack_int_rows n (rows : list row) :
  rows ≠ [] → Forall (int_row n) rows →
  np_stack rows ≫= from_numpy = Ok (row_ints <$> rows).
Proof.
  intros Hne Hrows. unfold np_stack.
  destruct rows as [|r rows']; [done|].
  assert (Hlen : same_length (length (cells r)) (cells <$> r :: rows') = true).
  { unfold same_length. apply forallb_forall. intros cs Hin.
    apply list_elem_of_In, list_elem_of_fmap in Hin as (r' & -> & Hin).
    apply bool_decide_eq_true.
    rewrite Forall_forall in Hrows.
    destruct (int_row_ints n r' (Hrows _ Hin)) as [-> Hl1].
    destruct (int_row_ints n r (Hrows _ ltac:(left))) as [-> Hl2].
    rewrite !length_fmap. congruence. }
  rewrite Hlen. simpl. unfold from_numpy.
  assert (Hobj : existsb dtype_object (r :: rows') = false).
  { apply not_true_is_false. intros Hex.
    apply existsb_exists in Hex as (r' & Hin & Hobj).
    apply list_elem_of_In in Hin. rewrite Forall_forall in Hrows.
    destruct (Hrows _ Hin) as [Hf _]. congruence. }
  rewrite Hobj. apply (mapM_result_fmap _ row_ints (r :: rows')).
  intros r' Hin. rewrite Forall_forall in Hrows.
  destruct (int_row_ints n r' (Hrows _ Hin)) as [-> _].
  apply astype_int64_Some.
Qed.

(** Stacking the rows [g f] of a batch, all of width [n]. *)
Lemma stack_padded {F} n (g : F → list Z) (batch : list F) :
  batch ≠ [] → (∀ f, f ∈ batch → length (g f) = n) →
  np_stack ((λ f, Row (Some <$> g f) false) <$> batch) ≫= from_numpy
  = Ok (g <$> batch).
Proof.
  intros Hne Hlen. rewrite (stack_int_rows n).
  - rewrite <-list_fmap_compose. f_equal. apply list_fmap_ext.
    intros i f _. apply row_ints_Some.
  - by destruct batch.
  - apply Forall_fmap, Forall_forall. intros f Hf. split; [done|].
    eexists; split; [done|]. by apply Hlen.
Qed.

(** ** What the padding collators compute on well-formed examples *)

Example longest_right :
  longest_call (longest_init (scenario_tokenizer "right"))
    [Plain (mk_example NdArray [5;6;7]%Z [1;1;1]%Z []);
     Paired (mk_example PyList [5;6]%Z [1;1]%Z []) (TgtObj (ObjTensor (Tensor [] [1%Z])))]
  = Ok (ReturnPair (LongestBatch [[5;6;7];[5;6;0]]%Z [[1;1;1];[1;1;0]]%Z)
          (Tensor [1] [1%Z])).
Proof. vm_compute. reflexivity. Qed.

Example longest_left :
  longest_call (longest_init (scenario_tokenizer "left"))
    [Plain (mk_example NdArray [5;6;7]%Z [1;1;1]%Z []);
     Plain (mk_example PyList [5;6]%Z [1;1]%Z [])]
  = Ok (ReturnBatch (LongestBatch [[5;6;7];[0;5;6]]%Z [[1;1;1];[0;1;1]]%Z)).
Proof. vm_compute. reflexivity. Qed.

Lemma length_pad_to right n fill xs :
  length xs ≤ n → length (pad_to right n fill xs) = n.
Proof.
  intros H. unfold pad_to. destruct right;
    rewrite length_app, length_replicate; lia.
Qed.

Lemma raw_length_field k f : raw_length k f = length (field k f).
Proof. unfold raw_length, field. by destruct (f !! k). Qed.

Lemma seq2seq_pad_wf c p mi ml f :
  s2s_pad_token_id c = Some p →
  wf_example f = true →
  seq2seq_pad c mi ml f =
    Ok (Row (Some <$> seq2seq_row c f "input_ids" "input_ids" mi p) false,
        Row (Some <$> seq2seq_row c f "attention_mask" "input_ids" mi 0) false,
        Row (Some <$> seq2seq_row c f "labels" "labels" ml (s2s_label_pad_token_id c))
          false).
Proof.
  intros Hp Hwf. unfold wf_example in Hwf.
  unfold seq2seq_pad, seq2seq_row, seq2seq_stored, seq2seq_side, field, field_seq,
    raw_length, getitem.
  destruct (f !! "input_ids") as [ids|]; [|done].
  destruct (f !! "attention_mask") as [am|]; [|done].
  destruct (f !! "labels") as [labs|]; [|done].
  apply andb_prop in Hwf as [Hlen Himp]. apply bool_decide_eq_true in Hlen.
  rewrite Hp. cbn [mbind result_bind from_option default].
  destruct labs as [labs|labs]; cbn [isinstance_list orb] in *.
  - apply andb_prop in Himp as [Hi Ha].
    destruct ids as [ids|ids]; [|done]. destruct am as [am|am]; [|done].
    cbn [py_add mbind result_bind seq_items]. unfold asarray, pad_to, py_len in *.
    cbn [seq_items] in *. rewrite Hlen, !list_fmap_id.
    rewrite !replicate_Some, <-!fmap_app, !has_none_Some. done.
  - unfold pad_to. rewrite <-Hlen.
    destruct (String.eqb (s2s_padding_side c) "right").
    + rewrite !np_concatenate_int64_right. cbn [mbind result_bind].
      unfold py_len, id in *. by rewrite Hlen.
    + rewrite !np_concatenate_int64_left. cbn [mbind result_bind].
      unfold py_len, id in *. by rewrite Hlen.
Qed.

Lemma length_seq2seq_row c f k plan n fill :
  length (field k f) ≤ n → length (seq2seq_row c f k plan n fill) = n.
Proof. intros H. unfold seq2seq_row. rewrite length_fmap. by apply length_pad_to. Qed.

Lemma length_longest_row c f k n fill :
  length (field k f) ≤ n → length (longest_row c f k n fill) = n.
Proof. intros H. unfold longest_row. rewrite length_fmap. by apply length_pad_to. Qed.

(** On items and a fill that doubles hold exactly, the rows are those of
    the padder of the specification. *)
Lemma seq2seq_row_exact c f k plan n fill :
  exact_int fill = true → exact_field k f = true →
  seq2seq_row c f k plan n fill = pad_to (seq2seq_side c f) n fill (field k f).
Proof.
  intros Hf Hk. unfold seq2seq_row, seq2seq_stored.
  destruct (from_option isinstance_list false (f !! "labels")); [apply list_fmap_id|].
  apply stored_exact_list. by apply exact_pad_to.
Qed.

Lemma longest_row_exact c f k n fill :
  exact_int fill = true → exact_field k f = true →
  longest_row c f k n fill
  = pad_to (String.eqb (ls_padding_side c) "right") n fill (field k f).
Proof.
  intros Hf Hk. unfold longest_row. apply stored_exact_list. by apply exact_pad_to.
Qed.


Lemma seq2seq_collect_wf batch :
  Forall (λ f, wf_example f = true) batch →
  ∃ collected, seq2seq_collect batch = Ok collected
    ∧ py_len <$> collected.*1 = raw_length "input_ids" <$> batch
    ∧ py_len <$> collected.*2 = raw_length "labels" <$> batch.
Proof.
  induction 1 as [|f batch Hwf _ (collected & Hc & H1 & H2)].
  - by exists [].
  - unfold wf_example in Hwf. unfold seq2seq_collect in *.
    destruct (f !! "input_ids") as [ids|] eqn:Hi; [|done].
    destruct (f !! "attention_mask") as [am|]; [|done].
    destruct (f !! "labels") as [labs|] eqn:Hl; [|done].
    exists ((ids, labs) :: collected). split; [|split].
    + rewrite mapM_result_cons, (getitem_Some _ _ _ Hi), (getitem_Some _ _ _ Hl).
      cbn [mbind result_bind]. rewrite Hc. done.
    + rewrite !fmap_cons, <-H1. unfold raw_length. by rewrite Hi.
    + rewrite !fmap_cons, <-H2. unfold raw_length. by rewrite Hl.
Qed.

(** On a non-empty batch of well-formed examples the collator returns
    each field padded to the maximum raw length of its planning group. *)
Lemma seq2seq_call_wf c p batch :
  batch ≠ [] →
  s2s_pad_token_id c = Some p →
  Forall (λ f, wf_example f = true) batch →
  seq2seq_call c batch =
    Ok (Seq2SeqBatch
          ((λ f, seq2seq_row c f "input_ids" "input_ids"
                   (max_raw_length "input_ids" batch) p) <$> batch)
          ((λ f, seq2seq_row c f "attention_mask" "input_ids"
                   (max_raw_length "input_ids" batch) 0) <$> batch)
          ((λ f, seq2seq_row c f "labels" "labels"
                   (max_raw_length "labels" batch) (s2s_label_pad_token_id c)) <$> batch)).
Proof.
  intros Hne Hp Hwf. unfold seq2seq_call.
  destruct (seq2seq_collect_wf batch Hwf) as (collected & -> & H1 & H2).
  cbn [mbind result_bind]. rewrite H1, H2.
  rewrite !py_max_nonempty by (by destruct batch).
  cbn [mbind result_bind]. fold (max_raw_length "labels" batch).
  fold (max_raw_length "input_ids" batch).
  set (mi := max_raw_length "input_ids" batch).
  set (ml := max_raw_length "labels" batch).
  erewrite mapM_result_fmap; last first.
  { intros f Hf. rewrite Forall_forall in Hwf.
    apply (seq2seq_pad_wf c p mi ml f Hp (Hwf f Hf)). }
  cbn [mbind result_bind]. rewrite <-!list_fmap_compose.
  assert (Hmi : ∀ f, f ∈ batch → length (field "input_ids" f) ≤ mi).
  { intros f Hf. rewrite <-raw_length_field. apply max_list_ge.
    apply list_elem_of_fmap. eauto. }
  assert (Hma : ∀ f, f ∈ batch → length (field "attention_mask" f) ≤ mi).
  { intros f Hf. specialize (Hmi f Hf). rewrite Forall_forall in Hwf.
    specialize (Hwf f Hf). unfold wf_example in Hwf. unfold field in *.
    destruct (f !! "input_ids") as [ids|]; [|done].
    destruct (f !! "attention_mask") as [am|]; [|done].
    destruct (f !! "labels") as [labs|]; [|done].
    apply andb_prop in Hwf as [Hlen _]. apply bool_decide_eq_true in Hlen.
    unfold py_len in Hlen. simpl in *. lia. }
  assert (Hml : ∀ f, f ∈ batch → length (field "labels" f) ≤ ml).
  { intros f Hf. rewrite <-raw_length_field. apply max_list_ge.
    apply list_elem_of_fmap. eauto. }
  rewrite (stack_padded mi (λ f, seq2seq_row c f "input_ids" "input_ids" mi p))
    by (try done; intros; apply length_seq2seq_row; auto).
  cbn [mbind result_bind].
  rewrite (stack_padded mi (λ f, seq2seq_row c f "attention_mask" "input_ids" mi 0))
    by (try done; intros; apply length_seq2seq_row; auto).
  cbn [mbind result_bind].
  rewrite (stack_padded ml (λ f, seq2seq_row c f "labels" "labels" ml
                                   (s2s_label_pad_token_id c)))
    by (try done; intros; apply length_seq2seq_row; auto).
  done.
Qed.

Lemma wf_fields_lookup f :
  wf_fields f = true →
  ∃ ids am, f !! "input_ids" = Some ids ∧ f !! "attention_mask" = Some am
            ∧ py_len am = py_len ids.
Proof.
  unfold wf_fields. destruct (f !! "input_ids") as [ids|]; [|done].
  destruct (f !! "attention_mask") as [am|]; [|done].
  intros H%bool_decide_eq_true. eauto.
Qed.

Lemma longest_pad_wf c p mi f :
  ls_pad_token_id c = Some p →
  wf_fields f = true →
  longest_pad c mi f =
    Ok (Row (Some <$> longest_row c f "input_ids" mi p) false,
        Row (Some <$> longest_row c f "attention_mask" mi 0) false).
Proof.
  intros Hp (ids & am & Hi & Ha & Hlen)%wf_fields_lookup.
  unfold longest_pad, longest_row, field, field_seq, raw_length.
  rewrite (getitem_Some _ _ _ Hi), (getitem_Some _ _ _ Ha).
  rewrite Hi, Ha, Hp. cbn [mbind result_bind from_option default].
  unfold pad_to. rewrite <-Hlen.
  destruct (String.eqb (ls_padding_side c) "right").
  - rewrite !np_concatenate_int64_right. cbn [mbind result_bind].
    unfold py_len, id in *. by rewrite Hlen.
  - rewrite !np_concatenate_int64_left. cbn [mbind result_bind].
    unfold py_len, id in *. by rewrite Hlen.
Qed.

(** Stacking targets that are tensors of one shape. *)
Lemma torch_stack_tensors sh ts :
  ts ≠ [] → Forall (tensor_of_shape sh) ts →
  torch_stack ts = Ok (Tensor (length ts :: sh) (concat (target_data <$> ts))).
Proof.
  intros Hne Hts. unfold torch_stack.
  assert (Hm : mapM as_tensor ts = Ok ((λ t, Tensor sh (target_data t)) <$> ts)).
  { apply mapM_result_fmap. intros t Ht. rewrite Forall_forall in Hts.
    destruct (Hts t Ht) as [data ->]. done. }
  rewrite Hm. cbn [mbind result_bind].
  destruct ts as [|t ts]; [done|]. rewrite fmap_cons.
  assert (Hall : forallb (λ y, bool_decide (t_shape y = sh))
            ((λ t, Tensor sh (target_data t)) <$> t :: ts) = true).
  { apply forallb_forall. intros y Hy.
    apply list_elem_of_In, list_elem_of_fmap in Hy as (t' & -> & _).
    by apply bool_decide_eq_true. }
  rewrite fmap_cons in Hall. cbn [t_shape]. rewrite Hall.
  simpl. rewrite length_fmap, <-list_fmap_compose. done.
Qed.

(** On a non-empty batch of well-formed examples the collator pads both
    fields to the maximum raw length of [input_ids], on the configured
    side, and returns a pair exactly when some target was supplied. *)
Lemma longest_call_wf c p batch :
  batch ≠ [] →
  ls_pad_token_id c = Some p →
  Forall (λ x, wf_fields (fields_of x) = true) batch →
  let n := max_raw_length "input_ids" (fields_of <$> batch) in
  let output :=
    LongestBatch
      ((λ x, longest_row c (fields_of x) "input_ids" n p) <$> batch)
      ((λ x, longest_row c (fields_of x) "attention_mask" n 0) <$> batch) in
  longest_call c batch =
    if bool_decide (0 < length (omap target_of batch))
    then stacked ← torch_stack (omap target_of batch); Ok (ReturnPair output stacked)
    else Ok (ReturnBatch output).
Proof.
  intros Hne Hp Hwf n output. unfold longest_call.
  assert (Hin : mapM (λ x, getitem (fields_of x) "input_ids") batch
                = Ok ((λ x, default (PyList []) (fields_of x !! "input_ids")) <$> batch)).
  { apply mapM_result_fmap. intros x Hx. rewrite Forall_forall in Hwf.
    destruct (wf_fields_lookup _ (Hwf x Hx)) as (ids & am & Hi & _).
    rewrite (getitem_Some _ _ _ Hi), Hi. done. }
  rewrite Hin. cbn [mbind result_bind].
  rewrite py_max_nonempty by (by destruct batch).
  cbn [mbind result_bind].
  assert (Hn : max_list (py_len <$> ((λ x, default (PyList []) (fields_of x !! "input_ids")) <$> batch)) = n).
  { unfold n, max_raw_length. f_equal. rewrite <-!list_fmap_compose.
    apply list_fmap_ext. intros i x Hx. simpl. unfold raw_length.
    rewrite Forall_forall in Hwf.
    destruct (wf_fields_lookup _ (Hwf x ltac:(by eapply list_elem_of_lookup_2)))
      as (ids & am & -> & _). done. }
  rewrite Hn.
  erewrite mapM_result_fmap; last first.
  { intros x Hx. rewrite Forall_forall in Hwf.
    apply (longest_pad_wf c p n _ Hp (Hwf x Hx)). }
  cbn [mbind result_bind]. rewrite <-!list_fmap_compose.
  assert (Hmi : ∀ x, x ∈ batch → length (field "input_ids" (fields_of x)) ≤ n).
  { intros x Hx. rewrite <-raw_length_field. apply max_list_ge.
    apply list_elem_of_fmap. exists (fields_of x). split; [done|].
    apply list_elem_of_fmap. eauto. }
  assert (Hma : ∀ x, x ∈ batch → length (field "attention_mask" (fields_of x)) ≤ n).
  { intros x Hx. specialize (Hmi x Hx). rewrite Forall_forall in Hwf.
    destruct (wf_fields_lookup _ (Hwf x Hx)) as (ids & am & Hi & Ha & Hlen).
    unfold field in *. rewrite Hi in Hmi. rewrite Ha. unfold py_len in Hlen.
    simpl in *. lia. }
  rewrite (stack_padded n (λ x, longest_row c (fields_of x) "input_ids" n p))
    by (try done; intros; apply length_longest_row; auto).
  cbn [mbind result_bind].
  rewrite (stack_padded n (λ x, longest_row c (fields_of x) "attention_mask" n 0))
    by (try done; intros; apply length_longest_row; auto).
  done.
Qed.

(** ** On integers that doubles hold exactly

    When the pad token and every item are of magnitude at most [2^53],
    the rows are those of the padder of the specification. *)

Lemma exact_example_fields f :
  exact_example f = true →
  exact_field "input_ids" f = true ∧ exact_field "attention_mask" f = true
  ∧ exact_field "labels" f = true.
Proof.
  unfold exact_example, exact_fields. by intros [[??]%andb_prop ?]%andb_prop.
Qed.

Lemma seq2seq_call_exact c p batch :
  batch ≠ [] →
  s2s_pad_token_id c = Some p →
  Forall (λ f, wf_example f = true) batch →
  exact_int p = true → exact_int (s2s_label_pad_token_id c) = true →
  Forall (λ f, exact_example f = true) batch →
  seq2seq_call c batch =
    Ok (Seq2SeqBatch
          ((λ f, pad_to (seq2seq_side c f) (max_raw_length "input_ids" batch) p
                   (field "input_ids" f)) <$> batch)
          ((λ f, pad_to (seq2seq_side c f) (max_raw_length "input_ids" batch) 0
                   (field "attention_mask" f)) <$> batch)
          ((λ f, pad_to (seq2seq_side c f) (max_raw_length "labels" batch)
                   (s2s_label_pad_token_id c) (field "labels" f)) <$> batch)).
Proof.
  intros Hne Hp Hwf Hep Hel Hex. rewrite (seq2seq_call_wf c p batch Hne Hp Hwf).
  rewrite Forall_forall in Hex.
  do 2 f_equal; apply list_fmap_ext; intros i f Hf;
    destruct (exact_example_fields f (Hex f (list_elem_of_lookup_2 _ _ _ Hf)))
      as (Hi & Ha & Hl);
    by apply seq2seq_row_exact.
Qed.

Lemma longest_call_exact c p batch :
  batch ≠ [] →
  ls_pad_token_id c = Some p →
  Forall (λ x, wf_fields (fields_of x) = true) batch →
  exact_int p = true →
  Forall (λ x, exact_fields (fields_of x) = true) batch →
  let n := max_raw_length "input_ids" (fields_of <$> batch) in
  let right := String.eqb (ls_padding_side c) "right" in
  let output :=
    LongestBatch
      ((λ x, pad_to right n p (field "input_ids" (fields_of x))) <$> batch)
      ((λ x, pad_to right n 0 (field "attention_mask" (fields_of x))) <$> batch) in
  longest_call c batch =
    if bool_decide (0 < length (omap target_of batch))
    then stacked ← torch_stack (omap target_of batch); Ok (ReturnPair output stacked)
    else Ok (ReturnBatch output).
Proof.
  intros Hne Hp Hwf Hep Hex n right output.
  rewrite (longest_call_wf c p batch Hne Hp Hwf). cbv zeta.
  rewrite Forall_forall in Hex.
  assert (Hout : LongestBatch
      ((λ x, longest_row c (fields_of x) "input_ids"
               (max_raw_length "input_ids" (fields_of <$> batch)) p) <$> batch)
      ((λ x, longest_row c (fields_of x) "attention_mask"
               (max_raw_length "input_ids" (fields_of <$> batch)) 0) <$> batch)
      = output).
  { unfold output. f_equal; apply list_fmap_ext; intros i x Hx;
      destruct (andb_prop _ _ (Hex x (list_elem_of_lookup_2 _ _ _ Hx))) as [Hi Ha];
      by apply longest_row_exact. }
  by rewrite Hout.
Qed.

(** * Lemmas: the language modelling collator *)

(** ** Running the monad *)

Lemma bind_run {A B} (m : M A) (f : A → M B) s :
  (m ≫= f) s = match m s with Ok (a, s') => f a s' | Raise e => Raise e end.
Proof. reflexivity. Qed.

Lemma fmap_run {A B} (m : M A) (f : A → B) s :
  (f <$> m) s = match m s with Ok (a, s') => Ok (f a, s') | Raise e => Raise e end.
Proof. reflexivity. Qed.

Lemma ret_run {A} (a : A) s : (mret a : M A) s = Ok (a, s).
Proof. reflexivity. Qed.

Lemma lift_run {A} (r : result A) s :
  lift r s = match r with Ok a => Ok (a, s) | Raise e => Raise e end.
Proof. reflexivity. Qed.

Lemma bind_Ok {A B} (a : A) (f : A → result B) : Ok a ≫= f = f a.
Proof. reflexivity. Qed.

Lemma bind_Raise {A B} e (f : A → result B) : Raise e ≫= f = Raise e.
Proof. reflexivity. Qed.

Ltac proj :=
  cbn [st_store st_gen cur_feature original_input_list input_list
       attention_mask_list label_list extra_targets tensors dicts with_store].

Lemma get_dict_run d fd s :
  dicts (st_store s) !! d = Some fd → get_dict d s = Ok (fd, s).
Proof. unfold get_dict. by intros ->. Qed.

Lemma dict_getitem_run d k fd l s :
  dicts (st_store s) !! d = Some fd → fd !! k = Some l →
  dict_getitem d k s = Ok (l, s).
Proof.
  intros Hd Hk. unfold dict_getitem. rewrite bind_run, (get_dict_run _ _ _ Hd).
  by rewrite lift_run, (getitem_Some _ _ _ Hk).
Qed.

Lemma read_run l t s :
  tensors (st_store s) !! l = Some t → read l s = Ok (t, s).
Proof. unfold read. by intros ->. Qed.

Lemma with_gen_run {A} (f : generator → result (A * generator)) a g' σ g cf ol il al ll et :
  f g = Ok (a, g') →
  with_gen f (LmState σ g cf ol il al ll et) = Ok (a, LmState σ g' cf ol il al ll et).
Proof. unfold with_gen. proj. by intros ->. Qed.

Lemma with_gen_raise {A} (f : generator → result (A * generator)) e σ g cf ol il al ll et :
  f g = Raise e → with_gen f (LmState σ g cf ol il al ll et) = Raise e.
Proof. unfold with_gen. proj. by intros ->. Qed.

Lemma clone_run l t ts ds g cf ol il al ll et :
  ts !! l = Some t →
  clone l (LmState (Store ts ds) g cf ol il al ll et)
  = Ok (length ts, LmState (Store (ts ++ [t]) ds) g cf ol il al ll et).
Proof.
  intros Hl. unfold clone. rewrite bind_run, (read_run _ t) by done. reflexivity.
Qed.

Lemma write_run l t ts ds g cf ol il al ll et :
  write l t (LmState (Store ts ds) g cf ol il al ll et)
  = Ok (tt, LmState (Store (<[l := t]> ts) ds) g cf ol il al ll et).
Proof. reflexivity. Qed.

Lemma update_dict_run d f ts ds g cf ol il al ll et :
  update_dict d f (LmState (Store ts ds) g cf ol il al ll et)
  = Ok (tt, LmState (Store ts (alter f d ds)) g cf ol il al ll et).
Proof. reflexivity. Qed.

(** ** The loop body *)

Lemma insert_snoc {A} (ts : list A) x y : <[length ts := y]> (ts ++ [x]) = ts ++ [y].
Proof.
  rewrite insert_app_r_alt by lia. by rewrite Nat.sub_diag.
Qed.

Lemma insert_before_snoc {A} (ts : list A) i x y :
  i < length ts → <[i := y]> (ts ++ [x]) = <[i := y]> ts ++ [x].
Proof. intros. by rewrite insert_app_l. Qed.

Lemma lookup_snoc {A} (ts : list A) x : (ts ++ [x]) !! length ts = Some x.
Proof. by rewrite list_lookup_middle. Qed.

Lemma lm_copy_tokens_run c d fd i ids ts ds g cf ol il al ll et :
  ds !! d = Some fd →
  fd !! "input_ids" = Some i →
  ts !! i = Some ids →
  lm_copy_tokens c d (LmState (Store ts ds) g cf ol il al ll et)
  = Ok (length ts,
        LmState (Store (ts ++ [copy_labels c ids])
                   (alter (<["labels" := length ts]>) d ds))
          g cf ol il al ll et).
Proof.
  intros Hd Hi Hids. unfold lm_copy_tokens.
  rewrite bind_run, (dict_getitem_run _ _ fd i) by done.
  rewrite bind_run, (clone_run _ ids) by done.
  rewrite bind_run. unfold copy_labels.
  destruct (pad_token_id (lm_tokenizer c)) as [pad|].
  - rewrite bind_run, (read_run _ ids) by (proj; apply lookup_snoc).
    rewrite write_run, insert_snoc. rewrite bind_run, update_dict_run. reflexivity.
  - rewrite ret_run, bind_run, update_dict_run. reflexivity.
Qed.

Lemma lm_mask_tokens_eq c d fd i ids popped sm ts ds g cf ol il al ll et :
  ds !! d = Some fd →
  fd !! "input_ids" = Some i →
  ts !! i = Some ids →
  match sm with
  | None => popped = None
  | Some l => ts !! l = popped ∧ is_Some popped
  end →
  lm_mask_tokens c d i sm (LmState (Store ts ds) g cf ol il al ll et)
  = match mask_values c popped ids g with
    | Ok (ids', labels, g') =>
        Ok (length ts,
            LmState (Store (<[i := ids']> ts ++ [labels])
                       (alter (<["labels" := length ts]>) d ds))
              g' cf ol il al ll et)
    | Raise e => Raise e
    end.
Proof.
  intros Hd Hi Hids Hsm. unfold lm_mask_tokens.
  assert (Hlt : i < length ts) by (by eapply lookup_lt_Some).
  rewrite bind_run, (dict_getitem_run _ _ fd i) by done.
  rewrite bind_run, (clone_run _ ids) by done.
  rewrite bind_run, fmap_run, (read_run _ ids) by (proj; apply lookup_snoc).
  unfold mask_values.
  assert (Hspecial : special_mask c sm (length ts)
            (LmState (Store (ts ++ [ids]) ds) g cf ol il al ll et)
          = match special_flags c popped ids with
            | Ok special =>
                Ok (special, LmState (Store (ts ++ [ids]) ds) g cf ol il al ll et)
            | Raise e => Raise e
            end).
  { unfold special_mask, special_flags. destruct sm as [l|].
    - destruct Hsm as [<- [m Hm]]. rewrite Hm.
      by rewrite bind_run, (read_run _ m) by (proj; by apply lookup_app_l_Some).
    - subst popped. rewrite bind_run, (read_run _ ids) by (proj; apply lookup_snoc).
      rewrite bind_run, lift_run.
      by destruct (get_special_tokens_mask (lm_tokenizer c) ids) as [m|]. }
  rewrite bind_run, Hspecial. clear Hspecial.
  destruct (special_flags c popped ids) as [special|]; [|done].
  rewrite bind_Ok. cbv zeta.
  rewrite bind_run, lift_run.
  destruct (masked_fill (replicate (length ids) (mlm_probability c)) special 0%Q)
    as [probs|]; [|done].
  rewrite bind_Ok, bind_run.
  destruct (bernoulli probs g) as [[masked g1]|] eqn:Hb1;
    [|by rewrite (with_gen_raise _ _ _ _ _ _ _ _ _ _ Hb1)].
  rewrite (with_gen_run _ masked g1), bind_Ok by done.
  cbn [fst snd].
  rewrite bind_run, (read_run _ ids) by (proj; apply lookup_snoc).
  rewrite bind_run, write_run, insert_snoc.
  rewrite bind_run.
  assert (Hfin : ∀ ts' g2,
    (update_dict d (<["labels":=length ts]>) ≫= λ _ : (), mret (length ts))
      (LmState (Store ts' ds) g2 cf ol il al ll et)
    = Ok (length ts, LmState (Store ts' (alter (<["labels":=length ts]>) d ds))
                       g2 cf ol il al ll et)) by done.
  destruct (masked_to_mask c) as [q|]; last first.
  { by rewrite ret_run, Hfin, list_insert_id. }
  destruct (negb (Qeq_bool q 0)); last first.
  { by rewrite ret_run, Hfin, list_insert_id. }
  rewrite bind_run.
  destruct (bernoulli (replicate (length ids) q) g1) as [[r g2]|] eqn:Hb2;
    [|by rewrite (with_gen_raise _ _ _ _ _ _ _ _ _ _ Hb2)].
  rewrite (with_gen_run _ r g2), bind_Ok by done.
  cbn [fst snd].
  rewrite bind_run, (read_run _ ids) by (proj; by apply lookup_app_l_Some).
  rewrite bind_run, write_run, insert_before_snoc by done.
  destruct (apply_random_words c); last first.
  { by rewrite ret_run, Hfin. }
  rewrite bind_run.
  destruct (bernoulli (replicate (length ids) (1 # 2)) g2) as [[r' g3]|] eqn:Hb3;
    [|by rewrite (with_gen_raise _ _ _ _ _ _ _ _ _ _ Hb3)].
  rewrite (with_gen_run _ r' g3), bind_Ok, bind_run by done.
  cbn [fst snd].
  destruct (randint (vocab_size (lm_tokenizer c)) (length ids) g3) as [[w g4]|] eqn:Hw;
    [|by rewrite (with_gen_raise _ _ _ _ _ _ _ _ _ _ Hw)].
  rewrite (with_gen_run _ w g4), bind_Ok by done.
  cbn [fst snd].
  erewrite bind_run, read_run; last first.
  { proj. apply lookup_app_l_Some. by apply list_lookup_insert_eq. }
  rewrite write_run, insert_before_snoc by (by rewrite length_insert).
  by rewrite list_insert_insert_eq, Hfin.
Qed.

Lemma alter_alter_insert {A} (f h : A → A) d (ds : list A) x :
  ds !! d = Some x → alter f d (alter h d ds) = <[d := f (h x)]> ds.
Proof.
  intros Hd. apply list_eq. intros j.
  destruct (decide (j = d)) as [->|Hne].
  - rewrite !list_lookup_alter_eq, Hd. simpl.
    rewrite list_lookup_insert_eq; [done|]. by eapply lookup_lt_Some.
  - rewrite !list_lookup_alter_ne by done. by rewrite list_lookup_insert_ne.
Qed.

(** The loop body on a feature that the store holds as described: it
    succeeds exactly when the loop body on values does, and then leaves
    the corrupted ids in the tensor of the input ids, a new tensor of
    labels, and the updated dict. *)
Lemma lm_feature_eq c x ts ds g cf ol il al ll et fd i a ids popped :
  keep_original_input c = false →
  ds !! fields_of x = Some fd →
  fd !! "input_ids" = Some i →
  ts !! i = Some ids →
  fd !! "attention_mask" = Some a →
  special_content ts fd = Some popped →
  lm_feature c x (LmState (Store ts ds) g cf ol il al ll et)
  = match lm_example c popped ids g with
    | Ok (ids', labels, g') =>
        Ok (tt, LmState
                  (Store (<[i := ids']> ts ++ [labels])
                     (<[fields_of x := <["labels" := length ts]>
                                         (delete "special_tokens_mask" fd)]> ds))
                  g' (Some (fields_of x)) ol (il ++ [i]) (al ++ [a])
                  (ll ++ [length ts]) (extra_after x et))
    | Raise e => Raise e
    end.
Proof.
  intros Hkeep Hd Hi Hids Ha Hsp.
  unfold lm_feature. rewrite Hkeep.
  rewrite bind_run, ret_run.
  set (d := fields_of x) in *.
  assert (Hpre : (match x with
    | Plain d => set_cur_feature d
    | Paired d t =>
        set_cur_feature d;;
        match t with TgtObj _ => mret () | TgtDict kvs => append_extra kvs end
    end) (LmState (Store ts ds) g cf ol il al ll et)
    = Ok (tt, LmState (Store ts ds) g (Some d) ol il al ll (extra_after x et))).
  { destruct x as [d'|d' [o|kvs]]; reflexivity. }
  rewrite bind_run, Hpre. clear Hpre.
  rewrite bind_run. unfold get_cur_feature at 1. rewrite bind_run. unfold get_state at 1.
  proj. rewrite ret_run.
  rewrite bind_run, (dict_getitem_run _ _ fd i) by done.
  rewrite bind_run, (get_dict_run _ fd) by done.
  rewrite bind_run, update_dict_run.
  assert (Hd' : alter (delete "special_tokens_mask") d ds !! d
                = Some (delete "special_tokens_mask" fd)).
  { by rewrite list_lookup_alter_eq, Hd. }
  assert (Hi' : delete "special_tokens_mask" fd !! "input_ids" = Some i).
  { by rewrite lookup_delete_ne. }
  assert (Ha' : <["labels" := length ts]> (delete "special_tokens_mask" fd)
                  !! "attention_mask" = Some a).
  { rewrite lookup_insert_ne by done. by rewrite lookup_delete_ne. }
  unfold lm_example. rewrite bind_run. destruct (mlm c).
  - erewrite lm_mask_tokens_eq; [|done..|]; last first.
    { unfold special_content in Hsp. destruct (fd !! "special_tokens_mask") as [l|].
      - destruct (ts !! l) as [m|]; [|done]. injection Hsp as <-. eauto.
      - by injection Hsp as <-. }
    destruct (mask_values c popped ids g) as [[[ids' labels] g']|]; [|done].
    rewrite (alter_alter_insert _ _ _ _ fd) by done.
    rewrite bind_run,
      (dict_getitem_run _ _ (<["labels" := length ts]> (delete "special_tokens_mask" fd)) a);
      [|proj; apply list_lookup_insert_eq; by eapply lookup_lt_Some|done].
    reflexivity.
  - erewrite lm_copy_tokens_run; [|done..].
    rewrite (alter_alter_insert _ _ _ _ fd) by done.
    rewrite bind_run,
      (dict_getitem_run _ _ (<["labels" := length ts]> (delete "special_tokens_mask" fd)) a);
      [|proj; apply list_lookup_insert_eq; by eapply lookup_lt_Some|done].
    rewrite (list_insert_id ts) by done. reflexivity.
Qed.

Lemma lm_feature_run c x ts ds g cf ol il al ll et fd i a ids popped ids' labels g' :
  keep_original_input c = false →
  ds !! fields_of x = Some fd →
  fd !! "input_ids" = Some i →
  ts !! i = Some ids →
  fd !! "attention_mask" = Some a →
  special_content ts fd = Some popped →
  lm_example c popped ids g = Ok (ids', labels, g') →
  lm_feature c x (LmState (Store ts ds) g cf ol il al ll et)
  = Ok (tt, LmState
              (Store (<[i := ids']> ts ++ [labels])
                 (<[fields_of x := <["labels" := length ts]>
                                     (delete "special_tokens_mask" fd)]> ds))
              g' (Some (fields_of x)) ol (il ++ [i]) (al ++ [a])
              (ll ++ [length ts]) (extra_after x et)).
Proof.
  intros Hkeep Hd Hi Hids Ha Hsp Hex.
  by rewrite (lm_feature_eq c x ts ds g cf ol il al ll et fd i a ids popped), Hex.
Qed.

Lemma lm_feature_raise c x ts ds g cf ol il al ll et fd i a ids popped e :
  keep_original_input c = false →
  ds !! fields_of x = Some fd →
  fd !! "input_ids" = Some i →
  ts !! i = Some ids →
  fd !! "attention_mask" = Some a →
  special_content ts fd = Some popped →
  lm_example c popped ids g = Raise e →
  lm_feature c x (LmState (Store ts ds) g cf ol il al ll et) = Raise e.
Proof.
  intros Hkeep Hd Hi Hids Ha Hsp Hex.
  by rewrite (lm_feature_eq c x ts ds g cf ol il al ll et fd i a ids popped), Hex.
Qed.

(** ** The loop *)

Lemma view_of_Some σ x v :
  view_of σ x = Some v ↔
  v_dict v = fields_of x
  ∧ dicts σ !! fields_of x = Some (v_fields v)
  ∧ v_fields v !! "input_ids" = Some (v_input v)
  ∧ tensors σ !! v_input v = Some (v_ids v)
  ∧ v_fields v !! "attention_mask" = Some (v_mask v)
  ∧ tensors σ !! v_mask v = Some (v_am v)
  ∧ special_content (tensors σ) (v_fields v) = Some (v_special v).
Proof.
  unfold view_of. split.
  - intros H.
    destruct (dicts σ !! fields_of x) as [fd|]; [|done]. simpl in H.
    destruct (fd !! "input_ids") as [i|] eqn:Hi; [|done]. simpl in H.
    destruct (tensors σ !! i) as [ids|] eqn:Hids; [|done]. simpl in H.
    destruct (fd !! "attention_mask") as [a|] eqn:Ha; [|done]. simpl in H.
    destruct (tensors σ !! a) as [am|] eqn:Ham; [|done]. simpl in H.
    destruct (special_content (tensors σ) fd) as [sp|] eqn:Hsp; [|done]. simpl in H.
    injection H as <-. simpl. done.
  - destruct v as [d fd i ids a am sp]. simpl.
    intros (-> & -> & Hi & Hids & Ha & Ham & Hsp). simpl.
    rewrite Hi. simpl. rewrite Hids. simpl. rewrite Ha. simpl. rewrite Ham. simpl.
    rewrite Hsp. done.
Qed.

Lemma lookup_frame {A} (ts : list A) i t' lab l :
  l < length ts → l ≠ i → (<[i := t']> ts ++ [lab]) !! l = ts !! l.
Proof.
  intros Hl Hne. rewrite lookup_app_l by (by rewrite length_insert).
  by rewrite list_lookup_insert_ne.
Qed.

Lemma special_content_frame ts fd i t' lab sp :
  special_content ts fd = Some sp →
  (∀ l, fd !! "special_tokens_mask" = Some l → l ≠ i) →
  special_content (<[i := t']> ts ++ [lab]) fd = Some sp.
Proof.
  unfold special_content. destruct (fd !! "special_tokens_mask") as [l|]; [|done].
  intros H Hne. destruct (ts !! l) as [m|] eqn:Hl; [|done].
  rewrite lookup_frame; [by rewrite Hl|by eapply lookup_lt_Some|by apply Hne].
Qed.

Lemma view_of_frame ts ds x v i t' lab d fd' :
  view_of (Store ts ds) x = Some v →
  v_input v ≠ i → v_mask v ≠ i →
  (∀ l, v_fields v !! "special_tokens_mask" = Some l → l ≠ i) →
  v_dict v ≠ d →
  view_of (Store (<[i := t']> ts ++ [lab]) (<[d := fd']> ds)) x = Some v.
Proof.
  intros (Hd & Hfd & Hi & Hids & Ha & Ham & Hsp)%view_of_Some Hni Hna Hns Hnd.
  apply view_of_Some. simpl in *. rewrite <-Hd.
  rewrite list_lookup_insert_ne by done. rewrite <-Hd in Hfd.
  rewrite !lookup_frame by (done || by eapply lookup_lt_Some).
  repeat split; try done. by apply special_content_frame.
Qed.

Lemma view_of_same_dict σ x x' v v' :
  view_of σ x = Some v → view_of σ x' = Some v' →
  v_dict v = v_dict v' → v_input v = v_input v'.
Proof.
  intros (Hd & Hfd & Hi & _)%view_of_Some (Hd' & Hfd' & Hi' & _)%view_of_Some Heq.
  rewrite Hd, Hd' in Heq. rewrite Heq in Hfd. congruence.
Qed.

Lemma separated_cons v vs :
  separated (v :: vs) →
  separated vs
  ∧ (v_input v ∉ (v_input <$> vs))
  ∧ Forall (λ v', v_input v' ≠ v_input v ∧ v_mask v' ≠ v_input v
                  ∧ ∀ l, v_fields v' !! "special_tokens_mask" = Some l → l ≠ v_input v) vs.
Proof.
  intros [Hnd Hall]. rewrite fmap_cons in Hnd. apply NoDup_cons in Hnd as [Hni Hnd].
  apply Forall_cons in Hall as [_ Hall]. repeat split.
  - done.
  - eapply Forall_impl; [exact Hall|]. intros v' [Hm Hs]. split.
    + intros Hin. apply Hm. rewrite fmap_cons. by right.
    + intros l Hl Hin. apply (Hs l Hl). rewrite fmap_cons. by right.
  - done.
  - apply Forall_forall. intros v' Hv'. rewrite Forall_forall in Hall.
    destruct (Hall v' Hv') as [Hm Hs]. repeat split.
    + intros Heq. apply Hni. rewrite <-Heq. apply list_elem_of_fmap. eauto.
    + intros Heq. apply Hm. rewrite Heq, fmap_cons. by left.
    + intros l Hl Heq. apply (Hs l Hl). rewrite Heq, fmap_cons. by left.
Qed.

(** The views of the features still to come are not changed by an
    iteration on a feature separated from them. *)
Lemma views_after_feature ts ds x v batch vs ids' labels fd' :
  view_of (Store ts ds) x = Some v →
  Forall2 (λ x y, view_of (Store ts ds) x = Some y) batch vs →
  Forall (λ v', v_input v' ≠ v_input v ∧ v_mask v' ≠ v_input v
                ∧ ∀ l, v_fields v' !! "special_tokens_mask" = Some l →
                       l ≠ v_input v) vs →
  mapM (view_of (Store (<[v_input v := ids']> ts ++ [labels])
                   (<[fields_of x := fd']> ds))) batch
  = Some vs.
Proof.
  intros Hv Hvs Hothers.
  apply mapM_Some, Forall2_same_length_lookup.
  split; [by eapply Forall2_length|].
  intros k x' v' Hx' Hv'k.
  pose proof (Forall2_lookup_lr _ _ _ _ _ _ Hvs Hx' Hv'k) as Hview.
  rewrite Forall_forall in Hothers.
  destruct (Hothers v' (list_elem_of_lookup_2 _ _ _ Hv'k)) as (Hn1 & Hn2 & Hn3).
  apply view_of_frame; try done.
  intros Heq. apply Hn1. symmetry.
  pose proof Hv as (Hd & _)%view_of_Some.
  eapply view_of_same_dict; [exact Hv|exact Hview|congruence].
Qed.

Lemma lm_loop_run c :
  keep_original_input c = false →
  ∀ batch vs ts ds g cf ol il al ll et rows g',
  mapM (view_of (Store ts ds)) batch = Some vs →
  separated vs →
  lm_examples c vs g = Ok (rows, g') →
  ∃ s',
    lm_loop c batch (LmState (Store ts ds) g cf ol il al ll et) = Ok (tt, s')
    ∧ st_gen s' = g'
    ∧ original_input_list s' = ol
    ∧ input_list s' = il ++ (v_input <$> vs)
    ∧ attention_mask_list s' = al ++ (v_mask <$> vs)
    ∧ label_list s' = ll ++ seq (length ts) (length vs)
    ∧ extra_targets s' = extras_of batch et
    ∧ length (tensors (st_store s')) = length ts + length vs
    ∧ (∀ k v row, vs !! k = Some v → rows !! k = Some row →
         tensors (st_store s') !! v_input v = Some row.1
         ∧ tensors (st_store s') !! (length ts + k) = Some row.2
         ∧ dicts (st_store s') !! v_dict v
           = Some (<["labels" := length ts + k]>
                     (delete "special_tokens_mask" (v_fields v))))
    ∧ (∀ l, l < length ts → l ∉ (v_input <$> vs) →
         tensors (st_store s') !! l = ts !! l)
    ∧ (∀ d, d ∉ (v_dict <$> vs) → dicts (st_store s') !! d = ds !! d).
Proof.
  intros Hkeep. induction batch as [|x batch IH];
    intros vs ts ds g cf ol il al ll et rows g' Hvs Hsep Hex.
  - injection Hvs as <-. injection Hex as <- <-.
    eexists. split; [reflexivity|]. simpl. rewrite !app_nil_r, Nat.add_0_r.
    repeat split; try done.
  - apply mapM_Some in Hvs. inversion Hvs as [|? v ? vs' Hv Hvs']; subst.
    apply separated_cons in Hsep as (Hsep & Hni & Hothers).
    cbn [lm_examples] in Hex.
    destruct (lm_example c (v_special v) (v_ids v) g) as [[[ids' labels] g1]|] eqn:Hex1; [|done].
    cbn [mbind result_bind fst snd] in Hex.
    destruct (lm_examples c vs' g1) as [[rows' g2]|] eqn:Hex2; [|done].
    cbn [mbind result_bind fst snd] in Hex. injection Hex as <- <-.
    pose proof Hv as (Hd & Hfd & Hi & Hids & Ha & Ham & Hsp)%view_of_Some.
    simpl in Hfd, Hids, Ham, Hsp.
    pose proof (lm_feature_run c x ts ds g cf ol il al ll et _ _ _ _ _ _ _ _
                  Hkeep Hfd Hi Hids Ha Hsp Hex1) as Hstep.
    pose proof (views_after_feature ts ds x v batch vs' ids' labels
                  (<["labels" := length ts]> (delete "special_tokens_mask" (v_fields v)))
                  Hv Hvs' Hothers) as Hvs1.
    destruct (IH vs' _ _ g1 (Some (fields_of x)) ol (il ++ [v_input v])
                (al ++ [v_mask v]) (ll ++ [length ts]) (extra_after x et)
                rows' g2 Hvs1 Hsep Hex2)
      as (s' & Hloop & Hg & Hol & Hil & Hal & Hll & Het & Hlen & Hrows & Hframe & Hdframe).
    exists s'. cbn [lm_loop]. rewrite bind_run, Hstep.
    assert (Hlt : v_input v < length ts) by (by eapply lookup_lt_Some).
    assert (Hlen1 : length (<[v_input v := ids']> ts ++ [labels]) = S (length ts)).
    { rewrite length_app, length_insert. simpl. lia. }
    rewrite Hlen1 in *.
    assert (Hinputs_lt : ∀ l, l ∈ (v_input <$> vs') → l < length ts).
    { intros l (v' & -> & Hv')%list_elem_of_fmap.
      apply list_elem_of_lookup in Hv' as [k Hk].
      destruct (Forall2_lookup_r _ _ _ _ _ Hvs' Hk) as (x' & _ & Hview).
      apply view_of_Some in Hview as (_ & _ & _ & Hids' & _). simpl in Hids'.
      by eapply lookup_lt_Some. }
    split; [exact Hloop|]. split; [done|]. split; [done|].
    split; [by rewrite Hil, fmap_cons, <-app_assoc|].
    split; [by rewrite Hal, fmap_cons, <-app_assoc|].
    split; [by rewrite Hll, <-app_assoc|].
    split; [done|].
    split; [rewrite Hlen; simpl; lia|].
    split; [|split].
    + intros k v0 row Hk Hrow. destruct k as [|k]; simpl in Hk, Hrow.
      * injection Hk as <-. injection Hrow as <-. cbn [fst snd].
        rewrite Nat.add_0_r. split; [|split].
        -- rewrite Hframe; [|lia|done].
           rewrite lookup_app_l by (rewrite length_insert; lia).
           by apply list_lookup_insert_eq.
        -- rewrite Hframe; [|lia|].
           ++ rewrite <-(length_insert ts (v_input v) ids').
              by apply list_lookup_middle.
           ++ intros Hin. apply Hinputs_lt in Hin. lia.
        -- rewrite Hdframe.
           ++ rewrite Hd. apply list_lookup_insert_eq. by eapply lookup_lt_Some.
           ++ intros (v' & Heq & Hv')%list_elem_of_fmap.
              apply list_elem_of_lookup in Hv' as [k Hk].
              destruct (Forall2_lookup_r _ _ _ _ _ Hvs' Hk) as (x' & _ & Hview).
              rewrite Forall_forall in Hothers.
              destruct (Hothers v' (list_elem_of_lookup_2 _ _ _ Hk)) as (Hn1 & _).
              apply Hn1. symmetry. by eapply view_of_same_dict.
      * replace (length ts + S k) with (S (length ts) + k) by lia.
        exact (Hrows k v0 row Hk Hrow).
    + intros l Hl Hnin. rewrite fmap_cons in Hnin.
      apply not_elem_of_cons in Hnin as [Hne Hnin].
      rewrite Hframe by (done || lia). by apply lookup_frame.
    + intros d Hnin. rewrite fmap_cons in Hnin.
      apply not_elem_of_cons in Hnin as [Hne Hnin].
      rewrite Hdframe by done. rewrite list_lookup_insert_ne; [done|]. congruence.
Qed.

(** The loop raises when the loop on values does. *)
Lemma lm_loop_raise c :
  keep_original_input c = false →
  ∀ batch vs ts ds g cf ol il al ll et e,
  mapM (view_of (Store ts ds)) batch = Some vs →
  separated vs →
  lm_examples c vs g = Raise e →
  lm_loop c batch (LmState (Store ts ds) g cf ol il al ll et) = Raise e.
Proof.
  intros Hkeep. induction batch as [|x batch IH];
    intros vs ts ds g cf ol il al ll et e Hvs Hsep Hex.
  - by injection Hvs as <-.
  - apply mapM_Some in Hvs. inversion Hvs as [|? v ? vs' Hv Hvs']; subst.
    apply separated_cons in Hsep as (Hsep & Hni & Hothers).
    cbn [lm_examples] in Hex.
    pose proof Hv as (Hd & Hfd & Hi & Hids & Ha & Ham & Hsp)%view_of_Some.
    simpl in Hfd, Hids, Ham, Hsp.
    cbn [lm_loop]. rewrite bind_run.
    destruct (lm_example c (v_special v) (v_ids v) g) as [[[ids' labels] g1]|] eqn:Hex1.
    + rewrite bind_Ok in Hex. cbn [fst snd] in Hex.
      destruct (lm_examples c vs' g1) as [[rows' g2]|] eqn:Hex2; [done|].
      rewrite bind_Raise in Hex. injection Hex as <-.
      rewrite (lm_feature_run c x ts ds g cf ol il al ll et _ _ _ _ _ _ _ _
                 Hkeep Hfd Hi Hids Ha Hsp Hex1).
      eapply IH; [|exact Hsep|exact Hex2].
      by apply views_after_feature.
    + rewrite bind_Raise in Hex. injection Hex as <-.
      by rewrite (lm_feature_raise c x ts ds g cf ol il al ll et _ _ _ _ _ _
                    Hkeep Hfd Hi Hids Ha Hsp Hex1).
Qed.

(** ** Shapes *)

Lemma length_draws g n : length (draws g n) = n.
Proof. unfold draws. by rewrite length_fmap, length_seq. Qed.

Lemma bernoulli_length probs g bs g' :
  bernoulli probs g = Ok (bs, g') →
  length bs = length probs ∧ g' = advance g (length probs).
Proof.
  unfold bernoulli. destruct (forallb is_probability probs); [|done].
  intros [= <- <-]. rewrite length_zip_with, length_draws. split; [lia|done].
Qed.

Lemma randint_length high n g ws g' :
  randint high n g = Ok (ws, g') → length ws = n ∧ g' = advance g n.
Proof.
  unfold randint. destruct (0 <? high)%Z; [|done].
  intros [= <- <-]. by rewrite length_fmap, length_draws.
Qed.

Lemma length_assign_where {A} mask (v : A) t :
  length mask = length t → length (assign_where mask v t) = length t.
Proof. intros H. unfold assign_where. rewrite length_zip_with. lia. Qed.

Lemma length_assign_from {A} mask (vs t : list A) :
  length mask = length t → length vs = length t →
  length (assign_from mask vs t) = length t.
Proof.
  intros H1 H2. unfold assign_from. rewrite length_zip_with, length_zip. lia.
Qed.

Lemma broadcast_mask_length n mask m :
  broadcast_mask n mask = Ok m → length m = n.
Proof.
  unfold broadcast_mask. case_decide; [by intros [= <-]|].
  destruct mask as [|b [|]]; try done. intros [= <-]. apply length_replicate.
Qed.

Lemma masked_fill_length {A} (t : list A) mask v r :
  masked_fill t mask v = Ok r → length r = length t.
Proof.
  unfold masked_fill. destruct (broadcast_mask (length t) mask) as [m|] eqn:Hm; [|done].
  cbn [mbind result_bind]. intros [= <-]. apply length_assign_where.
  by eapply broadcast_mask_length.
Qed.

Lemma mask_values_length c popped ids g ids' labels g' :
  mask_values c popped ids g = Ok (ids', labels, g') →
  length ids' = length ids ∧ length labels = length ids.
Proof.
  unfold mask_values.
  destruct (special_flags c popped ids) as [special|]; [|done].
  cbn [mbind result_bind].
  destruct (masked_fill _ special 0%Q) as [probs|] eqn:Hprobs; [|done].
  apply masked_fill_length in Hprobs. rewrite length_replicate in Hprobs.
  cbn [mbind result_bind].
  destruct (bernoulli probs g) as [[masked g1]|] eqn:Hb1; [|done].
  apply bernoulli_length in Hb1 as [Hmasked _].
  cbn [mbind result_bind fst snd].
  assert (Hlab : length (assign_where (negb <$> masked) (ignore_index c) ids)
                 = length ids).
  { apply length_assign_where. rewrite length_fmap. lia. }
  destruct (masked_to_mask c) as [q|]; [|by intros [= <- <- _]].
  destruct (negb (Qeq_bool q 0)); [|by intros [= <- <- _]].
  destruct (bernoulli (replicate (length ids) q) g1) as [[r g2]|] eqn:Hb2; [|done].
  apply bernoulli_length in Hb2 as [Hr _]. rewrite length_replicate in Hr.
  cbn [mbind result_bind fst snd].
  assert (Hrep : length (zip_with andb r masked) = length ids).
  { rewrite length_zip_with. lia. }
  destruct (apply_random_words c).
  - destruct (bernoulli (replicate (length ids) (1 # 2)) g2) as [[r' g3]|] eqn:Hb3; [|done].
    apply bernoulli_length in Hb3 as [Hr' _]. rewrite length_replicate in Hr'.
    cbn [mbind result_bind fst snd].
    destruct (randint _ (length ids) g3) as [[w g4]|] eqn:Hw; [|done].
    apply randint_length in Hw as [Hw _].
    cbn [mbind result_bind fst snd]. intros [= <- <- _]. split; [|done].
    rewrite length_assign_from; rewrite ?length_assign_where; try done.
    rewrite !length_zip_with, length_fmap, length_zip_with. lia.
  - intros [= <- <- _]. split; [|done]. by apply length_assign_where.
Qed.

Lemma lm_example_length c popped ids g ids' labels g' :
  lm_example c popped ids g = Ok (ids', labels, g') →
  length ids' = length ids ∧ length labels = length ids.
Proof.
  unfold lm_example. destruct (mlm c); [apply mask_values_length|].
  intros [= <- <- _]. split; [done|]. unfold copy_labels.
  destruct (pad_token_id (lm_tokenizer c)); [|done].
  apply length_assign_where. by rewrite length_fmap.
Qed.

Lemma lm_examples_rows c vs g rows g' :
  lm_examples c vs g = Ok (rows, g') →
  Forall2 (λ v row, length row.1 = length (v_ids v)
                    ∧ length row.2 = length (v_ids v)) vs rows.
Proof.
  revert g rows g'. induction vs as [|v vs IH]; intros g rows g'; simpl.
  - intros [= <- _]. constructor.
  - destruct (lm_example c (v_special v) (v_ids v) g) as [[[ids' labels] g1]|] eqn:H1; [|done].
    cbn [mbind result_bind fst snd].
    destruct (lm_examples c vs g1) as [[rows' g2]|] eqn:H2; [|done].
    cbn [mbind result_bind fst snd]. intros [= <- _]. constructor.
    + by eapply lm_example_length.
    + exact (IH _ _ _ H2).
Qed.

(** ** After the loop *)

Lemma mapM_read_run ls rows s :
  Forall2 (λ l r, tensors (st_store s) !! l = Some r) ls rows →
  mapM read ls s = Ok (rows, s).
Proof.
  induction 1 as [|l r ls rows Hl _ IH]; [done|].
  cbn [mapM]. rewrite bind_run, (read_run _ r) by done.
  rewrite bind_run, IH. reflexivity.
Qed.

Lemma stack_rows_same n rows :
  rows ≠ [] → Forall (λ r, length r = n) rows → stack_rows rows = Ok rows.
Proof.
  intros Hne Hall. unfold stack_rows. destruct rows as [|r rows]; [done|].
  assert (same_length (length r) (r :: rows) = true) as ->; [|done].
  apply forallb_forall. intros r' Hr'%list_elem_of_In. apply bool_decide_eq_true.
  rewrite Forall_forall in Hall. rewrite (Hall r' Hr'), (Hall r); [done|by left].
Qed.

Lemma stack_locs_run n ls rows s :
  rows ≠ [] →
  Forall2 (λ l r, tensors (st_store s) !! l = Some r) ls rows →
  Forall (λ r, length r = n) rows →
  stack_locs ls s = Ok (rows, s).
Proof.
  intros Hne Hread Hlen. unfold stack_locs.
  rewrite bind_run, (mapM_read_run _ rows) by done.
  by rewrite lift_run, (stack_rows_same n).
Qed.

Lemma stack_extra_length d extra : stack_extra d = Ok extra → length extra = length d.
Proof.
  unfold stack_extra. intros H%mapM_result_Ok. symmetry. by eapply Forall2_length.
Qed.

(** The call on a batch laid out in the store without sharing, once the
    loop on values has succeeded. *)
Lemma lm_call_eq c batch σ g vs rows g' n m :
  keep_original_input c = false →
  batch ≠ [] →
  mapM (view_of σ) batch = Some vs →
  separated vs →
  lm_examples c vs g = Ok (rows, g') →
  Forall (λ v, length (v_ids v) = n ∧ length (v_am v) = m) vs →
  ∃ σ',
    lm_call c batch σ g
    = match stack_extra (extras_of batch []) with
      | Ok extra =>
          Ok (lm_result (LmBatch (fst <$> rows) (v_am <$> vs) (snd <$> rows) None)
                extra, σ', g')
      | Raise e => Raise e
      end
    ∧ length vs = length batch ∧ length rows = length batch
    ∧ ∀ k v row, vs !! k = Some v → rows !! k = Some row →
        tensors σ' !! v_input v = Some row.1
        ∧ tensors σ' !! (length (tensors σ) + k) = Some row.2
        ∧ dicts σ' !! v_dict v
          = Some (<["labels" := length (tensors σ) + k]>
                    (delete "special_tokens_mask" (v_fields v))).
Proof.
  intros Hkeep Hne Hvs Hsep Hex Hshape. destruct σ as [ts ds].
  destruct (lm_loop_run c Hkeep batch vs ts ds g None [] [] [] [] [] rows g' Hvs Hsep Hex)
    as (s' & Hloop & Hg & Hol & Hil & Hal & Hll & Het & Hlen & Hrows & Hframe & Hdframe).
  pose proof (lm_examples_rows _ _ _ _ _ Hex) as Hrl.
  pose proof (Forall2_length _ _ _ Hrl) as Hlenrows.
  assert (Hlenvs : length vs = length batch).
  { apply mapM_Some in Hvs. symmetry. by eapply Forall2_length. }
  assert (Hvs_ne : vs ≠ []) by (destruct vs, batch; done).
  assert (Hrows_ne : rows ≠ []) by (destruct vs, rows; done).
  exists (st_store s'). split; [|split; [done|split; [lia|exact Hrows]]].
  simpl in Hil, Hal, Hll.
  assert (Hviews : ∀ k v, vs !! k = Some v →
            ts !! v_mask v = Some (v_am v) ∧ (v_mask v ∉ (v_input <$> vs))).
  { intros k v Hk. apply mapM_Some in Hvs.
    destruct (Forall2_lookup_r _ _ _ _ _ Hvs Hk) as (x & _ & Hview).
    apply view_of_Some in Hview as (_ & _ & _ & _ & _ & Ham & _).
    split; [done|]. destruct Hsep as [_ Hsep]. rewrite Forall_forall in Hsep.
    by destruct (Hsep v (list_elem_of_lookup_2 _ _ _ Hk)). }
  assert (F1 : Forall2 (λ l r, tensors (st_store s') !! l = Some r)
                 (v_input <$> vs) (rows.*1)).
  { apply Forall2_same_length_lookup. split; [by rewrite !length_fmap|].
    intros k l r Hl Hr. rewrite list_lookup_fmap in Hl. rewrite list_lookup_fmap in Hr.
    destruct (vs !! k) as [v|] eqn:Hk; [|done].
    destruct (rows !! k) as [row|] eqn:Hrow; [|done].
    injection Hl as <-. injection Hr as <-. by destruct (Hrows k v row Hk Hrow). }
  assert (F2 : Forall2 (λ l r, tensors (st_store s') !! l = Some r)
                 (v_mask <$> vs) (v_am <$> vs)).
  { apply Forall2_fmap, Forall_Forall2_diag, Forall_forall.
    intros v [k Hk]%list_elem_of_lookup.
    destruct (Hviews k v Hk) as [Ham Hnin].
    rewrite Hframe; [done| by eapply lookup_lt_Some | done]. }
  assert (F3 : Forall2 (λ l r, tensors (st_store s') !! l = Some r)
                 (seq (length ts) (length vs)) (rows.*2)).
  { apply Forall2_same_length_lookup. split; [by rewrite length_seq, length_fmap|].
    intros k l r Hl Hr. rewrite list_lookup_fmap in Hr.
    apply lookup_seq in Hl as [-> Hlt].
    destruct (rows !! k) as [row|] eqn:Hrow; [|done]. injection Hr as <-.
    destruct (lookup_lt_is_Some_2 vs k Hlt) as [v Hk].
    by destruct (Hrows k v row Hk Hrow) as (_ & ? & _). }
  assert (L1 : Forall (λ r, length r = n) (rows.*1)
               ∧ Forall (λ r, length r = n) (rows.*2)).
  { split; apply Forall_fmap, Forall_forall; intros row [k Hrow]%list_elem_of_lookup;
      destruct (Forall2_lookup_r _ _ _ _ _ Hrl Hrow) as (v & Hk & H1 & H2);
      rewrite Forall_forall in Hshape;
      destruct (Hshape v (list_elem_of_lookup_2 _ _ _ Hk)) as [Hn _]; simpl; congruence. }
  destruct L1 as [L1 L3].
  assert (L2 : Forall (λ r, length r = m) (v_am <$> vs)).
  { apply Forall_fmap. eapply Forall_impl; [exact Hshape|]. by intros v [_ ?]. }
  unfold lm_call, lm_initial. rewrite bind_run, Hloop.
  unfold lm_finish. rewrite bind_run. unfold get_state at 1.
  rewrite Hil, Hal, Hll, Hkeep.
  rewrite bind_run, (stack_locs_run n _ (rows.*1)) by (done || by destruct rows).
  rewrite bind_run, (stack_locs_run m _ (v_am <$> vs)) by (done || by destruct vs).
  rewrite bind_run, (stack_locs_run n _ (rows.*2)) by (done || by destruct rows).
  rewrite bind_run, ret_run, Het.
  destruct (stack_extra (extras_of batch [])) as [extra|e] eqn:Hextra.
  - pose proof (stack_extra_length _ _ Hextra) as Hel.
    case_bool_decide as Hpos.
    + rewrite bind_run, lift_run, ret_run, Hg.
      destruct extra; [simpl in Hel; lia|done].
    + rewrite ret_run, Hg. destruct extra; [done|simpl in Hel; lia].
  - case_bool_decide as Hpos.
    + by rewrite bind_run, lift_run.
    + destruct (extras_of batch []); [done|simpl in Hpos; lia].
Qed.

Lemma lm_call_run c batch σ g vs rows g' n m extra :
  keep_original_input c = false →
  batch ≠ [] →
  mapM (view_of σ) batch = Some vs →
  separated vs →
  lm_examples c vs g = Ok (rows, g') →
  Forall (λ v, length (v_ids v) = n ∧ length (v_am v) = m) vs →
  stack_extra (extras_of batch []) = Ok extra →
  ∃ σ',
    lm_call c batch σ g
    = Ok (lm_result (LmBatch (fst <$> rows) (v_am <$> vs) (snd <$> rows) None) extra,
          σ', g')
    ∧ length vs = length batch ∧ length rows = length batch
    ∧ ∀ k v row, vs !! k = Some v → rows !! k = Some row →
        tensors σ' !! v_input v = Some row.1
        ∧ tensors σ' !! (length (tensors σ) + k) = Some row.2
        ∧ dicts σ' !! v_dict v
          = Some (<["labels" := length (tensors σ) + k]>
                    (delete "special_tokens_mask" (v_fields v))).
Proof.
  intros Hkeep Hne Hvs Hsep Hex Hshape Hextra.
  destruct (lm_call_eq c batch σ g vs rows g' n m Hkeep Hne Hvs Hsep Hex Hshape)
    as (σ' & Hcall & Hrest).
  rewrite Hextra in Hcall. by exists σ'.
Qed.

(** A call that returns: the loop on values and the stacking of the
    auxiliary targets have succeeded. *)
Lemma lm_call_Ok c batch σ g vs n m ret σ' g' :
  mapM (view_of σ) batch = Some vs →
  separated vs →
  Forall (λ v, length (v_ids v) = n ∧ length (v_am v) = m) vs →
  lm_call c batch σ g = Ok (ret, σ', g') →
  keep_original_input c = false
  ∧ batch ≠ []
  ∧ ∃ rows extra,
      lm_examples c vs g = Ok (rows, g')
      ∧ stack_extra (extras_of batch []) = Ok extra.
Proof.
  intros Hvs Hsep Hshape Hcall.
  assert (Hne : batch ≠ []) by (by intros ->).
  assert (Hkeep : keep_original_input c = false).
  { destruct (keep_original_input c) eqn:Hkeep; [|done].
    destruct batch as [|x batch]; [done|].
    unfold lm_call in Hcall. cbn [lm_loop] in Hcall.
    rewrite !bind_run in Hcall. unfold lm_feature in Hcall.
    by rewrite Hkeep, !bind_run in Hcall. }
  split; [done|]. split; [done|].
  destruct (lm_examples c vs g) as [[rows g'']|e] eqn:Hex.
  - destruct (lm_call_eq c batch σ g vs rows g'' n m Hkeep Hne Hvs Hsep Hex Hshape)
      as (σ'' & Hcall' & _).
    rewrite Hcall in Hcall'.
    destruct (stack_extra (extras_of batch [])) as [extra|e]; [|done].
    injection Hcall' as _ _ <-. eauto.
  - destruct σ as [ts ds]. unfold lm_call, lm_initial in Hcall.
    by rewrite bind_run, (lm_loop_raise c Hkeep batch vs ts ds g _ _ _ _ _ _ e Hvs Hsep Hex)
      in Hcall.
Qed.


(** ** Draws and trials *)

Lemma lookup_draws g n j : j < n → draws g n !! j = Some (draw_at g j).
Proof.
  intros Hj. unfold draws, draw_at. by rewrite list_lookup_fmap, lookup_seq_lt.
Qed.

Lemma draw_at_advance g k j : draw_at (advance g k) j = draw_at g (k + j).
Proof. unfold draw_at, advance. simpl. f_equal. lia. Qed.

Lemma advance_advance g a b : advance (advance g a) b = advance g (a + b).
Proof. unfold advance. simpl. f_equal. lia. Qed.

Lemma uniform_range k : (0 <= uniform k)%Q ∧ (uniform k < 1)%Q.
Proof.
  unfold uniform, Qle, Qlt. cbn [Qnum Qden].
  pose proof (N.mod_upper_bound k (2 ^ 53) ltac:(done)) as Hlt.
  change (Z.pos (2 ^ 53)) with (Z.of_N (2 ^ 53)).
  generalize dependent (k `mod` 2 ^ 53)%N. generalize (2 ^ 53)%N.
  intros; lia.
Qed.


Lemma trial_zero k : trial 0 k = false.
Proof.
  unfold trial. apply negb_false_iff, Qle_bool_iff. apply uniform_range.
Qed.

Lemma bernoulli_run probs g :
  forallb is_probability probs = true →
  bernoulli probs g
  = Ok (zip_with trial probs (draws g (length probs)), advance g (length probs)).
Proof. unfold bernoulli. by intros ->. Qed.

Lemma lookup_bernoulli (probs : list Q) g (j : nat) p :
  probs !! j = Some p →
  zip_with trial probs (draws g (length probs)) !! j = Some (trial p (draw_at g j)).
Proof.
  intros Hp. rewrite lookup_zip_with, Hp. simpl.
  rewrite lookup_draws by (by eapply lookup_lt_Some). done.
Qed.

Lemma lookup_bernoulli_replicate n q g (j : nat) :
  j < n →
  zip_with trial (replicate n q) (draws g n) !! j = Some (trial q (draw_at g j)).
Proof.
  intros Hj. rewrite lookup_zip_with, lookup_replicate_2, lookup_draws by done. done.
Qed.

Lemma lookup_assign_where {A} (mask : list bool) (v : A) (t : list A) (j : nat) (b : bool) x :
  mask !! j = Some b → t !! j = Some x →
  assign_where mask v t !! j = Some (if b then v else x).
Proof.
  intros Hb Hx. unfold assign_where. by rewrite lookup_zip_with, Hb, Hx.
Qed.

Lemma lookup_assign_from {A} (mask : list bool) (vs t : list A) (j : nat) (b : bool) w x :
  mask !! j = Some b → vs !! j = Some w → t !! j = Some x →
  assign_from mask vs t !! j = Some (if b then w else x).
Proof.
  intros Hb Hw Hx. unfold assign_from.
  rewrite lookup_zip_with.
  assert (zip mask vs !! j = Some (b, w)) as ->.
  { by apply lookup_zip_Some. }
  simpl. by rewrite Hx.
Qed.

Lemma broadcast_mask_same n mask : length mask = n → broadcast_mask n mask = Ok mask.
Proof. intros H. unfold broadcast_mask. by rewrite decide_True. Qed.

Lemma forallb_replicate {A} (P : A → bool) n x :
  P x = true → forallb P (replicate n x) = true.
Proof. intros H. induction n; simpl; [done|]. by rewrite H. Qed.

(** The masking branch, position by position, when the replacement
    fraction is a non-zero float. *)
Lemma mask_values_pointwise c popped ids g sp q :
  special_flags c popped ids = Ok sp →
  length sp = length ids →
  is_probability (mlm_probability c) = true →
  masked_to_mask c = PyFloat q →
  Qeq_bool q 0 = false →
  is_probability q = true →
  (apply_random_words c = true → (0 < vocab_size (lm_tokenizer c))%Z) →
  ∃ ids' labels,
    mask_values c popped ids g
    = Ok (ids', labels, advance g (draws_used c (length ids)))
    ∧ masked_row c q g ids sp ids' labels.
Proof.
  intros Hsp Hlen Hp Hq Hq0 Hqp Hvocab. pose (n := length ids).
  unfold masked_row. cbv zeta. fold n.
  unfold mask_values, draws_used. rewrite Hsp, Hq, Hq0. cbn [mbind result_bind negb].
  unfold masked_fill. rewrite length_replicate, (broadcast_mask_same _ _ Hlen).
  cbn [mbind result_bind].
  set (probs := assign_where sp 0%Q (replicate (length ids) (mlm_probability c))).
  assert (Hprobs_len : length probs = n).
  { unfold probs. rewrite length_assign_where; by rewrite length_replicate. }
  assert (Hprobs : ∀ (j : nat) (b : bool), sp !! j = Some b →
            probs !! j = Some (if b then 0%Q else mlm_probability c)).
  { intros j b Hb. unfold probs. apply lookup_assign_where; [done|].
    apply lookup_replicate_2. rewrite <-Hlen. by eapply lookup_lt_Some. }
  rewrite bernoulli_run; last first.
  { apply forallb_forall. intros p [j Hj]%list_elem_of_In%list_elem_of_lookup.
    destruct (lookup_lt_is_Some_2 sp j) as [b Hb].
    { rewrite Hlen. fold n. rewrite <-Hprobs_len. by eapply lookup_lt_Some. }
    rewrite (Hprobs j b Hb) in Hj. injection Hj as <-. by destruct b. }
  cbn [mbind result_bind fst snd]. rewrite Hprobs_len. fold n.
  set (masked := zip_with trial probs (draws g n)).
  assert (Hmasked : ∀ (j : nat) (b : bool), sp !! j = Some b →
            masked !! j = Some (negb b && trial (mlm_probability c) (draw_at g j))).
  { intros j b Hb. unfold masked. rewrite <-Hprobs_len.
    rewrite (lookup_bernoulli _ g _ _ (Hprobs j b Hb)).
    destruct b; simpl; [by rewrite trial_zero|done]. }
  rewrite bernoulli_run by (by apply forallb_replicate).
  cbn [mbind result_bind fst snd]. rewrite length_replicate. fold n.
  set (r := zip_with trial (replicate n q) (draws (advance g n) n)).
  assert (Hr : ∀ j, j < n → r !! j = Some (trial q (draw_at g (n + j)))).
  { intros j Hj. unfold r. rewrite lookup_bernoulli_replicate by done.
    by rewrite draw_at_advance. }
  set (replaced := zip_with andb r masked).
  assert (Hreplaced : ∀ (j : nat) (b : bool), sp !! j = Some b →
            replaced !! j = Some (trial q (draw_at g (n + j))
                                  && (negb b && trial (mlm_probability c) (draw_at g j)))).
  { intros j b Hb. unfold replaced. rewrite lookup_zip_with, Hr, (Hmasked j b Hb); [done|].
    unfold n. rewrite <-Hlen. by eapply lookup_lt_Some. }
  assert (Hlabels : ∀ (j : nat) (tok : Z) (b : bool), ids !! j = Some tok → sp !! j = Some b →
            assign_where (negb <$> masked) (ignore_index c) ids !! j
            = Some (if negb b && trial (mlm_probability c) (draw_at g j)
                    then tok else ignore_index c)).
  { intros j tok b Htok Hb.
    erewrite lookup_assign_where; [|by rewrite list_lookup_fmap, (Hmasked j b Hb)|done].
    by destruct (negb b && _). }
  destruct (apply_random_words c) eqn:Hrw.
  - rewrite bernoulli_run by (by apply forallb_replicate).
    cbn [mbind result_bind fst snd]. rewrite length_replicate. fold n.
    unfold randint. rewrite (proj2 (Z.ltb_lt _ _) (Hvocab eq_refl)).
    cbn [mbind result_bind fst snd].
    eexists _, _. split.
    { rewrite !advance_advance. do 2 f_equal. f_equal. lia. }
    intros j tok b Htok Hb. split; [by apply Hlabels|].
    assert (Hj : j < n) by (by eapply lookup_lt_Some).
    erewrite lookup_assign_from; [done| | |].
    + rewrite !lookup_zip_with, lookup_replicate_2, lookup_draws by done.
      rewrite (Hmasked j b Hb), list_lookup_fmap, (Hreplaced j b Hb).
      cbn [mbind option_bind fmap option_fmap option_map andb].
      rewrite draw_at_advance.
      replace (n + n + j) with (2 * n + j) by lia. done.
    + rewrite list_lookup_fmap, lookup_draws by done.
      cbn [fmap option_fmap option_map]. unfold vocab_sample.
      rewrite draw_at_advance.
      replace (n + n + n + j) with (3 * n + j) by lia. done.
    + by apply lookup_assign_where; [apply Hreplaced|].
  - eexists _, _. split.
    { rewrite !advance_advance. do 3 f_equal. lia. }
    intros j tok b Htok Hb. split; [by apply Hlabels|]. simpl.
    by apply lookup_assign_where; [apply Hreplaced|].
Qed.

(** ** The masking branch over a batch *)


Lemma vocab_sample_range c k :
  (0 < vocab_size (lm_tokenizer c))%Z →
  (0 ≤ vocab_sample c k < vocab_size (lm_tokenizer c))%Z.
Proof. intros H. unfold vocab_sample. by apply Z.mod_pos_bound. Qed.



Lemma returned_batch_result output extra :
  returned_batch (lm_result output extra) = output.
Proof. by destruct extra. Qed.

(** * Lemmas: errors of the padding collators *)

(** A loop whose body raises nothing but [e] on the elements of the list
    raises [e] as soon as the body fails on some element. *)
Lemma mapM_result_raise_in {A B} (f : A → result B) e l :
  (∀ x e', x ∈ l → f x = Raise e' → e' = e) →
  Exists (λ x, is_ok (f x) = false) l →
  mapM f l = Raise e.
Proof.
  intros Honly Hex. induction Hex as [x l Hx|x l _ IH]; rewrite mapM_result_cons.
  - destruct (f x) as [y|e'] eqn:Hfx; [done|].
    by rewrite (Honly x e' ltac:(left) Hfx).
  - destruct (f x) as [y|e'] eqn:Hfx.
    + rewrite bind_Ok, IH; [done|]. intros y' e' Hy'. apply Honly. by right.
    + by rewrite (Honly x e' ltac:(left) Hfx).
Qed.

Lemma mapM_result_raise {A B} (f : A → result B) e l :
  (∀ x e', f x = Raise e' → e' = e) →
  Exists (λ x, is_ok (f x) = false) l →
  mapM f l = Raise e.
Proof. intros Honly. apply mapM_result_raise_in. intros x e' _. apply Honly. Qed.

(** A loop whose body either raises [e] or returns a value related to its
    argument by [P]. *)
Lemma mapM_result_cases {A B} (f : A → result B) e (P : A → B → Prop) l :
  Forall (λ x, f x = Raise e ∨ ∃ y, f x = Ok y ∧ P x y) l →
  mapM f l = Raise e ∨ ∃ k, mapM f l = Ok k ∧ Forall2 P l k.
Proof.
  induction 1 as [|x l Hx _ IH].
  - right. exists []. by split; [|constructor].
  - rewrite mapM_result_cons. destruct Hx as [->|(y & -> & Hy)]; [by left|].
    rewrite bind_Ok. destruct IH as [->|(k & -> & Hk)]; [by left|].
    right. exists (y :: k). split; [done|]. by constructor.
Qed.

Lemma getitem_None {V} (d : gmap string V) k : d !! k = None → getitem d k = Raise KeyError.
Proof. unfold getitem. by intros ->. Qed.

Lemma getitem_raises {V} (d : gmap string V) k e : getitem d k = Raise e → e = KeyError.
Proof. unfold getitem. destruct (d !! k); [done|]. by intros [= <-]. Qed.

Lemma wf_example_lookup f :
  wf_example f = true →
  ∃ ids am labs, f !! "input_ids" = Some ids ∧ f !! "attention_mask" = Some am
    ∧ f !! "labels" = Some labs ∧ py_len am = py_len ids
    ∧ (isinstance_list labs = true →
       isinstance_list ids = true ∧ isinstance_list am = true).
Proof.
  unfold wf_example. destruct (f !! "input_ids") as [ids|]; [|done].
  destruct (f !! "attention_mask") as [am|]; [|done].
  destruct (f !! "labels") as [labs|]; [|done].
  intros [Hlen Himp]%andb_prop. apply bool_decide_eq_true in Hlen.
  exists ids, am, labs. repeat split; try done;
    destruct (isinstance_list labs); try done; by apply andb_prop in Himp as [??].
Qed.

Lemma np_concatenate_int64_nil_r (x : pyseq) :
  forallb exact_int (seq_items x) = true →
  np_concatenate_int64 (operand_of x) (Lst []) = Ok (Row (Some <$> seq_items x) false).
Proof.
  intros Hx. change (Lst []) with (Lst (replicate 0 (Some 0%Z))).
  rewrite np_concatenate_int64_right. cbn [replicate]. rewrite app_nil_r.
  unfold np_stored. by rewrite stored_exact_list.
Qed.

Lemma np_concatenate_int64_nil_l (x : pyseq) :
  forallb exact_int (seq_items x) = true →
  np_concatenate_int64 (Lst []) (operand_of x) = Ok (Row (Some <$> seq_items x) false).
Proof.
  intros Hx. change (Lst []) with (Lst (replicate 0 (Some 0%Z))).
  rewrite np_concatenate_int64_left. cbn [replicate app].
  unfold np_stored. by rewrite stored_exact_list.
Qed.

Lemma exact_example_lookup f ids am labs :
  f !! "input_ids" = Some ids → f !! "attention_mask" = Some am →
  f !! "labels" = Some labs →
  exact_example f = true →
  forallb exact_int (seq_items ids) = true
  ∧ forallb exact_int (seq_items am) = true
  ∧ forallb exact_int (seq_items labs) = true.
Proof.
  unfold exact_example, exact_fields, exact_field, field. intros -> -> ->.
  cbn [from_option].
  by intros [[??]%andb_prop ?]%andb_prop.
Qed.

(** An example that already has the planned lengths needs no fill value:
    its rows are its fields, whatever the pad token is, as long as
    doubles hold its items exactly. *)
Lemma seq2seq_pad_full c mi ml f :
  wf_example f = true →
  exact_example f = true →
  mi ≤ raw_length "input_ids" f → ml ≤ raw_length "labels" f →
  seq2seq_pad c mi ml f =
    Ok (Row (Some <$> field "input_ids" f) false,
        Row (Some <$> field "attention_mask" f) false,
        Row (Some <$> field "labels" f) false).
Proof.
  intros (ids & am & labs & Hi & Ha & Hl & Hlen & Himp)%wf_example_lookup Hex.
  destruct (exact_example_lookup f ids am labs Hi Ha Hl Hex) as (Hei & Hea & Hel).
  unfold raw_length, field, seq2seq_pad. rewrite Hi, Ha, Hl.
  rewrite (getitem_Some _ _ _ Hi), (getitem_Some _ _ _ Ha), (getitem_Some _ _ _ Hl).
  cbn [from_option mbind result_bind]. intros Hmi Hml.
  replace (mi - py_len ids) with 0 by lia. replace (ml - py_len labs) with 0 by lia.
  cbn [replicate].
  destruct labs as [labs|labs]; cbn [isinstance_list].
  - destruct Himp as [Hli Hla]; [done|].
    destruct ids as [ids|ids]; [|done]. destruct am as [am|am]; [|done].
    cbn [py_add seq_items mbind result_bind]. unfold asarray.
    by rewrite !app_nil_r, !has_none_Some.
  - destruct (String.eqb (s2s_padding_side c) "right").
    + rewrite !np_concatenate_int64_nil_r by done. done.
    + rewrite !np_concatenate_int64_nil_l by done. done.
Qed.

Lemma max_list_const (n : nat) (ns : list nat) :
  ns ≠ [] → Forall (λ m, m = n) ns → max_list ns = n.
Proof.
  intros Hne Hall. induction Hall as [|m ns -> _ IH]; [done|].
  destruct ns as [|m' ns]; simpl in *; [lia|]. rewrite IH by done. lia.
Qed.

(** ** A tokenizer without a pad token *)

Lemma astype_int64_None (cs : list cell) :
  None ∈ cs → astype_int64 cs = Raise TypeError.
Proof.
  intros Hin. apply mapM_result_raise.
  - intros [z|] e; [done|]. by intros [= <-].
  - apply Exists_exists. exists None. by split.
Qed.

Lemma np_concatenate_int64_None_r (a : operand) k :
  0 < k → np_concatenate_int64 a (Lst (replicate k None)) = Raise TypeError.
Proof.
  intros Hk. unfold np_concatenate_int64. rewrite astype_int64_None; [done|].
  cbn [operand_cells]. apply elem_of_app. right. destruct k; [lia|]. simpl. left.
Qed.

Lemma np_concatenate_int64_None_l (b : operand) k :
  0 < k → np_concatenate_int64 (Lst (replicate k None)) b = Raise TypeError.
Proof.
  intros Hk. unfold np_concatenate_int64. rewrite astype_int64_None; [done|].
  cbn [operand_cells]. apply elem_of_app. left. destruct k; [lia|]. simpl. left.
Qed.

Lemma has_none_app_None (cs : list cell) k :
  0 < k → has_none (cs ++ replicate k None) = true.
Proof.
  intros Hk. unfold has_none. rewrite existsb_app.
  destruct k; [lia|]. simpl. by rewrite orb_true_r.
Qed.

(** Without a pad token, the rows of a well-formed example are built only
    if its labels are a list or it needs no fill; the row of input ids
    then has the planned length, and is of dtype [object] as soon as it
    holds a fill. *)
Lemma seq2seq_pad_None c mi ml f :
  s2s_pad_token_id c = None →
  wf_example f = true →
  raw_length "input_ids" f ≤ mi →
  seq2seq_pad c mi ml f = Raise TypeError
  ∨ ∃ r, seq2seq_pad c mi ml f = Ok r
      ∧ length (cells r.1.1) = mi
      ∧ (raw_length "input_ids" f < mi → dtype_object r.1.1 = true).
Proof.
  intros Hp (ids & am & labs & Hi & Ha & Hl & Hlen & Himp)%wf_example_lookup.
  unfold raw_length, seq2seq_pad. rewrite Hi, Hp.
  rewrite (getitem_Some _ _ _ Hi), (getitem_Some _ _ _ Ha), (getitem_Some _ _ _ Hl).
  cbn [from_option mbind result_bind]. intros Hmi.
  rewrite !replicate_Some.
  destruct labs as [labs|labs]; cbn [isinstance_list].
  - destruct Himp as [Hli Hla]; [done|].
    destruct ids as [ids|ids]; [|done]. destruct am as [am|am]; [|done].
    cbn [py_add seq_items mbind result_bind]. right. eexists. split; [done|].
    unfold py_len in *. cbn [fst snd asarray cells dtype_object seq_items] in *.
    split.
    + rewrite length_app, length_fmap, length_replicate. lia.
    + intros Hlt. apply has_none_app_None. lia.
  - destruct (decide (py_len ids < mi)) as [Hlt|Hge].
    + left. destruct (String.eqb (s2s_padding_side c) "right").
      * rewrite np_concatenate_int64_None_r by lia. done.
      * rewrite np_concatenate_int64_None_l by lia. done.
    + right. replace (mi - py_len ids) with 0 by lia. rewrite <-!replicate_Some.
      change (replicate 0 (@None Z)) with (replicate 0 (Some 0%Z)).
      destruct (String.eqb (s2s_padding_side c) "right");
        rewrite ?np_concatenate_int64_right, ?np_concatenate_int64_left;
        cbn [mbind result_bind];
        (eexists; split; [done|]); cbn [fst snd cells dtype_object replicate];
        (split; [rewrite !length_fmap, ?app_nil_r; cbn [app]; unfold py_len in *; lia|lia]).
Qed.

Lemma np_stack_same n (rows : list row) :
  rows ≠ [] → Forall (λ r, length (cells r) = n) rows → np_stack rows = Ok rows.
Proof.
  intros Hne Hall. destruct rows as [|r rows]; [done|]. unfold np_stack.
  assert (Hs : same_length (length (cells r)) (cells <$> r :: rows) = true); [|by rewrite Hs].
  apply forallb_forall. intros cs Hcs.
  apply list_elem_of_In, list_elem_of_fmap in Hcs as (r' & -> & Hr').
  apply bool_decide_eq_true. rewrite Forall_forall in Hall.
  rewrite (Hall r' Hr'). symmetry. apply Hall. left.
Qed.

Lemma from_numpy_object (rows : list row) :
  Exists (λ r, dtype_object r = true) rows → from_numpy rows = Raise TypeError.
Proof.
  intros Hex. unfold from_numpy.
  assert (He : existsb dtype_object rows = true); [|by rewrite He].
  apply existsb_exists. apply Exists_exists in Hex as (r & Hr & Hd).
  exists r. split; [by apply list_elem_of_In|done].
Qed.

(** A loop raises only what its body raises. *)
Lemma mapM_result_only {A B} (f : A → result B) e l e' :
  (∀ x e', f x = Raise e' → e' = e) → mapM f l = Raise e' → e' = e.
Proof.
  intros Honly. induction l as [|x l IH]; [done|]. rewrite mapM_result_cons.
  destruct (f x) as [y|e1] eqn:Hfx.
  - rewrite bind_Ok. destruct (mapM f l) as [k|e2]; [done|].
    rewrite bind_Raise. intros [= <-]. by apply IH.
  - rewrite bind_Raise. intros [= <-]. by eapply Honly.
Qed.

Lemma np_concatenate_int64_raises a b e :
  np_concatenate_int64 a b = Raise e → e = TypeError.
Proof.
  unfold np_concatenate_int64.
  destruct (astype_int64 (operand_cells a ++ operand_cells b)) as [zs|e'] eqn:Has; [done|].
  rewrite bind_Raise. intros [= <-]. revert Has. apply mapM_result_only.
  intros [z|] e''; [done|]. by intros [= <-].
Qed.

(** ** Errors of [DataCollatorForLongestSequence] *)

(** With a pad token, the body of the padding loop fails only on a
    missing key. *)
Lemma longest_pad_raises c p mi f e :
  ls_pad_token_id c = Some p → longest_pad c mi f = Raise e → e = KeyError.
Proof.
  intros Hp. unfold longest_pad. rewrite Hp.
  destruct (getitem f "input_ids") as [ids|e1] eqn:Hi;
    [|rewrite bind_Raise; intros [= <-]; by eapply getitem_raises].
  rewrite bind_Ok. cbv zeta.
  destruct (String.eqb (ls_padding_side c) "right");
    rewrite ?np_concatenate_int64_right, ?np_concatenate_int64_left, bind_Ok;
    (destruct (getitem f "attention_mask") as [am|e1] eqn:Ha;
     [|rewrite bind_Raise; intros [= <-]; by eapply getitem_raises]);
    rewrite bind_Ok, ?np_concatenate_int64_right, ?np_concatenate_int64_left; done.
Qed.

Lemma longest_pad_missing c mi f :
  f !! "input_ids" = None ∨ f !! "attention_mask" = None →
  is_ok (longest_pad c mi f) = false.
Proof.
  unfold longest_pad. intros [Hi|Ha].
  - by rewrite (getitem_None _ _ Hi).
  - rewrite (getitem_None _ _ Ha).
    destruct (getitem f "input_ids") as [ids|]; [|done]. rewrite bind_Ok. cbv zeta.
    destruct (String.eqb (ls_padding_side c) "right");
      by destruct (np_concatenate_int64 _ _).
Qed.

(** Without a pad token, the body of the padding loop raises [TypeError]
    on every well-formed example that needs a fill, and nothing else on
    any well-formed example. *)
Lemma longest_pad_None c mi f :
  ls_pad_token_id c = None →
  wf_fields f = true →
  (raw_length "input_ids" f < mi → longest_pad c mi f = Raise TypeError)
  ∧ (∀ e, longest_pad c mi f = Raise e → e = TypeError).
Proof.
  intros Hp (ids & am & Hi & Ha & Hlen)%wf_fields_lookup.
  unfold raw_length, longest_pad. rewrite Hi, Hp.
  rewrite (getitem_Some _ _ _ Hi), (getitem_Some _ _ _ Ha).
  cbn [from_option mbind result_bind]. split.
  - intros Hlt. destruct (String.eqb (ls_padding_side c) "right").
    + by rewrite np_concatenate_int64_None_r by lia.
    + by rewrite np_concatenate_int64_None_l by lia.
  - intros e.
    destruct (String.eqb (ls_padding_side c) "right");
      rewrite ?(np_concatenate_int64_right am), ?(np_concatenate_int64_left am);
      (destruct (np_concatenate_int64 _ _) as [i|e1] eqn:H1;
       [done|rewrite bind_Raise; intros [= <-]; by eapply np_concatenate_int64_raises]).
Qed.

Lemma longest_inputs_wf (batch : list (feature example)) :
  Forall (λ x, is_Some (fields_of x !! "input_ids")) batch →
  mapM (λ x, getitem (fields_of x) "input_ids") batch
  = Ok ((λ x, default (PyList []) (fields_of x !! "input_ids")) <$> batch)
  ∧ max_list (py_len <$> ((λ x, default (PyList []) (fields_of x !! "input_ids")) <$> batch))
    = max_raw_length "input_ids" (fields_of <$> batch).
Proof.
  intros Hall. rewrite Forall_forall in Hall. split.
  - apply mapM_result_fmap. intros x Hx. destruct (Hall x Hx) as [ids Hi].
    by rewrite (getitem_Some _ _ _ Hi), Hi.
  - unfold max_raw_length. f_equal. rewrite <-!list_fmap_compose.
    apply list_fmap_ext. intros i x Hx. simpl. unfold raw_length.
    destruct (Hall x ltac:(by eapply list_elem_of_lookup_2)) as [ids ->]. done.
Qed.

(** ** [torch.stack] on targets *)

Lemma torch_stack_not_tensor (ts : list target) :
  Exists (λ t, is_tensor t = false) ts → torch_stack ts = Raise TypeError.
Proof.
  intros Hex. unfold torch_stack. rewrite (mapM_result_raise _ TypeError); [done| |].
  - intros [[x|z]|kvs] e; [done|by intros [= <-]..].
  - eapply Exists_impl; [exact Hex|]. by intros [[x|z]|kvs].
Qed.


(** * Lemmas: the masking branch under any configuration *)

Lemma bernoulli_inv probs g bs g' :
  bernoulli probs g = Ok (bs, g') →
  bs = zip_with trial probs (draws g (length probs)) ∧ g' = advance g (length probs).
Proof. unfold bernoulli. destruct (forallb _ _); [|done]. by intros [= <- <-]. Qed.

Lemma advance_0 g : advance g 0 = g.
Proof. unfold advance. rewrite Nat.add_0_r. by destruct g. Qed.

Lemma trial_Qeq_zero p k : (p == 0)%Q → trial p k = false.
Proof.
  intros Hp. unfold trial. apply negb_false_iff, Qle_bool_iff.
  rewrite Hp. apply uniform_range.
Qed.

(** Whatever the configuration, a run of the masking branch that returns
    took [draws_used] draws and left a [masking_row]. *)
Lemma mask_values_inv c popped ids g sp ids' labels g' :
  special_flags c popped ids = Ok sp →
  length sp = length ids →
  mask_values c popped ids g = Ok (ids', labels, g') →
  g' = advance g (draws_used c (length ids)) ∧ masking_row c g ids sp ids' labels.
Proof.
  intros Hsp Hlen. pose (n := length ids).
  unfold masking_row. cbv zeta.
  unfold mask_values, draws_used. rewrite Hsp. cbn [mbind result_bind].
  unfold masked_fill. rewrite length_replicate, (broadcast_mask_same _ _ Hlen).
  cbn [mbind result_bind]. fold n.
  set (probs := assign_where sp 0%Q (replicate n (mlm_probability c))).
  assert (Hprobs_len : length probs = n).
  { unfold probs. rewrite length_assign_where; by rewrite length_replicate. }
  assert (Hprobs : ∀ (j : nat) (b : bool), sp !! j = Some b →
            probs !! j = Some (if b then 0%Q else mlm_probability c)).
  { intros j b Hb. unfold probs. apply lookup_assign_where; [done|].
    apply lookup_replicate_2. unfold n. rewrite <-Hlen. by eapply lookup_lt_Some. }
  destruct (bernoulli probs g) as [[masked g1]|] eqn:Hb1; [|done].
  apply bernoulli_inv in Hb1 as [-> ->]. rewrite Hprobs_len.
  cbn [mbind result_bind fst snd].
  set (masked := zip_with trial probs (draws g n)).
  assert (Hmasked : ∀ (j : nat) (b : bool), sp !! j = Some b →
            masked !! j = Some (negb b && trial (mlm_probability c) (draw_at g j))).
  { intros j b Hb. unfold masked. rewrite <-Hprobs_len.
    rewrite (lookup_bernoulli _ g _ _ (Hprobs j b Hb)).
    destruct b; simpl; [by rewrite trial_zero|done]. }
  assert (Hlabels : ∀ (j : nat) (tok : Z) (b : bool), ids !! j = Some tok → sp !! j = Some b →
            assign_where (negb <$> masked) (ignore_index c) ids !! j
            = Some (if negb b && trial (mlm_probability c) (draw_at g j)
                    then tok else ignore_index c)).
  { intros j tok b Htok Hb.
    erewrite lookup_assign_where; [|by rewrite list_lookup_fmap, (Hmasked j b Hb)|done].
    by destruct (negb b && _). }
  assert (Hkept : ∀ g2, Ok (ids, assign_where (negb <$> masked) (ignore_index c) ids, g2)
                        = Ok (ids', labels, g') →
            g' = g2 ∧ ∀ (j : nat) (tok : Z) (b : bool), ids !! j = Some tok → sp !! j = Some b →
              labels !! j = Some (if negb b && trial (mlm_probability c) (draw_at g j)
                                  then tok else ignore_index c)
              ∧ ∃ y, ids' !! j = Some y
                  ∧ (y = tok
                     ∨ (negb b && trial (mlm_probability c) (draw_at g j) = true
                        ∧ (y = mask_token_id (lm_tokenizer c)
                           ∨ ((0 < vocab_size (lm_tokenizer c))%Z
                              ∧ ∃ k, y = vocab_sample c k))))).
  { intros g2 [= <- <- <-]. split; [done|]. intros j tok b Htok Hb.
    split; [by apply Hlabels|]. exists tok. auto. }
  destruct (masked_to_mask c) as [q|]; [|apply Hkept].
  destruct (Qeq_bool q 0); cbn [negb]; [apply Hkept|]. clear Hkept.
  destruct (bernoulli (replicate n q) (advance g n)) as [[r g2]|] eqn:Hb2; [|done].
  apply bernoulli_inv in Hb2 as [-> ->]. rewrite length_replicate.
  cbn [mbind result_bind fst snd].
  set (r := zip_with trial (replicate n q) (draws (advance g n) n)).
  assert (Hr : ∀ j, j < n → r !! j = Some (trial q (draw_at g (n + j)))).
  { intros j Hj. unfold r. rewrite lookup_bernoulli_replicate by done.
    by rewrite draw_at_advance. }
  set (replaced := zip_with andb r masked).
  assert (Hreplaced : ∀ (j : nat) (b : bool), sp !! j = Some b →
            replaced !! j = Some (trial q (draw_at g (n + j))
                                  && (negb b && trial (mlm_probability c) (draw_at g j)))).
  { intros j b Hb. unfold replaced. rewrite lookup_zip_with, Hr, (Hmasked j b Hb); [done|].
    unfold n. rewrite <-Hlen. by eapply lookup_lt_Some. }
  destruct (apply_random_words c) eqn:Hrw.
  - destruct (bernoulli (replicate n (1 # 2)) (advance (advance g n) n))
      as [[r' g3]|] eqn:Hb3; [|done].
    apply bernoulli_inv in Hb3 as [-> ->]. rewrite length_replicate.
    cbn [mbind result_bind fst snd].
    unfold randint. destruct (0 <? vocab_size (lm_tokenizer c))%Z eqn:Hv; [|done].
    apply Z.ltb_lt in Hv. cbn [mbind result_bind fst snd].
    intros [= <- <- <-]. split.
    { rewrite !advance_advance. f_equal. lia. }
    intros j tok b Htok Hb. split; [by apply Hlabels|].
    assert (Hj : j < n) by (by eapply lookup_lt_Some).
    eexists. split.
    { eapply lookup_assign_from.
      + rewrite !lookup_zip_with, lookup_replicate_2, lookup_draws by done.
        rewrite (Hmasked j b Hb), list_lookup_fmap, (Hreplaced j b Hb).
        cbn [mbind option_bind fmap option_fmap option_map]. reflexivity.
      + rewrite list_lookup_fmap, lookup_draws by done.
        cbn [fmap option_fmap option_map]. reflexivity.
      + by apply lookup_assign_where; [apply Hreplaced|]. }
    destruct (negb b && trial (mlm_probability c) (draw_at g j)) eqn:Hm.
    + rewrite !andb_true_r.
      destruct (trial q (draw_at g (n + j))); cbn [negb andb].
      * rewrite andb_false_r. auto.
      * rewrite andb_true_r. destruct (trial (1 # 2) _); [|auto].
        right. split; [done|]. right. split; [done|]. eexists. reflexivity.
    + rewrite !andb_false_r. cbn [andb]. auto.
  - intros [= <- <- <-]. split.
    { rewrite !advance_advance. f_equal. lia. }
    intros j tok b Htok Hb. split; [by apply Hlabels|].
    eexists. split; [by apply lookup_assign_where; [apply Hreplaced|]|].
    destruct (negb b && trial (mlm_probability c) (draw_at g j)) eqn:Hm.
    + rewrite andb_true_r. destruct (trial q _); auto.
    + rewrite andb_false_r. auto.
Qed.

Lemma lm_examples_inv c vs g rows g' n :
  mlm c = true →
  Forall (λ v, length (v_ids v) = n) vs →
  flagged c vs →
  lm_examples c vs g = Ok (rows, g') →
  g' = advance g (draws_used c n * length vs)
  ∧ ∀ (k : nat) v sp row, vs !! k = Some v → rows !! k = Some row →
      special_flags c (v_special v) (v_ids v) = Ok sp →
      masking_row c (advance g (draws_used c n * k)) (v_ids v) sp row.1 row.2.
Proof.
  intros Hmlm Hn Hfl. revert g rows g'.
  induction vs as [|v vs IH]; intros g rows g'.
  - intros [= <- <-]. split; [|done]. by rewrite Nat.mul_0_r, advance_0.
  - apply Forall_cons in Hn as [Hv Hn].
    apply Forall_cons in Hfl as [(sp & Hsp & Hlen) Hfl].
    cbn [lm_examples]. unfold lm_example. rewrite Hmlm.
    destruct (mask_values c (v_special v) (v_ids v) g) as [[[ids' labels] g1]|] eqn:Hmv; [|done].
    destruct (mask_values_inv _ _ _ _ _ _ _ _ Hsp Hlen Hmv) as [-> Hrow].
    cbn [mbind result_bind fst snd]. rewrite Hv.
    destruct (lm_examples c vs (advance g (draws_used c n))) as [[rs g2]|] eqn:Hrs; [|done].
    destruct (IH Hn Hfl _ _ _ Hrs) as [-> Hpt].
    cbn [mbind result_bind fst snd]. intros [= <- <-]. split.
    + rewrite advance_advance. f_equal. simpl. lia.
    + intros k v' sp' row Hk Hrow' Hsp'. destruct k as [|k]; simpl in Hk, Hrow'.
      * injection Hk as <-. injection Hrow' as <-.
        rewrite Hsp in Hsp'. injection Hsp' as <-.
        by rewrite Nat.mul_0_r, advance_0.
      * specialize (Hpt k v' sp' row Hk Hrow' Hsp'). rewrite advance_advance in Hpt.
        by replace (draws_used c n * S k) with (draws_used c n + draws_used c n * k) by lia.
Qed.

(** A returning call with masking enabled, on a batch laid out in the
    store: the generator it leaves and the rows it returns. *)
Lemma lm_call_mlm_inv c batch σ g vs n m ret σ' g' :
  mlm c = true →
  placed σ batch vs n m →
  flagged c vs →
  lm_call c batch σ g = Ok (ret, σ', g') →
  g' = advance g (draws_used c n * length batch)
  ∧ length vs = length batch
  ∧ length (out_input_ids (returned_batch ret)) = length batch
  ∧ length (out_labels (returned_batch ret)) = length batch
  ∧ ∀ (k : nat) v, vs !! k = Some v →
      ∃ sp ids' labels,
        special_flags c (v_special v) (v_ids v) = Ok sp
        ∧ length sp = n
        ∧ out_input_ids (returned_batch ret) !! k = Some ids'
        ∧ out_labels (returned_batch ret) !! k = Some labels
        ∧ length ids' = n ∧ length labels = n
        ∧ masking_row c (advance g (draws_used c n * k)) (v_ids v) sp ids' labels.
Proof.
  intros Hmlm (Hvs & Hsep & Hshape) Hfl Hcall.
  destruct (lm_call_Ok c batch σ g vs n m ret σ' g' Hvs Hsep Hshape Hcall)
    as (Hkeep & Hne & rows & extra & Hex & Hextra).
  destruct (lm_call_run c batch σ g vs rows g' n m extra Hkeep Hne Hvs Hsep Hex
              Hshape Hextra) as (σ'' & Hcall' & Hlv & Hlr & _).
  rewrite Hcall in Hcall'. injection Hcall' as -> <-.
  rewrite returned_batch_result. cbn [out_input_ids out_labels].
  assert (Hn : Forall (λ v, length (v_ids v) = n) vs).
  { eapply Forall_impl; [exact Hshape|]. by intros v [? _]. }
  destruct (lm_examples_inv c vs g rows g' n Hmlm Hn Hfl Hex) as [Hg Hpt].
  split; [by rewrite <-Hlv|]. split; [done|].
  rewrite !length_fmap. split; [done|]. split; [done|].
  intros k v Hk.
  destruct (lookup_lt_is_Some_2 rows k) as [row Hrow].
  { rewrite Hlr, <-Hlv. by eapply lookup_lt_Some. }
  unfold flagged in Hfl. rewrite Forall_forall in Hfl.
  destruct (Hfl v (list_elem_of_lookup_2 _ _ _ Hk)) as (sp & Hsp & Hlen).
  rewrite Forall_forall in Hn. pose proof (Hn v (list_elem_of_lookup_2 _ _ _ Hk)) as Hnv.
  pose proof (lm_examples_rows _ _ _ _ _ Hex) as Hrl.
  destruct (Forall2_lookup_l _ _ _ _ _ Hrl Hk) as (row' & Hrow'' & Hl1 & Hl2).
  rewrite Hrow in Hrow''. injection Hrow'' as <-.
  exists sp, row.1, row.2. rewrite !list_lookup_fmap, Hrow.
  cbn [fmap option_fmap option_map].
  split; [done|]. split; [congruence|]. split; [done|]. split; [done|].
  split; [congruence|]. split; [congruence|]. by apply (Hpt k v sp row).
Qed.



(** Two batches of rows are equal when they have the same number of rows
    and every expected row is found, with its length and its items. *)
Lemma rows_eq {A} (out expected : list (list A)) :
  length out = length expected →
  (∀ (k : nat) row, expected !! k = Some row →
     ∃ r, out !! k = Some r ∧ length r = length row
          ∧ ∀ (j : nat) x, row !! j = Some x → r !! j = Some x) →
  out = expected.
Proof.
  intros Hlen Hrows. apply (list_eq_same_length _ _ (length expected)); [done..|].
  intros k r row _ Hr Hrow. destruct (Hrows k row Hrow) as (r' & Hr' & Hl & Hitems).
  rewrite Hr in Hr'. injection Hr' as <-.
  apply (list_eq_same_length _ _ (length row)); [done..|].
  intros j x y _ Hx Hy. rewrite (Hitems j y Hy) in Hx. by injection Hx.
Qed.

(** * Lemmas: what follows the loop leaves the state alone *)

Lemma preserving_ret {A} (a : A) : state_preserving (mret a : M A).
Proof. intros s a' s'. rewrite ret_run. by intros [= _ <-]. Qed.

Lemma preserving_lift {A} (r : result A) : state_preserving (lift r).
Proof. intros s a s'. rewrite lift_run. destruct r; [|done]. by intros [= _ <-]. Qed.

Lemma preserving_get_state : state_preserving get_state.
Proof. intros s a s'. unfold get_state. by intros [= _ <-]. Qed.

Lemma preserving_read l : state_preserving (read l).
Proof.
  intros s a s'. unfold read. destruct (tensors (st_store s) !! l); [|done].
  by intros [= _ <-].
Qed.

Lemma preserving_bind {A B} (m : M A) (f : A → M B) :
  state_preserving m → (∀ a, state_preserving (f a)) → state_preserving (m ≫= f).
Proof.
  intros Hm Hf s b s'. rewrite bind_run.
  destruct (m s) as [[a s1]|] eqn:Hms; [|done].
  rewrite (Hm _ _ _ Hms). apply Hf.
Qed.

Lemma preserving_fmap {A B} (m : M A) (f : A → B) :
  state_preserving m → state_preserving (f <$> m).
Proof.
  intros Hm s b s'. rewrite fmap_run.
  destruct (m s) as [[a s1]|] eqn:Hms; [|done].
  rewrite (Hm _ _ _ Hms). by intros [= _ <-].
Qed.

Lemma preserving_mapM {A B} (f : A → M B) l :
  (∀ x, state_preserving (f x)) → state_preserving (mapM f l).
Proof.
  intros Hf. induction l as [|x l IH]; [apply preserving_ret|].
  apply preserving_bind; [apply Hf|]. intros y.
  apply preserving_bind; [apply IH|]. intros k. apply preserving_ret.
Qed.

Lemma preserving_stack_locs ls : state_preserving (stack_locs ls).
Proof.
  apply preserving_bind; [apply preserving_mapM, preserving_read|].
  intros rows. apply preserving_lift.
Qed.

Lemma preserving_finish c : state_preserving (lm_finish c).
Proof.
  apply preserving_bind; [apply preserving_get_state|]. intros s.
  apply preserving_bind; [apply preserving_stack_locs|]. intros i.
  apply preserving_bind; [apply preserving_stack_locs|]. intros a.
  apply preserving_bind; [apply preserving_stack_locs|]. intros l.
  apply preserving_bind.
  { destruct (keep_original_input c);
      [apply preserving_fmap, preserving_stack_locs|apply preserving_ret]. }
  intros u. cbv zeta. case_bool_decide.
  - apply preserving_bind; [apply preserving_lift|]. intros e. apply preserving_ret.
  - apply preserving_ret.
Qed.

(** The store and the generator a returning call leaves are those the
    loop left. *)
Lemma lm_call_loop_state c batch σ g ret σ' g' :
  lm_call c batch σ g = Ok (ret, σ', g') →
  ∃ s', lm_loop c batch (lm_initial σ g) = Ok (tt, s')
        ∧ st_store s' = σ' ∧ st_gen s' = g'.
Proof.
  unfold lm_call. rewrite bind_run.
  destruct (lm_loop c batch (lm_initial σ g)) as [[[] s1]|] eqn:Hloop; [|done].
  destruct (lm_finish c s1) as [[r s2]|] eqn:Hfin; [|done].
  rewrite (preserving_finish c _ _ _ Hfin). intros [= _ <- <-]. eauto.
Qed.

(** What a returning call leaves of the store it was given. *)
Lemma lm_call_frame c batch σ g vs n m ret σ' g' :
  placed σ batch vs n m →
  lm_call c batch σ g = Ok (ret, σ', g') →
  length (tensors σ') = length (tensors σ) + length batch
  ∧ (∀ l, l < length (tensors σ) → l ∉ (v_input <$> vs) →
       tensors σ' !! l = tensors σ !! l)
  ∧ (∀ d, d ∉ (v_dict <$> vs) → dicts σ' !! d = dicts σ !! d)
  ∧ out_attention_mask (returned_batch ret) = v_am <$> vs.
Proof.
  intros (Hvs & Hsep & Hshape) Hcall.
  destruct (lm_call_Ok c batch σ g vs n m ret σ' g' Hvs Hsep Hshape Hcall)
    as (Hkeep & Hne & rows & extra & Hex & Hextra).
  destruct (lm_call_run c batch σ g vs rows g' n m extra Hkeep Hne Hvs Hsep Hex
              Hshape Hextra) as (σ'' & Hcall' & Hlv & _).
  rewrite Hcall in Hcall'. injection Hcall' as -> _.
  rewrite returned_batch_result. cbn [out_attention_mask].
  destruct (lm_call_loop_state c batch σ g _ σ' g' Hcall) as (s' & Hloop & <- & _).
  destruct σ as [ts ds]. unfold lm_initial in Hloop.
  destruct (lm_loop_run c Hkeep batch vs ts ds g None [] [] [] [] [] rows g' Hvs Hsep Hex)
    as (s'' & Hloop' & _ & _ & _ & _ & _ & _ & Hlen & _ & Hframe & Hdframe).
  rewrite Hloop in Hloop'. injection Hloop' as <-.
  cbn [tensors dicts]. rewrite <-Hlv. done.
Qed.

Lemma lm_feature_strip c x s : lm_feature c (strip_target x) s = lm_feature c x s.
Proof.
  destruct x as [d|d [o|[|kv kvs]]]; try reflexivity;
    unfold lm_feature, strip_target; rewrite !bind_run;
    destruct ((if keep_original_input c then _ else _) s) as [[[] [σ g cf ol il al ll et]]|];
    reflexivity.
Qed.

Lemma lm_loop_strip c batch s :
  lm_loop c (strip_target <$> batch) s = lm_loop c batch s.
Proof.
  revert s. induction batch as [|x batch IH]; intros s; [done|].
  rewrite fmap_cons. cbn [lm_loop]. rewrite !bind_run, lm_feature_strip.
  destruct (lm_feature c x s) as [[[] s1]|]; [apply IH|done].
Qed.



(** * Lemmas: the auxiliary targets *)

Lemma defaultdict_append_keys k v d :
  (defaultdict_append k v d).*1 = if decide (k ∈ d.*1) then d.*1 else d.*1 ++ [k].
Proof.
  induction d as [|[k' vs] d IH]; [done|]. cbn [defaultdict_append].
  destruct (String.eqb_spec k k') as [->|Hne].
  - rewrite decide_True; [done|]. simpl. left.
  - rewrite fmap_cons, IH. cbn [fst]. destruct (decide (k ∈ d.*1)) as [Hin|Hnin].
    + rewrite decide_True; [done|]. simpl. by right.
    + rewrite decide_False; [done|]. simpl. by intros [?|?]%elem_of_cons.
Qed.

Lemma defaultdict_append_NoDup k v d :
  NoDup d.*1 → NoDup (defaultdict_append k v d).*1.
Proof.
  intros Hnd. rewrite defaultdict_append_keys. destruct (decide (k ∈ d.*1)); [done|].
  apply NoDup_app. split; [done|]. split; [|apply NoDup_singleton].
  intros x Hx Hx'%list_elem_of_singleton. by subst.
Qed.

Lemma values_in_absent key d : key ∉ d.*1 → values_in key d = [].
Proof.
  intros Hnin. unfold values_in. induction d as [|[k' vs] d IH]; [done|].
  rewrite filter_cons. cbn [fst]. destruct (decide (k' = key)) as [->|Hne].
  - exfalso. apply Hnin. simpl. left.
  - apply IH. intros Hin. apply Hnin. simpl. by right.
Qed.

Lemma values_in_append key k v d :
  NoDup d.*1 →
  values_in key (defaultdict_append k v d)
  = values_in key d ++ (if decide (k = key) then [v] else []).
Proof.
  intros Hnd. induction d as [|[k' vs] d IH].
  - unfold values_in. cbn [defaultdict_append]. rewrite filter_cons. cbn [fst].
    destruct (decide (k = key)); done.
  - apply NoDup_cons in Hnd as [Hnin Hnd]. cbn [fst] in Hnin.
    cbn [defaultdict_append]. destruct (String.eqb_spec k k') as [->|Hne].
    + unfold values_in. rewrite !filter_cons. cbn [fst].
      destruct (decide (k' = key)) as [->|Hne'].
      * rewrite !fmap_cons. cbn [snd concat].
        fold (values_in key d). rewrite (values_in_absent key d Hnin).
        by rewrite !app_nil_r.
      * by rewrite app_nil_r.
    + unfold values_in in *. rewrite !filter_cons. cbn [fst].
      destruct (decide (k' = key)) as [->|Hne'].
      * rewrite !fmap_cons. cbn [snd concat]. rewrite IH by done.
        by rewrite app_assoc.
      * by apply IH.
Qed.

Lemma values_for_snoc key items k v :
  values_for key (items ++ [(k, v)])
  = values_for key items ++ (if decide (k = key) then [v] else []).
Proof.
  unfold values_for. rewrite filter_app, fmap_app. f_equal.
  rewrite filter_cons. cbn [fst]. by destruct (decide (k = key)).
Qed.

(** Appending the entries [items] one by one keeps the keys distinct and
    extends the values of every key by the values given for it, in
    order. *)
Lemma defaultdict_fold d items :
  NoDup d.*1 →
  let d' := foldl (λ d kv, defaultdict_append kv.1 kv.2 d) d items in
  NoDup d'.*1
  ∧ (∀ key, values_in key d' = values_in key d ++ values_for key items)
  ∧ (∀ key, key ∈ d'.*1 ↔ key ∈ d.*1 ∨ key ∈ items.*1).
Proof.
  intros Hnd. cbv zeta. induction items as [|[k v] items IH] using rev_ind.
  - split; [done|]. split; [intros key; by rewrite app_nil_r|].
    intros key. split; [auto|]. intros [?|Hin]; [done|]. by apply elem_of_nil in Hin.
  - destruct IH as (IH1 & IH2 & IH3). rewrite foldl_app. cbn [foldl fst snd].
    split; [by apply defaultdict_append_NoDup|]. split.
    + intros key. rewrite values_in_append, IH2, values_for_snoc by done.
      by rewrite app_assoc.
    + intros key. rewrite defaultdict_append_keys, fmap_app, elem_of_app.
      cbn [fmap list_fmap fst]. rewrite list_elem_of_singleton.
      destruct (decide (k ∈ _)) as [Hin|Hnin].
      * rewrite IH3. split; [tauto|]. intros [?|[?| ->]]; [tauto|tauto|].
        by apply IH3.
      * rewrite elem_of_app, IH3, list_elem_of_singleton. tauto.
Qed.

Lemma extras_of_fold batch et :
  extras_of batch et
  = foldl (λ d kv, defaultdict_append kv.1 kv.2 d) et (batch_items batch).
Proof.
  unfold extras_of, batch_items. revert et.
  induction batch as [|x batch IH]; intros et; [done|].
  rewrite fmap_cons. cbn [foldl concat]. rewrite foldl_app, IH. f_equal.
  unfold extra_after, target_items. by destruct (target_of x) as [[o|kvs]|].
Qed.

Lemma values_in_entry key vs d :
  NoDup d.*1 → (key, vs) ∈ d → values_in key d = vs.
Proof.
  intros Hnd Hin. induction d as [|[k' vs'] d IH]; [by apply elem_of_nil in Hin|].
  apply NoDup_cons in Hnd as [Hnin Hnd]. cbn [fst] in Hnin.
  unfold values_in. rewrite filter_cons. cbn [fst].
  apply elem_of_cons in Hin as [[= <- <-]|Hin].
  - rewrite decide_True by done. rewrite fmap_cons. cbn [snd concat].
    fold (values_in key d). by rewrite (values_in_absent key d Hnin), app_nil_r.
  - destruct (decide (k' = key)) as [->|Hne]; [|by apply IH].
    exfalso. apply Hnin. apply list_elem_of_fmap. by exists (key, vs).
Qed.

(** The auxiliary targets of a batch: one entry per key given, holding
    the values given for the key in the order of the batch. *)
Lemma extras_of_spec batch :
  let d := extras_of batch [] in
  NoDup d.*1
  ∧ (∀ key, key ∈ d.*1 ↔ key ∈ (batch_items batch).*1)
  ∧ (∀ key vs, (key, vs) ∈ d → vs = values_for key (batch_items batch)).
Proof.
  cbv zeta. rewrite extras_of_fold.
  destruct (defaultdict_fold [] (batch_items batch)) as (Hnd & Hval & Hkeys);
    [apply NoDup_nil_2|].
  split; [done|]. split.
  - intros key. rewrite Hkeys. split; [|auto]. intros [Hin|?]; [|done].
    by apply elem_of_nil in Hin.
  - intros key vs Hin. rewrite <-(values_in_entry key vs _ Hnd Hin). by rewrite Hval.
Qed.

Lemma stack_extra_inv d extra :
  stack_extra d = Ok extra →
  extra.*1 = d.*1
  ∧ ∀ key t, (key, t) ∈ extra →
      ∃ vs, (key, vs) ∈ d ∧ torch_stack (TgtObj <$> vs) = Ok t.
Proof.
  unfold stack_extra. intros Hm%mapM_result_Ok.
  induction Hm as [|[k vs] [k' t] d extra Hkv _ [IH1 IH2]].
  - split; [done|]. intros key t Hin. by apply elem_of_nil in Hin.
  - cbn [fst snd] in Hkv. destruct (torch_stack (TgtObj <$> vs)) as [t'|] eqn:Hst; [|done].
    rewrite bind_Ok in Hkv. injection Hkv as <- <-.
    split; [by rewrite !fmap_cons, IH1|].
    intros key t0 [[= -> ->]|Hin]%elem_of_cons.
    + exists vs. split; [left|done].
    + destruct (IH2 key t0 Hin) as (vs0 & Hin0 & Hst0). exists vs0. split; [by right|done].
Qed.

(** * Lemmas: when the masking branch returns *)

Lemma masking_probabilities c sp n :
  is_probability (mlm_probability c) = true →
  length sp = n →
  forallb is_probability (assign_where sp 0%Q (replicate n (mlm_probability c))) = true.
Proof.
  intros Hp Hlen. apply forallb_forall.
  intros p [j Hj]%list_elem_of_In%list_elem_of_lookup.
  unfold assign_where in Hj. apply lookup_zip_with_Some in Hj as (b & x & -> & _ & Hx).
  apply lookup_replicate in Hx as [-> _]. by destruct b.
Qed.

Lemma mask_values_returns c popped ids g sp :
  special_flags c popped ids = Ok sp →
  length sp = length ids →
  is_probability (mlm_probability c) = true →
  match masked_to_mask c with
  | PyFloat q =>
      Qeq_bool q 0 = false →
      is_probability q = true
      ∧ (apply_random_words c = true → (0 < vocab_size (lm_tokenizer c))%Z)
  | NotFloat => True
  end →
  is_ok (mask_values c popped ids g) = true.
Proof.
  intros Hsp Hlen Hp Hq.
  destruct (masked_to_mask c) as [q|] eqn:Hmm.
  - destruct (Qeq_bool q 0) eqn:Hq0.
    + unfold mask_values. rewrite Hsp, bind_Ok. unfold masked_fill.
      rewrite length_replicate, (broadcast_mask_same _ _ Hlen), bind_Ok, bind_Ok.
      rewrite bernoulli_run by (by apply masking_probabilities).
      rewrite bind_Ok. cbv zeta. by rewrite Hmm, Hq0.
    + destruct (Hq eq_refl) as [Hqp Hv].
      destruct (mask_values_pointwise c popped ids g sp q Hsp Hlen Hp Hmm Hq0 Hqp Hv)
        as (ids' & labels & -> & _). done.
  - unfold mask_values. rewrite Hsp, bind_Ok. unfold masked_fill.
    rewrite length_replicate, (broadcast_mask_same _ _ Hlen), bind_Ok, bind_Ok.
    rewrite bernoulli_run by (by apply masking_probabilities).
    rewrite bind_Ok. cbv zeta. by rewrite Hmm.
Qed.

Lemma lm_examples_returns c vs g :
  mlm c = true →
  is_probability (mlm_probability c) = true →
  match masked_to_mask c with
  | PyFloat q =>
      Qeq_bool q 0 = false →
      is_probability q = true
      ∧ (apply_random_words c = true → (0 < vocab_size (lm_tokenizer c))%Z)
  | NotFloat => True
  end →
  flagged c vs →
  ∃ rows g', lm_examples c vs g = Ok (rows, g').
Proof.
  intros Hmlm Hp Hq Hfl. revert g. induction Hfl as [|v vs (sp & Hsp & Hlen) _ IH]; intros g.
  - by eexists _, _.
  - cbn [lm_examples]. unfold lm_example. rewrite Hmlm.
    pose proof (mask_values_returns c (v_special v) (v_ids v) g sp Hsp Hlen Hp Hq) as Hok.
    destruct (mask_values c (v_special v) (v_ids v) g) as [[[ids' labels] g1]|]; [|done].
    rewrite bind_Ok. cbn [fst snd]. destruct (IH g1) as (rows & g' & ->).
    rewrite bind_Ok. by eexists _, _.
Qed.

Lemma wf_example_fields f : wf_example f = true → wf_fields f = true.
Proof.
  intros (ids & am & labs & Hi & Ha & _ & Hlen & _)%wf_example_lookup.
  unfold wf_fields. rewrite Hi, Ha. by apply bool_decide_eq_true.
Qed.

(** * Lemmas: what the masking branch writes, exactly *)




(** * Properties: the padding collators *)

(** C1. On the documented scenario (A: input ids [5,6,7], labels [1,2];
    B: input ids [5,6], labels [1,2,3,4]; attention masks of ones; pad
    token 0, label pad -100, padding side right) [DataCollatorForSeq2Seq]
    returns input ids [[5,6,7],[5,6,0]], attention mask
    [[1,1,1],[1,1,0]] and labels [[1,2,-100,-100],[1,2,3,4]], whether the
    fields are Python lists or arrays. *)
Theorem seq2seq_scenario :
  seq2seq_call (scenario_collator "right") (scenario_batch PyList)
  = Ok (Seq2SeqBatch [[5;6;7];[5;6;0]]%Z [[1;1;1];[1;1;0]]%Z
          [[1;2;-100;-100];[1;2;3;4]]%Z)
  ∧ seq2seq_call (scenario_collator "right") (scenario_batch NdArray)
  = Ok (Seq2SeqBatch [[5;6;7];[5;6;0]]%Z [[1;1;1];[1;1;0]]%Z
          [[1;2;-100;-100];[1;2;3;4]]%Z).
Proof. split; vm_compute; reflexivity. Qed.



(** C3. With padding side left, the branch taken for examples whose
    labels are Python lists still appends the fill: on the scenario of C1
    with lists the collator returns right-padded rows, where the same
    examples held as arrays are padded on the left. *)
Theorem seq2seq_left_side_on_lists :
  seq2seq_call (scenario_collator "left") (scenario_batch PyList)
  = Ok (Seq2SeqBatch [[5;6;7];[5;6;0]]%Z [[1;1;1];[1;1;0]]%Z
          [[1;2;-100;-100];[1;2;3;4]]%Z)
  ∧ seq2seq_call (scenario_collator "left") (scenario_batch NdArray)
  = Ok (Seq2SeqBatch [[5;6;7];[0;5;6]]%Z [[1;1;1];[0;1;1]]%Z
          [[-100;-100;1;2];[1;2;3;4]]%Z).
Proof. split; vm_compute; reflexivity. Qed.

(** C8 as stated fails: the data model lets the target of a pair be a
    plain value, and on a non-empty batch whose only example is paired
    with the plain value 1 [DataCollatorForLongestSequence] returns no
    pair: [torch.stack] raises [TypeError] on a target that is not a
    tensor. *)
Lemma longest_plain_target_raises :
  let batch :=
    [Paired (mk_example NdArray [5; 6]%Z [1; 1]%Z []) (TgtObj (ObjInt 1))] in
  batch ≠ []
  ∧ Exists (λ x, is_Some (target_of x)) batch
  ∧ longest_call (longest_init (scenario_tokenizer "right")) batch = Raise TypeError
  ∧ ¬ ∃ output labels,
        longest_call (longest_init (scenario_tokenizer "right")) batch
        = Ok (ReturnPair output labels).
Proof.
  cbv zeta. split; [done|]. split; [apply Exists_cons_hd; by eexists|].
  split; [vm_compute; reflexivity|].
  intros (output & labels & H). vm_compute in H. discriminate.
Qed.

(** C8, amended. On every non-empty batch of well-formed examples of
    [int64] items, with an [int64] pad token, whose paired targets are
    tensors of one shape, [DataCollatorForLongestSequence] returns the
    mapping alone when no example is a tuple, and a pair of the mapping
    and the targets stacked in batch order when some example is a tuple.
    The mapping is the same in both cases: one row per example, each of
    the width of the longest input ids; and when the pad token and the
    items are of magnitude at most [2^53] its rows are the fields padded
    on the configured side. *)
Theorem longest_return_shape c p sh batch :
  batch ≠ [] →
  ls_pad_token_id c = Some p →
  is_int64 p = true →
  Forall (λ x, wf_fields (fields_of x) = true) batch →
  Forall (λ x, int64_fields (fields_of x) = true) batch →
  Forall (tensor_of_shape sh) (omap target_of batch) →
  let n := max_raw_length "input_ids" (fields_of <$> batch) in
  let right := String.eqb (ls_padding_side c) "right" in
  ∃ output,
    length (lb_input_ids output) = length batch
    ∧ length (lb_attention_mask output) = length batch
    ∧ Forall (λ r, length r = n) (lb_input_ids output)
    ∧ Forall (λ r, length r = n) (lb_attention_mask output)
    ∧ (exact_int p = true →
       Forall (λ x, exact_fields (fields_of x) = true) batch →
       output =
         LongestBatch
           ((λ x, pad_to right n p (field "input_ids" (fields_of x))) <$> batch)
           ((λ x, pad_to right n 0 (field "attention_mask" (fields_of x))) <$> batch))
    ∧ (Forall (λ x, target_of x = None) batch →
       longest_call c batch = Ok (ReturnBatch output))
    ∧ (Exists (λ x, is_Some (target_of x)) batch →
       longest_call c batch
       = Ok (ReturnPair output
               (Tensor (length (omap target_of batch) :: sh)
                  (concat (target_data <$> omap target_of batch))))).
Proof.
  intros Hne Hp _ Hwf _ Hts n right.
  pose proof (longest_call_wf c p batch Hne Hp Hwf) as Hcall. cbv zeta in Hcall.
  fold n in Hcall.
  assert (Hmi : ∀ x, x ∈ batch → length (field "input_ids" (fields_of x)) ≤ n).
  { intros x Hx. rewrite <-raw_length_field. apply max_list_ge.
    apply list_elem_of_fmap. exists (fields_of x). split; [done|].
    apply list_elem_of_fmap. eauto. }
  assert (Hma : ∀ x, x ∈ batch → length (field "attention_mask" (fields_of x)) ≤ n).
  { intros x Hx. specialize (Hmi x Hx). rewrite Forall_forall in Hwf.
    destruct (wf_fields_lookup _ (Hwf x Hx)) as (ids & am & Hi & Ha & Hlen).
    unfold field in *. rewrite Hi in Hmi. rewrite Ha. unfold py_len in Hlen.
    simpl in *. lia. }
  exists (LongestBatch
            ((λ x, longest_row c (fields_of x) "input_ids" n p) <$> batch)
            ((λ x, longest_row c (fields_of x) "attention_mask" n 0) <$> batch)).
  rewrite Hcall. cbn [lb_input_ids lb_attention_mask].
  rewrite !length_fmap.
  split; [done|]. split; [done|].
  split; [apply Forall_fmap, Forall_forall; intros x Hx; simpl;
          by apply length_longest_row, Hmi|].
  split; [apply Forall_fmap, Forall_forall; intros x Hx; simpl;
          by apply length_longest_row, Hma|].
  split; [|split].
  - intros Hep Hex. rewrite Forall_forall in Hex.
    f_equal; apply list_fmap_ext; intros i x Hx;
      destruct (andb_prop _ _ (Hex x (list_elem_of_lookup_2 _ _ _ Hx))) as [Hi Ha];
      by apply longest_row_exact.
  - intros Hnone.
    assert (omap target_of batch = []) as ->; [|done].
    clear -Hnone. induction Hnone as [|x l Hx _ IH]; [done|].
    simpl. by rewrite Hx.
  - intros Hsome.
    assert (Hne' : omap target_of batch ≠ []).
    { clear -Hsome. induction Hsome as [x l [t Hx]|x l _ IH]; simpl.
      - by rewrite Hx.
      - destruct (target_of x); [done|]. exact IH. }
    rewrite bool_decide_true by (destruct (omap target_of batch); simpl; [done|lia]).
    rewrite (torch_stack_tensors sh) by done. done.
Qed.

Lemma longest_return_shape_witness :
  longest_call (LongestSequence (Some 0%Z) "left")
    [Plain (mk_example NdArray [5;6;7]%Z [1;1;1]%Z []);
     Paired (mk_example PyList [5;6]%Z [1;1]%Z []) (TgtObj (ObjTensor (Tensor [] [1%Z])));
     Paired (mk_example PyList [8]%Z [1]%Z []) (TgtObj (ObjTensor (Tensor [] [0%Z])))]
  = Ok (ReturnPair (LongestBatch [[5;6;7];[0;5;6];[0;0;8]]%Z [[1;1;1];[0;1;1];[0;0;1]]%Z)
          (Tensor [2] [1;0]%Z)).
Proof.
  destruct (longest_return_shape (LongestSequence (Some 0%Z) "left") 0%Z []
    [Plain (mk_example NdArray [5;6;7]%Z [1;1;1]%Z []);
     Paired (mk_example PyList [5;6]%Z [1;1]%Z []) (TgtObj (ObjTensor (Tensor [] [1%Z])));
     Paired (mk_example PyList [8]%Z [1]%Z []) (TgtObj (ObjTensor (Tensor [] [0%Z])))])
    as (output & _ & _ & _ & _ & Hrows & _ & Hpair).
  - discriminate.
  - reflexivity.
  - reflexivity.
  - repeat constructor.
  - repeat constructor.
  - repeat constructor; eexists; reflexivity.
  - rewrite Hpair; [|apply Exists_cons_tl, Exists_cons_hd; eexists; reflexivity].
    rewrite Hrows; [|reflexivity|repeat constructor].
    vm_compute. reflexivity.
Defined.

(** * Properties: empty batches *)

(** C6. Each of the three collators raises on an empty batch: the two
    padding collators when they take the maximum of no lengths, the
    language modelling collator when it stacks no tensors. *)
Theorem empty_batch_raises c1 c2 c3 σ g :
  seq2seq_call c1 [] = Raise ValueError
  ∧ longest_call c2 [] = Raise ValueError
  ∧ lm_call c3 [] σ g = Raise RuntimeError.
Proof. repeat split. Qed.

(** * Properties: the language modelling collator *)

(** A concrete batch of one example is [placed] when evaluation finds its
    view and its three tensors are distinct. *)
Ltac placed_single :=
  split; [reflexivity|]; split;
  [ split; [apply NoDup_singleton|];
    repeat constructor; [by intros ?%list_elem_of_singleton|];
    let l := fresh "l" in
    let Hl := fresh "Hl" in
    intros l Hl; vm_compute in Hl;
    first [ discriminate
          | injection Hl as <-; by intros ?%list_elem_of_singleton ]
  | repeat constructor ].






(** C4. With masking disabled the labels are a copy of the input ids in
    which the pad positions hold the constant -100, whatever the
    configured ignore index: on the example [101, 5, 0] with pad token 0
    the labels are [101, 5, -100] for every ignore index, and the input
    ids come back unchanged. *)
Theorem lm_copy_labels_constant :
  ∀ ignore fraction words g, ∃ σ',
    lm_call (LanguageModeling bert_like false (15 # 100) ignore fraction words false)
      [Plain 0] one_example g
    = Ok (LmReturnBatch
            (LmBatch [[101; 5; 0]%Z] [[1; 1; 0]%Z] [[101; 5; -100]%Z] None),
          σ', g).
Proof. intros ignore fraction words g. eexists. vm_compute. reflexivity. Qed.

(** C5. With [keep_original_input] enabled the call on a non-empty batch
    raises: the first iteration reads the local [_feature] before any
    assignment to it. *)
Theorem lm_keep_original_input_raises c batch σ g :
  keep_original_input c = true →
  batch ≠ [] →
  lm_call c batch σ g = Raise UnboundLocalError.
Proof.
  intros Hkeep Hne. destruct batch as [|x batch]; [done|].
  unfold lm_call. cbn [lm_loop]. rewrite !bind_run. unfold lm_feature.
  rewrite Hkeep, !bind_run. reflexivity.
Qed.

Lemma lm_keep_original_input_raises_witness :
  lm_call (LanguageModeling bert_like true (15 # 100) (-100) (PyFloat (8 # 10)) true true)
    [Plain 0] one_example zero_draws
  = Raise UnboundLocalError.
Proof. apply lm_keep_original_input_raises; [reflexivity|discriminate]. Defined.



(** * Further properties: the padding collators *)

(** X1. [DataCollatorForSeq2Seq] raises [KeyError] whenever some example
    of the batch has no [input_ids] or no [labels], whatever the other
    examples hold. *)
Theorem seq2seq_missing_field c (batch : list example) :
  Exists (λ f : example, f !! "input_ids" = None ∨ f !! "labels" = None) batch →
  seq2seq_call c batch = Raise KeyError.
Proof.
  intros Hex. unfold seq2seq_call, seq2seq_collect.
  rewrite (mapM_result_raise _ KeyError); [done| |].
  - intros f e. destruct (getitem f "input_ids") as [i|e1] eqn:Hi.
    + rewrite bind_Ok. destruct (getitem f "labels") as [l|e2] eqn:Hl; [done|].
      rewrite bind_Raise. intros [= <-]. by eapply getitem_raises.
    + rewrite bind_Raise. intros [= <-]. by eapply getitem_raises.
  - eapply Exists_impl; [exact Hex|]. intros f [Hi|Hl].
    + by rewrite (getitem_None _ _ Hi).
    + rewrite (getitem_None _ _ Hl). by destruct (getitem f "input_ids").
Qed.

Lemma seq2seq_missing_field_witness :
  seq2seq_call (scenario_collator "right")
    [mk_example PyList [5; 6]%Z [1; 1]%Z [1]%Z;
     <["input_ids" := PyList [5]%Z]> (<["attention_mask" := PyList [1]%Z]> ∅)]
  = Raise KeyError.
Proof.
  apply seq2seq_missing_field. apply Exists_cons_tl, Exists_cons_hd.
  right. reflexivity.
Defined.

(** X2. A batch whose examples all have the same number of input ids and
    the same number of labels, and hold integers of magnitude at most
    [2^53], comes back from [DataCollatorForSeq2Seq] unchanged, row for
    row, whatever the pad token is; a tokenizer without a pad token is
    enough for such a batch.  The bound is needed: an array concatenated
    with an empty fill goes through doubles. *)
Theorem seq2seq_equal_lengths_unchanged c (batch : list example) n l :
  batch ≠ [] →
  Forall (λ f, wf_example f = true) batch →
  Forall (λ f, exact_example f = true) batch →
  Forall (λ f, raw_length "input_ids" f = n ∧ raw_length "labels" f = l) batch →
  seq2seq_call c batch =
    Ok (Seq2SeqBatch (field "input_ids" <$> batch)
                     (field "attention_mask" <$> batch)
                     (field "labels" <$> batch)).
Proof.
  intros Hne Hwf Hex Hlen. unfold seq2seq_call.
  destruct (seq2seq_collect_wf batch Hwf) as (collected & -> & H1 & H2).
  cbn [mbind result_bind]. rewrite H1, H2.
  rewrite !py_max_nonempty by (by destruct batch).
  cbn [mbind result_bind].
  rewrite (max_list_const n (raw_length "input_ids" <$> batch)),
    (max_list_const l (raw_length "labels" <$> batch));
    [|by destruct batch|apply Forall_fmap; eapply Forall_impl; [exact Hlen|by intros ? [??]; simpl]
     |by destruct batch|apply Forall_fmap; eapply Forall_impl; [exact Hlen|by intros ? [??]; simpl]].
  rewrite Forall_forall in Hwf. rewrite Forall_forall in Hlen.
  rewrite Forall_forall in Hex.
  erewrite mapM_result_fmap; last first.
  { intros f Hf. destruct (Hlen f Hf) as [Hn Hl].
    apply (seq2seq_pad_full c n l f (Hwf f Hf) (Hex f Hf)); lia. }
  cbn [mbind result_bind]. rewrite <-!list_fmap_compose.
  assert (Ham : ∀ f, f ∈ batch → length (field "attention_mask" f) = n).
  { intros f Hf. destruct (Hlen f Hf) as [Hn _].
    destruct (wf_example_lookup f (Hwf f Hf)) as (ids & am & labs & Hi & Ha & _ & Hl & _).
    unfold raw_length, field in *. rewrite Hi in Hn. rewrite Ha.
    unfold py_len in *. simpl in *. lia. }
  rewrite (stack_padded n (field "input_ids"))
    by (try done; intros f Hf; rewrite <-raw_length_field; by apply Hlen).
  cbn [mbind result_bind].
  rewrite (stack_padded n (field "attention_mask")) by done.
  cbn [mbind result_bind].
  rewrite (stack_padded l (field "labels"))
    by (try done; intros f Hf; rewrite <-raw_length_field; by apply Hlen).
  done.
Qed.

Lemma seq2seq_equal_lengths_unchanged_witness :
  seq2seq_call (seq2seq_init (Tokenizer None "left" 103 1000 (λ _, Ok [])) (-100))
    [mk_example NdArray [5; 6]%Z [1; 1]%Z [1]%Z;
     mk_example PyList [7; 8]%Z [1; 0]%Z [2]%Z]
  = Ok (Seq2SeqBatch [[5; 6]; [7; 8]]%Z [[1; 1]; [1; 0]]%Z [[1]; [2]]%Z).
Proof.
  rewrite (seq2seq_equal_lengths_unchanged _ _ 2 1).
  - vm_compute. reflexivity.
  - done.
  - repeat constructor.
  - repeat constructor.
  - repeat constructor.
Defined.

(** X3. With a tokenizer that has no pad token,
    [DataCollatorForSeq2Seq] raises [TypeError] on every batch of
    well-formed examples in which some example has fewer input ids than
    another: the fill value [None] cannot be stored in an integer
    tensor. *)
Theorem seq2seq_no_pad_token c (batch : list example) :
  s2s_pad_token_id c = None →
  Forall (λ f, wf_example f = true) batch →
  Exists (λ f, raw_length "input_ids" f < max_raw_length "input_ids" batch) batch →
  seq2seq_call c batch = Raise TypeError.
Proof.
  intros Hp Hwf Hshort. unfold seq2seq_call.
  assert (Hne : batch ≠ []) by (intros ->; inversion Hshort).
  destruct (seq2seq_collect_wf batch Hwf) as (collected & -> & H1 & H2).
  cbn [mbind result_bind]. rewrite H1, H2.
  rewrite !py_max_nonempty by (by destruct batch).
  cbn [mbind result_bind]. fold (max_raw_length "labels" batch).
  fold (max_raw_length "input_ids" batch).
  set (mi := max_raw_length "input_ids" batch) in *.
  set (ml := max_raw_length "labels" batch).
  destruct (mapM_result_cases (seq2seq_pad c mi ml) TypeError
    (λ f r, length (cells r.1.1) = mi
            ∧ (raw_length "input_ids" f < mi → dtype_object r.1.1 = true)) batch)
    as [->|(rows & -> & Hrows)]; [|done|].
  { rewrite Forall_forall in Hwf. apply Forall_forall. intros f Hf.
    apply seq2seq_pad_None; [done|by apply Hwf|].
    apply max_list_ge, list_elem_of_fmap. eauto. }
  cbn [mbind result_bind].
  rewrite (np_stack_same mi ((λ r : row * row * row, r.1.1) <$> rows)).
  - cbn [mbind result_bind]. rewrite from_numpy_object; [done|].
    apply Exists_exists in Hshort as (f & Hf & Hlt).
    apply list_elem_of_lookup in Hf as [i Hi].
    destruct (Forall2_lookup_l _ _ _ _ _ Hrows Hi) as (r & Hr & _ & Hd).
    apply Exists_exists. exists r.1.1. split; [|auto].
    apply list_elem_of_fmap. exists r. split; [done|].
    by eapply list_elem_of_lookup_2.
  - apply Forall2_length in Hrows. intros Hnil%fmap_nil_inv.
    rewrite Hnil in Hrows. by destruct batch.
  - apply Forall_fmap, Forall_forall. intros r Hr.
    apply list_elem_of_lookup in Hr as [i Hi].
    destruct (Forall2_lookup_r _ _ _ _ _ Hrows Hi) as (f & _ & Hlen & _). done.
Qed.

Lemma seq2seq_no_pad_token_witness :
  seq2seq_call (seq2seq_init (Tokenizer None "right" 103 1000 (λ _, Ok [])) (-100))
    (scenario_batch PyList)
  = Raise TypeError.
Proof.
  apply seq2seq_no_pad_token.
  - reflexivity.
  - repeat constructor.
  - apply Exists_cons_tl, Exists_cons_hd. vm_compute. lia.
Defined.

(** X4. For an example whose labels are held in an array,
    [DataCollatorForSeq2Seq] honours the padding side: on the right the
    fill follows the original items, on any other side it precedes them.
    The fill is the pad token for the input ids, 0 for the attention mask
    and the label pad token for the labels.  The items and the two fill
    values are integers of magnitude at most [2^53], which come back from
    [np.concatenate] as they are. *)
Theorem seq2seq_array_side c p (batch : list example) k f ids am labs :
  s2s_pad_token_id c = Some p →
  Forall (λ f, wf_example f = true) batch →
  exact_int p = true → exact_int (s2s_label_pad_token_id c) = true →
  Forall (λ f, exact_example f = true) batch →
  batch !! k = Some f →
  f !! "input_ids" = Some ids → f !! "attention_mask" = Some am →
  f !! "labels" = Some (NdArray labs) →
  let ni := max_raw_length "input_ids" batch - py_len ids in
  let nl := max_raw_length "labels" batch - length labs in
  ∃ out, seq2seq_call c batch = Ok out ∧
    if String.eqb (s2s_padding_side c) "right" then
      sb_input_ids out !! k = Some (seq_items ids ++ replicate ni p)
      ∧ sb_attention_mask out !! k = Some (seq_items am ++ replicate ni 0%Z)
      ∧ sb_labels out !! k = Some (labs ++ replicate nl (s2s_label_pad_token_id c))
    else
      sb_input_ids out !! k = Some (replicate ni p ++ seq_items ids)
      ∧ sb_attention_mask out !! k = Some (replicate ni 0%Z ++ seq_items am)
      ∧ sb_labels out !! k = Some (replicate nl (s2s_label_pad_token_id c) ++ labs).
Proof.
  intros Hp Hwf Hep Hel Hex Hk Hi Ha Hl ni nl.
  assert (Hne : batch ≠ []) by (by intros ->).
  rewrite (seq2seq_call_exact c p batch Hne Hp Hwf Hep Hel Hex). eexists. split; [done|].
  cbn [sb_input_ids sb_attention_mask sb_labels].
  rewrite !list_lookup_fmap, Hk. cbn [fmap option_fmap option_map].
  unfold seq2seq_side, pad_to, field. rewrite Hi, Ha, Hl.
  cbn [from_option isinstance_list orb seq_items].
  rewrite Forall_forall in Hwf.
  destruct (wf_example_lookup f (Hwf f ltac:(by eapply list_elem_of_lookup_2)))
    as (ids' & am' & labs' & Hi' & Ha' & _ & Hlen & _).
  rewrite Hi in Hi'. rewrite Ha in Ha'. injection Hi' as <-. injection Ha' as <-.
  unfold ni, nl, py_len in *. rewrite Hlen.
  by destruct (String.eqb (s2s_padding_side c) "right").
Qed.

Lemma seq2seq_array_side_witness :
  ∃ out, seq2seq_call (scenario_collator "left") (scenario_batch NdArray) = Ok out
    ∧ sb_input_ids out !! 1 = Some [0; 5; 6]%Z
    ∧ sb_attention_mask out !! 1 = Some [0; 1; 1]%Z
    ∧ sb_labels out !! 0 = Some [-100; -100; 1; 2]%Z.
Proof.
  destruct (seq2seq_array_side (scenario_collator "left") 0%Z (scenario_batch NdArray)
              1 (mk_example NdArray [5; 6]%Z [1; 1]%Z [1; 2; 3; 4]%Z)
              (NdArray [5; 6]%Z) (NdArray [1; 1]%Z) [1; 2; 3; 4]%Z)
    as (out & Hout & H1 & H2 & _);
    [reflexivity|repeat constructor|reflexivity|reflexivity|repeat constructor
    |reflexivity..|].
  destruct (seq2seq_array_side (scenario_collator "left") 0%Z (scenario_batch NdArray)
              0 (mk_example NdArray [5; 6; 7]%Z [1; 1; 1]%Z [1; 2]%Z)
              (NdArray [5; 6; 7]%Z) (NdArray [1; 1; 1]%Z) [1; 2]%Z)
    as (out' & Hout' & _ & _ & H3);
    [reflexivity|repeat constructor|reflexivity|reflexivity|repeat constructor
    |reflexivity..|].
  rewrite Hout in Hout'. injection Hout' as <-.
  exists out. repeat split; assumption.
Defined.

(** * Further properties: DataCollatorForLongestSequence *)

(** X5. With a pad token, [DataCollatorForLongestSequence] raises
    [KeyError] whenever the fields of some feature of the batch, plain or
    paired with a target, lack [input_ids] or [attention_mask]. *)
Theorem longest_missing_field c p (batch : list (feature example)) :
  ls_pad_token_id c = Some p →
  Exists (λ x, fields_of x !! "input_ids" = None
               ∨ fields_of x !! "attention_mask" = None) batch →
  longest_call c batch = Raise KeyError.
Proof.
  intros Hp Hex. unfold longest_call.
  assert (Hne : batch ≠ []) by (intros ->; inversion Hex).
  destruct (decide (Forall (λ x, is_Some (fields_of x !! "input_ids")) batch))
    as [Hall|Hsome].
  - destruct (longest_inputs_wf batch Hall) as [-> _].
    rewrite bind_Ok, py_max_nonempty, bind_Ok by (by destruct batch).
    rewrite (mapM_result_raise _ KeyError); [done| |].
    + intros x e. by apply longest_pad_raises with p.
    + eapply Exists_impl; [exact Hex|]. intros x Hx. by apply longest_pad_missing.
  - apply not_Forall_Exists in Hsome; [|intros x; apply _].
    rewrite (mapM_result_raise _ KeyError); [done| |].
    + intros x e. apply getitem_raises.
    + eapply Exists_impl; [exact Hsome|]. intros x Hx. simpl in Hx.
      rewrite getitem_None; [done|]. by apply eq_None_not_Some.
Qed.

Lemma longest_missing_field_witness :
  longest_call (longest_init (scenario_tokenizer "right"))
    [Plain (mk_example NdArray [5; 6; 7]%Z [1; 1; 1]%Z []);
     Paired (<["input_ids" := PyList [5; 6]%Z]> ∅) (TgtObj (ObjInt 1))]
  = Raise KeyError.
Proof.
  apply (longest_missing_field _ 0%Z); [reflexivity|].
  apply Exists_cons_tl, Exists_cons_hd. right. reflexivity.
Defined.

(** X6. With a tokenizer that has no pad token,
    [DataCollatorForLongestSequence] raises [TypeError] on every batch of
    well-formed features in which some feature has fewer input ids than
    another. *)
Theorem longest_no_pad_token c (batch : list (feature example)) :
  ls_pad_token_id c = None →
  Forall (λ x, wf_fields (fields_of x) = true) batch →
  Exists (λ x, raw_length "input_ids" (fields_of x)
               < max_raw_length "input_ids" (fields_of <$> batch)) batch →
  longest_call c batch = Raise TypeError.
Proof.
  intros Hp Hwf Hshort. unfold longest_call.
  assert (Hne : batch ≠ []) by (intros ->; inversion Hshort).
  destruct (longest_inputs_wf batch) as [-> Hmax].
  { eapply Forall_impl; [exact Hwf|]. intros x Hx. simpl in Hx.
    destruct (wf_fields_lookup _ Hx) as (ids & _ & -> & _). eauto. }
  rewrite bind_Ok, py_max_nonempty, bind_Ok, Hmax by (by destruct batch).
  rewrite Forall_forall in Hwf.
  rewrite (mapM_result_raise_in _ TypeError); [done| |].
  - intros x e Hx. by apply longest_pad_None; [|apply Hwf].
  - apply Exists_exists in Hshort as (x & Hx & Hlt). apply Exists_exists.
    exists x. split; [done|].
    destruct (longest_pad_None c (max_raw_length "input_ids" (fields_of <$> batch))
                (fields_of x) Hp (Hwf x Hx)) as [Hraise _].
    by rewrite Hraise.
Qed.

Lemma longest_no_pad_token_witness :
  longest_call (LongestSequence None "left")
    [Plain (mk_example NdArray [5; 6; 7]%Z [1; 1; 1]%Z []);
     Plain (mk_example PyList [5; 6]%Z [1; 1]%Z [])]
  = Raise TypeError.
Proof.
  apply longest_no_pad_token.
  - reflexivity.
  - repeat constructor.
  - apply Exists_cons_tl, Exists_cons_hd. vm_compute. lia.
Defined.

(** X7. [DataCollatorForLongestSequence] pads Python lists and arrays
    alike on the configured side: in what a call returns, with or without
    stacked targets, the row of every feature is its input ids followed by
    the pad token when the side is right, preceded by it for any other
    side, and its attention mask is filled with 0 the same way.  The pad
    token and the items are integers of magnitude at most [2^53], which
    come back from [np.concatenate] as they are. *)
Theorem longest_rows_side c p (batch : list (feature example)) r k x ids am :
  ls_pad_token_id c = Some p →
  Forall (λ x, wf_fields (fields_of x) = true) batch →
  exact_int p = true →
  Forall (λ x, exact_fields (fields_of x) = true) batch →
  longest_call c batch = Ok r →
  batch !! k = Some x →
  fields_of x !! "input_ids" = Some ids → fields_of x !! "attention_mask" = Some am →
  let n := max_raw_length "input_ids" (fields_of <$> batch) - py_len ids in
  if String.eqb (ls_padding_side c) "right" then
    lb_input_ids (longest_output r) !! k = Some (seq_items ids ++ replicate n p)
    ∧ lb_attention_mask (longest_output r) !! k = Some (seq_items am ++ replicate n 0%Z)
  else
    lb_input_ids (longest_output r) !! k = Some (replicate n p ++ seq_items ids)
    ∧ lb_attention_mask (longest_output r) !! k = Some (replicate n 0%Z ++ seq_items am).
Proof.
  intros Hp Hwf Hep Hex Hcall Hk Hi Ha n.
  assert (Hne : batch ≠ []) by (by intros ->).
  rewrite (longest_call_exact c p batch Hne Hp Hwf Hep Hex) in Hcall.
  assert (Hout : longest_output r = LongestBatch
      ((λ x, pad_to (String.eqb (ls_padding_side c) "right")
               (max_raw_length "input_ids" (fields_of <$> batch)) p
               (field "input_ids" (fields_of x))) <$> batch)
      ((λ x, pad_to (String.eqb (ls_padding_side c) "right")
               (max_raw_length "input_ids" (fields_of <$> batch)) 0
               (field "attention_mask" (fields_of x))) <$> batch)).
  { destruct (bool_decide _).
    - destruct (torch_stack _); [|done]. rewrite bind_Ok in Hcall. by injection Hcall as <-.
    - by injection Hcall as <-. }
  rewrite Hout. cbn [lb_input_ids lb_attention_mask].
  rewrite !list_lookup_fmap, Hk. cbn [fmap option_fmap option_map].
  unfold pad_to, field. rewrite Hi, Ha. cbn [from_option].
  rewrite Forall_forall in Hwf.
  destruct (wf_fields_lookup _ (Hwf x ltac:(by eapply list_elem_of_lookup_2)))
    as (ids' & am' & Hi' & Ha' & Hlen).
  rewrite Hi in Hi'. rewrite Ha in Ha'. injection Hi' as <-. injection Ha' as <-.
  unfold n, py_len in *. rewrite Hlen.
  by destruct (String.eqb (ls_padding_side c) "right").
Qed.

Lemma longest_rows_side_witness :
  ∃ r, longest_call (longest_init (scenario_tokenizer "left"))
         [Plain (mk_example NdArray [5; 6; 7]%Z [1; 1; 1]%Z []);
          Plain (mk_example PyList [5; 6]%Z [1; 1]%Z [])] = Ok r
    ∧ lb_input_ids (longest_output r) !! 1 = Some [0; 5; 6]%Z
    ∧ lb_attention_mask (longest_output r) !! 1 = Some [0; 1; 1]%Z.
Proof.
  eexists. split; [vm_compute; reflexivity|].
  apply (longest_rows_side (longest_init (scenario_tokenizer "left")) 0%Z
           [Plain (mk_example NdArray [5; 6; 7]%Z [1; 1; 1]%Z []);
            Plain (mk_example PyList [5; 6]%Z [1; 1]%Z [])] _ 1
           (Plain (mk_example PyList [5; 6]%Z [1; 1]%Z []))
           (PyList [5; 6]%Z) (PyList [1; 1]%Z)).
  - reflexivity.
  - repeat constructor.
  - reflexivity.
  - repeat constructor.
  - vm_compute. reflexivity.
  - reflexivity.
  - reflexivity.
  - reflexivity.
Defined.

(** X8. When some feature of a well-formed batch is paired with a target
    that is not a tensor (an integer, or a mapping),
    [DataCollatorForLongestSequence] raises [TypeError]: the targets go to
    [torch.stack] as they are. *)
Theorem longest_target_not_tensor c p (batch : list (feature example)) :
  ls_pad_token_id c = Some p →
  Forall (λ x, wf_fields (fields_of x) = true) batch →
  Exists (λ x, ∃ t, target_of x = Some t ∧ is_tensor t = false) batch →
  longest_call c batch = Raise TypeError.
Proof.
  intros Hp Hwf Hex.
  assert (Hne : batch ≠ []) by (intros ->; inversion Hex).
  rewrite (longest_call_wf c p batch Hne Hp Hwf).
  assert (Hts : Exists (λ t, is_tensor t = false) (omap target_of batch)).
  { apply Exists_exists in Hex as (x & Hx & t & Ht & Hnt). apply Exists_exists.
    exists t. split; [|done]. apply list_elem_of_omap. eauto. }
  rewrite bool_decide_eq_true_2.
  - by rewrite (torch_stack_not_tensor _ Hts).
  - destruct (omap target_of batch); [inversion Hts|simpl; lia].
Qed.

Lemma longest_target_not_tensor_witness :
  longest_call (longest_init (scenario_tokenizer "right"))
    [Paired (mk_example NdArray [5; 6; 7]%Z [1; 1; 1]%Z []) (TgtObj (ObjTensor (Tensor [] [1%Z])));
     Paired (mk_example NdArray [5; 6]%Z [1; 1]%Z []) (TgtObj (ObjInt 0))]
  = Raise TypeError.
Proof.
  apply (longest_target_not_tensor _ 0%Z).
  - reflexivity.
  - repeat constructor.
  - apply Exists_cons_tl, Exists_cons_hd. eexists. split; reflexivity.
Defined.



(** * Further properties: DataCollatorForLanguageModeling *)



(** X11. Special tokens are never masked: in a call that returns with
    masking enabled, a position flagged by the special tokens mask keeps
    its token in the returned input ids and has the ignore index as its
    label, whatever the probabilities and the draws. *)
Theorem lm_special_tokens_kept c batch σ g vs n m ret σ' g' (k : nat) v sp (j : nat) (tok : Z) :
  mlm c = true →
  placed σ batch vs n m →
  flagged c vs →
  lm_call c batch σ g = Ok (ret, σ', g') →
  vs !! k = Some v →
  special_flags c (v_special v) (v_ids v) = Ok sp →
  sp !! j = Some true → v_ids v !! j = Some tok →
  out_input_ids (returned_batch ret) !! k ≫= (.!! j) = Some tok
  ∧ out_labels (returned_batch ret) !! k ≫= (.!! j) = Some (ignore_index c).
Proof.
  intros Hmlm Hpl Hfl Hcall Hk Hsp Hb Htok.
  destruct (lm_call_mlm_inv c batch σ g vs n m ret σ' g' Hmlm Hpl Hfl Hcall)
    as (_ & _ & _ & _ & Hrows).
  destruct (Hrows k v Hk) as (sp' & ids' & labels & Hsp' & Hlen & -> & -> & _ & _ & Hrow).
  rewrite Hsp in Hsp'. injection Hsp' as <-. cbn [mbind option_bind].
  destruct (Hrow j tok true Htok Hb) as (Hl & y & Hy & Hcases).
  cbn [negb andb] in Hl, Hcases. split; [|done].
  by destruct Hcases as [->|[? _]].
Qed.

Lemma lm_special_tokens_kept_witness :
  out_input_ids (returned_batch fully_masked_return) !! 0 ≫= (.!! 0) = Some 101%Z
  ∧ out_labels (returned_batch fully_masked_return) !! 0 ≫= (.!! 0) = Some (-100)%Z.
Proof.
  apply (lm_special_tokens_kept
           full_masking [Plain 0] with_special_mask zero_draws [special_mask_view]
           3 3 fully_masked_return fully_masked_store (advance zero_draws 6)
           0 special_mask_view [true; false; false] 0 101%Z).
  - reflexivity.
  - placed_single.
  - repeat constructor. eexists. split; reflexivity.
  - vm_compute. reflexivity.
  - reflexivity.
  - reflexivity.
  - reflexivity.
  - reflexivity.
Defined.

(** X12. With a masking probability of zero the masking branch changes
    nothing: a call that returns gives back the input ids of every example
    as they were, and labels that hold the ignore index at every
    position. *)
Theorem lm_zero_probability c batch σ g vs n m ret σ' g' :
  mlm c = true →
  (mlm_probability c == 0)%Q →
  placed σ batch vs n m →
  flagged c vs →
  lm_call c batch σ g = Ok (ret, σ', g') →
  out_input_ids (returned_batch ret) = v_ids <$> vs
  ∧ out_labels (returned_batch ret)
    = replicate (length batch) (replicate n (ignore_index c)).
Proof.
  intros Hmlm Hp Hpl Hfl Hcall.
  destruct (lm_call_mlm_inv c batch σ g vs n m ret σ' g' Hmlm Hpl Hfl Hcall)
    as (_ & Hlv & Hli & Hll & Hrows).
  destruct Hpl as (_ & _ & Hshape). rewrite Forall_forall in Hshape.
  assert (Hpos : ∀ (k : nat) v, vs !! k = Some v →
            ∃ ids' labels,
              out_input_ids (returned_batch ret) !! k = Some ids'
              ∧ out_labels (returned_batch ret) !! k = Some labels
              ∧ length ids' = n ∧ length labels = n ∧ length (v_ids v) = n
              ∧ ∀ (j : nat) tok, v_ids v !! j = Some tok →
                  ids' !! j = Some tok ∧ labels !! j = Some (ignore_index c)).
  { intros k v Hk.
    destruct (Hrows k v Hk) as (sp & ids' & labels & Hsp & Hlen & Hi & Hl & Hli' & Hll' & Hrow).
    destruct (Hshape v (list_elem_of_lookup_2 _ _ _ Hk)) as [Hn _].
    exists ids', labels. repeat split; try done.
    - destruct (lookup_lt_is_Some_2 sp j) as [b Hb].
      { rewrite Hlen, <-Hn. by eapply lookup_lt_Some. }
      destruct (Hrow j tok b H Hb) as (_ & y & Hy & Hcases).
      rewrite trial_Qeq_zero, andb_false_r in Hcases by done.
      by destruct Hcases as [->|[? _]].
    - destruct (lookup_lt_is_Some_2 sp j) as [b Hb].
      { rewrite Hlen, <-Hn. by eapply lookup_lt_Some. }
      destruct (Hrow j tok b H Hb) as (Hlab & _).
      by rewrite trial_Qeq_zero, andb_false_r in Hlab by done. }
  split; apply rows_eq.
  - by rewrite length_fmap, Hlv.
  - intros k row Hrow. rewrite list_lookup_fmap in Hrow.
    destruct (vs !! k) as [v|] eqn:Hk; [|done]. injection Hrow as <-.
    destruct (Hpos k v Hk) as (ids' & labels & Hi & _ & Hli' & _ & Hn & Hitems).
    exists ids'. split; [done|]. split; [congruence|]. intros j x Hx.
    by apply Hitems.
  - by rewrite length_replicate.
  - intros k row [-> Hlt]%lookup_replicate.
    destruct (lookup_lt_is_Some_2 vs k) as [v Hk]; [lia|].
    destruct (Hpos k v Hk) as (ids' & labels & _ & Hl & _ & Hll' & Hn & Hitems).
    exists labels. split; [done|]. split; [by rewrite length_replicate|].
    intros j x [-> Hj]%lookup_replicate.
    destruct (lookup_lt_is_Some_2 (v_ids v) j) as [tok Htok]; [lia|].
    by apply (Hitems j tok).
Qed.

Lemma lm_zero_probability_witness :
  ∃ ret σ' g',
    lm_call (LanguageModeling bert_like true 0 (-100) (PyFloat (8 # 10)) true false)
      [Plain 0] one_example zero_draws = Ok (ret, σ', g')
    ∧ out_input_ids (returned_batch ret) = [[101; 5; 0]%Z]
    ∧ out_labels (returned_batch ret) = [[-100; -100; -100]%Z].
Proof.
  eexists _, _, _. split; [vm_compute; reflexivity|].
  eapply (lm_zero_probability
           (LanguageModeling bert_like true 0 (-100) (PyFloat (8 # 10)) true false)
           [Plain 0] one_example zero_draws
           [View 0 (<["input_ids" := 0]> (<["attention_mask" := 1]> ∅))
              0 [101; 5; 0]%Z 1 [1; 1; 0]%Z None]
           3 3 _ _ _).
  - reflexivity.
  - reflexivity.
  - placed_single.
  - repeat constructor. eexists. split; reflexivity.
  - vm_compute. reflexivity.
Defined.

(** X13. Masking keeps the ids in the vocabulary: when the original
    tokens and the mask token are ids below the size of the vocabulary,
    so is every id of the input ids that a call returns, random words
    included. *)
Theorem lm_ids_in_vocabulary c batch σ g vs n m ret σ' g' :
  mlm c = true →
  placed σ batch vs n m →
  flagged c vs →
  lm_call c batch σ g = Ok (ret, σ', g') →
  (0 ≤ mask_token_id (lm_tokenizer c) < vocab_size (lm_tokenizer c))%Z →
  Forall (λ v, Forall (λ tok, (0 ≤ tok < vocab_size (lm_tokenizer c))%Z) (v_ids v)) vs →
  Forall (Forall (λ y, (0 ≤ y < vocab_size (lm_tokenizer c))%Z))
    (out_input_ids (returned_batch ret)).
Proof.
  intros Hmlm Hpl Hfl Hcall Hmask Hin.
  destruct (lm_call_mlm_inv c batch σ g vs n m ret σ' g' Hmlm Hpl Hfl Hcall)
    as (_ & Hlv & Hli & _ & Hrows).
  destruct Hpl as (_ & _ & Hshape). rewrite Forall_forall in Hshape.
  apply Forall_lookup. intros k ids' Hk'.
  destruct (lookup_lt_is_Some_2 vs k) as [v Hk].
  { rewrite Hlv, <-Hli. by eapply lookup_lt_Some. }
  destruct (Hrows k v Hk) as (sp & ids'' & labels & Hsp & Hlen & Hi & _ & Hli' & _ & Hrow).
  rewrite Hk' in Hi. injection Hi as <-.
  destruct (Hshape v (list_elem_of_lookup_2 _ _ _ Hk)) as [Hn _].
  apply Forall_lookup. intros j y Hy.
  destruct (lookup_lt_is_Some_2 (v_ids v) j) as [tok Htok].
  { rewrite Hn, <-Hli'. by eapply lookup_lt_Some. }
  destruct (lookup_lt_is_Some_2 sp j) as [b Hb].
  { rewrite Hlen, <-Hn. by eapply lookup_lt_Some. }
  destruct (Hrow j tok b Htok Hb) as (_ & y' & Hy' & Hcases).
  rewrite Hy in Hy'. injection Hy' as <-.
  destruct Hcases as [->|(_ & [->|(Hv & d & ->)])].
  - rewrite Forall_forall in Hin.
    specialize (Hin v (list_elem_of_lookup_2 _ _ _ Hk)).
    rewrite Forall_forall in Hin. apply Hin. by eapply list_elem_of_lookup_2.
  - done.
  - by apply vocab_sample_range.
Qed.

Lemma lm_ids_in_vocabulary_witness :
  Forall (Forall (λ y, (0 ≤ y < 1000)%Z))
    (out_input_ids (returned_batch fully_masked_return)).
Proof.
  apply (lm_ids_in_vocabulary full_masking [Plain 0] with_special_mask zero_draws
           [special_mask_view] 3 3 fully_masked_return fully_masked_store
           (advance zero_draws 6)).
  - reflexivity.
  - placed_single.
  - repeat constructor. eexists. split; reflexivity.
  - vm_compute. reflexivity.
  - vm_compute. split; congruence.
  - repeat constructor; vm_compute; congruence.
Defined.

(** X14. A call that returns with masking enabled has taken a fixed
    number of draws from the generator, whatever they decided: per
    example of [n] tokens, [n] draws when the replacement fraction is not
    a float or is zero, [2n] when it is a non-zero float, and [4n] when
    random words are enabled as well. *)
Theorem lm_draws_consumed c batch σ g vs n m ret σ' g' :
  mlm c = true →
  placed σ batch vs n m →
  flagged c vs →
  lm_call c batch σ g = Ok (ret, σ', g') →
  gen_seed g' = gen_seed g
  ∧ gen_pos g' = gen_pos g + length batch *
      match masked_to_mask c with
      | PyFloat q =>
          if Qeq_bool q 0 then n
          else if apply_random_words c then 4 * n else 2 * n
      | NotFloat => n
      end.
Proof.
  intros Hmlm Hpl Hfl Hcall.
  destruct (lm_call_mlm_inv c batch σ g vs n m ret σ' g' Hmlm Hpl Hfl Hcall)
    as (-> & _).
  split; [done|]. unfold advance, draws_used. cbn [gen_pos].
  destruct (masked_to_mask c) as [q|]; [|lia].
  destruct (Qeq_bool q 0); cbn [negb]; [lia|].
  destruct (apply_random_words c); lia.
Qed.

Lemma lm_draws_consumed_witness :
  gen_seed (advance zero_draws 6) = gen_seed zero_draws
  ∧ gen_pos (advance zero_draws 6) = 6.
Proof.
  apply (lm_draws_consumed full_masking [Plain 0] with_special_mask zero_draws
           [special_mask_view] 3 3 fully_masked_return fully_masked_store
           (advance zero_draws 6)).
  - reflexivity.
  - placed_single.
  - repeat constructor. eexists. split; reflexivity.
  - vm_compute. reflexivity.
Defined.



(** X16. A call that returns touches nothing but the examples of its
    batch: it allocates one tensor per example (the labels), every other
    tensor of the store that is not the input ids of an example of the
    batch is as before, so are the dicts that are not examples of the
    batch, and the attention mask of every example is unchanged in the
    store and is the row the call returns for it. *)
Theorem lm_touches_only_the_batch c batch σ g vs n m ret σ' g' :
  placed σ batch vs n m →
  lm_call c batch σ g = Ok (ret, σ', g') →
  length (tensors σ') = length (tensors σ) + length batch
  ∧ (∀ l, l < length (tensors σ) → l ∉ (v_input <$> vs) →
       tensors σ' !! l = tensors σ !! l)
  ∧ (∀ d, d ∉ (v_dict <$> vs) → dicts σ' !! d = dicts σ !! d)
  ∧ (∀ (k : nat) v, vs !! k = Some v →
       tensors σ' !! v_mask v = Some (v_am v)
       ∧ out_attention_mask (returned_batch ret) !! k = Some (v_am v)).
Proof.
  intros Hpl Hcall.
  destruct (lm_call_frame c batch σ g vs n m ret σ' g' Hpl Hcall)
    as (Hlen & Hframe & Hdframe & Ham).
  split; [done|]. split; [done|]. split; [done|].
  intros k v Hk. destruct Hpl as (Hvs & Hsep & _).
  apply mapM_Some in Hvs.
  destruct (Forall2_lookup_r _ _ _ _ _ Hvs Hk) as (x & _ & Hview).
  apply view_of_Some in Hview as (_ & _ & _ & _ & _ & Hmask & _).
  destruct Hsep as [_ Hsep]. rewrite Forall_forall in Hsep.
  destruct (Hsep v (list_elem_of_lookup_2 _ _ _ Hk)) as [Hnin _].
  split.
  - rewrite Hframe; [done| |done]. by eapply lookup_lt_Some.
  - by rewrite Ham, list_lookup_fmap, Hk.
Qed.

Lemma lm_touches_only_the_batch_witness :
  length (tensors fully_masked_store) = 4
  ∧ tensors fully_masked_store !! 2 = Some [1; 0; 0]%Z
  ∧ tensors fully_masked_store !! 1 = Some [1; 1; 0]%Z.
Proof.
  destruct (lm_touches_only_the_batch full_masking [Plain 0] with_special_mask
              zero_draws [special_mask_view] 3 3 fully_masked_return
              fully_masked_store (advance zero_draws 6))
    as (Hlen & Hframe & _ & Ham).
  - placed_single.
  - vm_compute. reflexivity.
  - split; [exact Hlen|]. split.
    + rewrite (Hframe 2); [reflexivity|vm_compute; lia|].
      by intros ?%list_elem_of_singleton.
    + by destruct (Ham 0 special_mask_view eq_refl).
Defined.

(** X17. A target that is not a mapping, or is an empty mapping, is
    dropped without a trace: the call on a batch of tuples with such
    targets is the call on the bare examples, in what it returns or
    raises and in the store and generator it leaves.  In particular a
    tensor of labels given as a target is not stacked. *)
Theorem lm_target_ignored c batch σ g :
  lm_call c (strip_target <$> batch) σ g = lm_call c batch σ g.
Proof.
  unfold lm_call. rewrite !bind_run. by rewrite lm_loop_strip.
Qed.





(** X20. The auxiliary targets are gathered per key: a call that returns
    gives back the mapping alone exactly when no feature of the batch is
    paired with a mapping that has an entry; otherwise it returns a pair
    whose second component has one entry for each key given by some
    feature, each key once, holding the stack of the values given for
    that key in the order of the batch. *)
Theorem lm_extra_targets_by_key c batch σ g vs n m ret σ' g' :
  placed σ batch vs n m →
  lm_call c batch σ g = Ok (ret, σ', g') →
  match ret with
  | LmReturnBatch _ => batch_items batch = []
  | LmReturnPair _ extra =>
      batch_items batch ≠ []
      ∧ NoDup extra.*1
      ∧ (∀ key, key ∈ extra.*1 ↔ key ∈ (batch_items batch).*1)
      ∧ ∀ key t, (key, t) ∈ extra →
          torch_stack (TgtObj <$> values_for key (batch_items batch)) = Ok t
  end.
Proof.
  intros (Hvs & Hsep & Hshape) Hcall.
  destruct (lm_call_Ok c batch σ g vs n m ret σ' g' Hvs Hsep Hshape Hcall)
    as (Hkeep & Hne & rows & extra & Hex & Hextra).
  destruct (lm_call_run c batch σ g vs rows g' n m extra Hkeep Hne Hvs Hsep Hex
              Hshape Hextra) as (σ'' & Hcall' & _).
  rewrite Hcall in Hcall'. injection Hcall' as -> _.
  destruct (extras_of_spec batch) as (Hnd & Hkeys & Hvals).
  destruct (stack_extra_inv _ _ Hextra) as (Hfst & Hst).
  assert (Hspec : NoDup extra.*1
            ∧ (∀ key, key ∈ extra.*1 ↔ key ∈ (batch_items batch).*1)
            ∧ ∀ key t, (key, t) ∈ extra →
                torch_stack (TgtObj <$> values_for key (batch_items batch)) = Ok t).
  { rewrite Hfst. split; [done|]. split; [done|]. intros key t Hin.
    destruct (Hst key t Hin) as (vs' & Hin' & Hstack).
    by rewrite <-(Hvals key vs' Hin'). }
  destruct extra as [|[k t] extra]; cbn [lm_result].
  - destruct (batch_items batch) as [|[k v] items]; [done|]. exfalso.
    destruct Hspec as (_ & Hk & _). specialize (Hk k).
    apply (elem_of_nil k). apply Hk. simpl. left.
  - split; [|done]. intros Hnil. destruct Hspec as (_ & Hk & _).
    specialize (Hk k). rewrite Hnil in Hk. apply (elem_of_nil k). apply Hk.
    simpl. left.
Qed.

Lemma lm_extra_targets_by_key_witness :
  ∃ out extra σ' g',
    lm_call (LanguageModeling bert_like false (15 # 100) (-100) (PyFloat (8 # 10)) true false)
      [Paired 0 (TgtDict [("cls", ObjTensor (Tensor [] [1%Z]))])] one_example zero_draws
    = Ok (LmReturnPair out extra, σ', g')
    ∧ NoDup extra.*1
    ∧ ∀ t, ("cls", t) ∈ extra → Ok (Tensor [1] [1%Z]) = Ok t.
Proof.
  eexists _, _, _, _. split; [vm_compute; reflexivity|].
  epose proof (lm_extra_targets_by_key
    (LanguageModeling bert_like false (15 # 100) (-100) (PyFloat (8 # 10)) true false)
    [Paired 0 (TgtDict [("cls", ObjTensor (Tensor [] [1%Z]))])] one_example zero_draws
    [View 0 (<["input_ids" := 0]> (<["attention_mask" := 1]> ∅))
       0 [101; 5; 0]%Z 1 [1; 1; 0]%Z None]
    3 3 (LmReturnPair _ _) _ _) as H.
  destruct H as (_ & Hnd & _ & Hst).
  - placed_single.
  - vm_compute. reflexivity.
  - split; [exact Hnd|]. intros t Ht. exact (Hst "cls" t Ht).
Defined.

(** X21. The masking collator returns, under every configuration of the
    masking branch, on a non-empty batch laid out in the store without
    sharing whose examples have special tokens flags of the length of
    their input ids: it is enough that the masking probability is a float
    in [[0, 1]], that a non-zero float replacement fraction is one too,
    that the vocabulary is not empty when random words are drawn, that
    the ignore index and the mask token id are integers an [int64] tensor
    holds, and that the auxiliary targets stack.  The draws never make it
    fail. *)
Theorem lm_masking_returns c batch σ g vs n m extra :
  mlm c = true →
  keep_original_input c = false →
  is_probability (mlm_probability c) = true →
  match masked_to_mask c with
  | PyFloat q =>
      Qeq_bool q 0 = false →
      is_probability q = true
      ∧ (apply_random_words c = true → (0 < vocab_size (lm_tokenizer c))%Z)
  | NotFloat => True
  end →
  is_int64 (ignore_index c) = true →
  is_int64 (mask_token_id (lm_tokenizer c)) = true →
  is_int64 (vocab_size (lm_tokenizer c)) = true →
  batch ≠ [] →
  placed σ batch vs n m →
  flagged c vs →
  stack_extra (extras_of batch []) = Ok extra →
  ∃ out σ' g',
    lm_call c batch σ g = Ok (lm_result out extra, σ', g')
    ∧ length (out_input_ids out) = length batch
    ∧ Forall (λ r, length r = n) (out_input_ids out)
    ∧ Forall (λ r, length r = n) (out_labels out)
    ∧ Forall (λ r, length r = m) (out_attention_mask out).
Proof.
  intros Hmlm Hkeep Hp Hq _ _ _ Hne (Hvs & Hsep & Hshape) Hfl Hextra.
  destruct (lm_examples_returns c vs g Hmlm Hp Hq Hfl) as (rows & g' & Hex).
  destruct (lm_call_run c batch σ g vs rows g' n m extra Hkeep Hne Hvs Hsep Hex
              Hshape Hextra) as (σ' & Hcall & Hlv & Hlr & _).
  eexists _, σ', g'. split; [exact Hcall|].
  cbn [out_input_ids out_labels out_attention_mask].
  pose proof (lm_examples_rows _ _ _ _ _ Hex) as Hrl.
  rewrite Forall_forall in Hshape.
  split; [by rewrite length_fmap|]. split; [|split].
  - apply Forall_fmap, Forall_forall. intros row [k Hrow]%list_elem_of_lookup.
    destruct (Forall2_lookup_r _ _ _ _ _ Hrl Hrow) as (v & Hk & H1 & _).
    destruct (Hshape v (list_elem_of_lookup_2 _ _ _ Hk)) as [Hn _]. simpl. congruence.
  - apply Forall_fmap, Forall_forall. intros row [k Hrow]%list_elem_of_lookup.
    destruct (Forall2_lookup_r _ _ _ _ _ Hrl Hrow) as (v & Hk & _ & H2).
    destruct (Hshape v (list_elem_of_lookup_2 _ _ _ Hk)) as [Hn _]. simpl. congruence.
  - apply Forall_fmap, Forall_forall. intros v Hv. by destruct (Hshape v Hv).
Qed.

Lemma lm_masking_returns_witness :
  ∃ out σ' g',
    lm_call (LanguageModeling bert_like true (15 # 100) (-100) (PyFloat (8 # 10)) true false)
      [Plain 0] with_special_mask half_then_seven
    = Ok (LmReturnBatch out, σ', g')
    ∧ length (out_input_ids out) = 1
    ∧ Forall (λ r, length r = 3) (out_input_ids out)
    ∧ Forall (λ r, length r = 3) (out_labels out)
    ∧ Forall (λ r, length r = 3) (out_attention_mask out).
Proof.
  apply (lm_masking_returns
           (LanguageModeling bert_like true (15 # 100) (-100) (PyFloat (8 # 10)) true false)
           [Plain 0] with_special_mask half_then_seven [special_mask_view] 3 3 []).
  - reflexivity.
  - reflexivity.
  - reflexivity.
  - intros _. split; [reflexivity|]. intros _. reflexivity.
  - reflexivity.
  - reflexivity.
  - reflexivity.
  - discriminate.
  - placed_single.
  - repeat constructor. eexists. split; reflexivity.
  - reflexivity.
Defined.



(** X23. The two padding collators agree on input ids and attention
    masks: when the padding side is right, or the labels of every example
    are arrays, what [DataCollatorForSeq2Seq] returns for these two fields
    is what [DataCollatorForLongestSequence], built for the same pad token
    and side, returns on the same examples.  The fill values and the
    items are integers of magnitude at most [2^53]; beyond, a list that
    [DataCollatorForSeq2Seq] concatenates as a list goes through doubles
    in [DataCollatorForLongestSequence]. *)
Theorem seq2seq_agrees_with_longest c p (batch : list example) :
  batch ≠ [] →
  s2s_pad_token_id c = Some p →
  Forall (λ f, wf_example f = true) batch →
  exact_int p = true → exact_int (s2s_label_pad_token_id c) = true →
  Forall (λ f, exact_example f = true) batch →
  s2s_padding_side c = "right"
  ∨ Forall (λ f : example, ∃ labs, f !! "labels" = Some (NdArray labs)) batch →
  ∃ out,
    seq2seq_call c batch = Ok out
    ∧ longest_call (LongestSequence (Some p) (s2s_padding_side c)) (Plain <$> batch)
      = Ok (ReturnBatch (LongestBatch (sb_input_ids out) (sb_attention_mask out))).
Proof.
  intros Hne Hp Hwf Hep Hel Hex Hside.
  rewrite (seq2seq_call_exact c p batch Hne Hp Hwf Hep Hel Hex). eexists. split; [done|].
  rewrite (longest_call_exact (LongestSequence (Some p) (s2s_padding_side c)) p);
    [|by destruct batch|done| |done|]; last first.
  { apply Forall_fmap. eapply Forall_impl; [exact Hex|]. intros f Hf. simpl.
    unfold exact_example in Hf. by apply andb_prop in Hf as [? _]. }
  { apply Forall_fmap. eapply Forall_impl; [exact Hwf|]. intros f Hf. simpl.
    by apply wf_example_fields. }
  assert (Hno : omap target_of (Plain <$> batch) = []).
  { clear. induction batch as [|f batch IH]; [done|]. by rewrite fmap_cons. }
  rewrite Hno. cbn [length]. rewrite bool_decide_eq_false_2 by lia.
  cbn [ls_padding_side sb_input_ids sb_attention_mask].
  rewrite <-!list_fmap_compose.
  assert (Hs : ∀ f, f ∈ batch →
            seq2seq_side c f = String.eqb (s2s_padding_side c) "right").
  { intros f Hf. unfold seq2seq_side. destruct Hside as [->|Harr]; [by rewrite orb_true_r|].
    rewrite Forall_forall in Harr. by destruct (Harr f Hf) as [labs ->]. }
  assert (Hid : fields_of ∘ Plain <$> batch = batch).
  { clear. induction batch as [|f batch IH]; [done|]. by rewrite fmap_cons, IH. }
  rewrite Hid.
  do 3 f_equal; apply list_fmap_ext; intros i f Hf; simpl;
    by rewrite (Hs f (list_elem_of_lookup_2 _ _ _ Hf)).
Qed.

Lemma seq2seq_agrees_with_longest_witness :
  ∃ out,
    seq2seq_call (scenario_collator "left") (scenario_batch NdArray) = Ok out
    ∧ longest_call (LongestSequence (Some 0%Z) "left") (Plain <$> scenario_batch NdArray)
      = Ok (ReturnBatch (LongestBatch (sb_input_ids out) (sb_attention_mask out))).
Proof.
  apply (seq2seq_agrees_with_longest (scenario_collator "left") 0%Z (scenario_batch NdArray)).
  - discriminate.
  - reflexivity.
  - repeat constructor.
  - reflexivity.
  - reflexivity.
  - repeat constructor.
  - right. repeat constructor; eexists; reflexivity.
Defined.
